(** * Apstra Provisioning Automation Framework: execution lifecycle

    A shallow embedding of the orchestration core of
    [tools/python/utils.py]: the diff engine over YAML snapshots
    ([process_diff]), the execution directory rotation
    ([manage_execution_dirs]), the exit path ([exit_manager],
    [commit_wip_executions]), the Time Voyager quota handling and the
    retry/poll loops ([deploy_bp], [revert_bp], [delete_bp]), the revert
    algorithm ([revert_execution], [remove_non_bp_added]) and the
    rollback history ([get_project_rollback_history]); then the file
    helpers these rely on ([copy_file], [update_yaml],
    [clean_up_directory], [rename_file_if_exists],
    [replace_directory_contents]), the sentinel of blocked executions
    ([blocked_executions]) and the command line ([parse_input_args]).

    Python values are modelled by an inductive type, dictionaries by
    insertion-ordered association lists, the file system by a tree of
    named nodes, and [try/except] by an explicit error result. *)

From Stdlib Require Import String Ascii List ZArith Lia Bool Arith.
From Stdlib Require Import Permutation Sorted.
From Stdlib Require Import DecimalString DecimalNat Decimal.
Import ListNotations.
Local Open Scope string_scope.
Local Open Scope list_scope.
Set Warnings "-register-all".

(* ------------------------------------------------------------------ *)
(** ** Python string primitives *)
(* ------------------------------------------------------------------ *)

Module PyStr.

(** [str.startswith]. *)
Definition startswith (s p : string) : bool := String.prefix p s.

(** [str.split(sep)] for a non-empty separator: [skip] counts the
    characters of a matched separator still to be dropped, [acc] is the
    piece being read. *)
Fixpoint split_go (sep : string) (skip : nat) (acc : string) (s : string)
  : list string :=
  match s with
  | EmptyString => [acc]
  | String c s' =>
      match skip with
      | S k => split_go sep k acc s'
      | O =>
          if String.prefix sep s
          then acc :: split_go sep (String.length sep - 1) "" s'
          else split_go sep 0 (acc ++ String c "") s'
      end
  end.

Definition split (sep s : string) : list string := split_go sep 0 "" s.

(** [sep.join(pieces)]. *)
Definition join (sep : string) (pieces : list string) : string :=
  String.concat sep pieces.

(** [str.replace(old, new)] for a non-empty [old]. *)
Fixpoint replace_go (old new : string) (skip : nat) (s : string) : string :=
  match s with
  | EmptyString => ""
  | String c s' =>
      match skip with
      | S k => replace_go old new k s'
      | O =>
          if String.prefix old s
          then new ++ replace_go old new (String.length old - 1) s'
          else String c (replace_go old new 0 s')
      end
  end.

Definition replace (old new s : string) : string := replace_go old new 0 s.

(** [str.upper()] on the ASCII letters. *)
Definition upper_ascii (c : ascii) : ascii :=
  let n := nat_of_ascii c in
  if (Nat.leb 97 n && Nat.leb n 122)%bool then ascii_of_nat (n - 32) else c.

Fixpoint upper (s : string) : string :=
  match s with
  | EmptyString => ""
  | String c s' => String (upper_ascii c) (upper s')
  end.

(** Position of the first occurrence of [sep] in [s]. *)
Fixpoint find (sep s : string) : option nat :=
  if String.prefix sep s then Some 0
  else match s with
       | EmptyString => None
       | String _ s' => option_map S (find sep s')
       end.

Fixpoint drop (n : nat) (s : string) : string :=
  match n, s with
  | O, _ => s
  | S k, String _ s' => drop k s'
  | S _, EmptyString => ""
  end.

Definition take (n : nat) (s : string) : string := String.substring 0 n s.

Definition is_digit (c : ascii) : bool :=
  let n := nat_of_ascii c in (Nat.leb 48 n && Nat.leb n 57)%bool.

Fixpoint span_digits (s : string) : string * string :=
  match s with
  | String c s' =>
      if is_digit c
      then let '(d, r) := span_digits s' in (String c d, r)
      else ("", s)
  | EmptyString => ("", "")
  end.

(** [c] does not occur in [s]. *)
Fixpoint lacks (c : ascii) (s : string) : bool :=
  match s with
  | EmptyString => true
  | String d s' => negb (Ascii.eqb c d) && lacks c s'
  end.

(** Decimal rendering of a natural number, as [str(n)] and f-strings
    print it. *)
Definition of_nat (n : nat) : string := NilZero.string_of_uint (Nat.to_uint n).

(** [int(s)]: an optional sign followed by ASCII decimal digits; [None]
    stands for the [ValueError] Python raises.  (Surrounding blanks,
    digit-group underscores and non-ASCII digits, which [int] also
    accepts, are outside this model.) *)
Definition int_of_digits (s : string) : option Z :=
  match s with
  | EmptyString => None
  | _ => option_map (fun d => Z.of_nat (Nat.of_uint d)) (NilEmpty.uint_of_string s)
  end.

Definition to_int (s : string) : option Z :=
  match s with
  | String "+" r => int_of_digits r
  | String "-" r => option_map Z.opp (int_of_digits r)
  | _ => int_of_digits s
  end.

Definition of_Z (z : Z) : string :=
  match z with
  | Zneg p => String "-" (of_nat (Pos.to_nat p))
  | _ => of_nat (Z.to_nat z)
  end.

End PyStr.

Example split_path :
  PyStr.split "['" "root['configlets'][0]['name']"
  = ["root"; "configlets'][0]"; "name']"].
Proof. reflexivity. Qed.

Example split_trailing : PyStr.split "," "a,b," = ["a"; "b"; ""].
Proof. reflexivity. Qed.

Example to_int_samples :
  PyStr.to_int "12" = Some 12%Z /\ PyStr.to_int "007" = Some 7%Z
  /\ PyStr.to_int "" = None /\ PyStr.to_int "data" = None
  /\ PyStr.to_int "-1" = Some (-1)%Z /\ PyStr.of_Z 50 = "50"
  /\ PyStr.of_nat 0 = "0".
Proof. repeat split; reflexivity. Qed.

Example upper_code : PyStr.upper "user_tf_exec_commit" = "USER_TF_EXEC_COMMIT".
Proof. reflexivity. Qed.

(* ------------------------------------------------------------------ *)
(** ** Python values and dictionaries *)
(* ------------------------------------------------------------------ *)

(** Exceptions: [None] stands for a raised exception, [Some v] for a
    normal result. *)
Definition exc (A : Type) : Type := option A.

Definition bind {A B : Type} (m : exc A) (f : A -> exc B) : exc B :=
  match m with
  | Some a => f a
  | None => None
  end.

Declare Scope exc_scope.
Delimit Scope exc_scope with exc.
Notation "x <- m ;; k" := (bind m (fun x => k))
  (at level 61, m at next level, right associativity) : exc_scope.
Notation "' p <- m ;; k" := (bind m (fun p => k))
  (at level 61, p pattern, m at next level, right associativity) : exc_scope.

Module Py.

(** The values YAML and DeepDiff hand to the framework.  [PType] is a
    Python type object, which DeepDiff reports under ['old_type'] and
    ['new_type']. *)
Inductive value : Type :=
| PNone
| PBool (b : bool)
| PInt (z : Z)
| PStr (s : string)
| PType (name : string)
| PList (items : list value)
| PDict (items : list (string * value)).

(** Dictionaries keep insertion order, as Python's do. *)
Fixpoint dict_get {A : Type} (d : list (string * A)) (k : string) : option A :=
  match d with
  | [] => None
  | (k', v) :: d' => if String.eqb k k' then Some v else dict_get d' k
  end.

Definition dict_has {A : Type} (d : list (string * A)) (k : string) : bool :=
  match dict_get d k with Some _ => true | None => false end.

(** [d[k] = v]: the value is replaced in place, a new key goes last. *)
Fixpoint dict_set {A : Type} (d : list (string * A)) (k : string) (v : A)
  : list (string * A) :=
  match d with
  | [] => [(k, v)]
  | (k', v') :: d' =>
      if String.eqb k k' then (k', v) :: d' else (k', v') :: dict_set d' k v
  end.

(** [a | b] on dictionaries. *)
Definition dict_merge {A : Type} (a b : list (string * A)) : list (string * A) :=
  fold_left (fun acc kv => dict_set acc (fst kv) (snd kv)) b a.

(** [d.get(k)] and [d.get(k, default)] on a dictionary's items. *)
Definition get_or (d : list (string * value)) (k : string) (default : value)
  : value :=
  match dict_get d k with Some v => v | None => default end.

(** [==]. *)
Fixpoint eqb (a b : value) {struct a} : bool :=
  match a, b with
  | PNone, PNone => true
  | PBool x, PBool y => Bool.eqb x y
  | PBool x, PInt z => Z.eqb z (if x then 1 else 0)
  | PInt z, PBool x => Z.eqb z (if x then 1 else 0)
  | PInt x, PInt y => Z.eqb x y
  | PStr x, PStr y => String.eqb x y
  | PType x, PType y => String.eqb x y
  | PList xs, PList ys =>
      (fix go (xs ys : list value) {struct xs} : bool :=
         match xs, ys with
         | [], [] => true
         | x :: xs', y :: ys' => eqb x y && go xs' ys'
         | _, _ => false
         end) xs ys
  | PDict xs, PDict ys =>
      Nat.eqb (List.length xs) (List.length ys)
      && (fix go (xs : list (string * value)) : bool :=
            match xs with
            | [] => true
            | (k, v) :: xs' =>
                match dict_get ys k with
                | Some w => eqb v w
                | None => false
                end && go xs'
            end) xs
  | _, _ => false
  end.

(** Truth value of a value, as [if v:] tests it. *)
Definition truthy (v : value) : bool :=
  match v with
  | PNone => false
  | PBool b => b
  | PInt z => negb (Z.eqb z 0)
  | PStr s => negb (String.eqb s "")
  | PType _ => true
  | PList l => match l with [] => false | _ => true end
  | PDict d => match d with [] => false | _ => true end
  end.

Fixpoint chars (s : string) : list value :=
  match s with
  | EmptyString => []
  | String c s' => PStr (String c "") :: chars s'
  end.

(** The items [list.extend(v)] appends; a value that is not iterable
    raises [TypeError]. *)
Definition iter_items (v : value) : exc (list value) :=
  match v with
  | PList l => Some l
  | PDict d => Some (map (fun kv => PStr (fst kv)) d)
  | PStr s => Some (chars s)
  | _ => None
  end.

End Py.

(* ------------------------------------------------------------------ *)
(** ** The diff engine: [process_diff] and its helpers *)
(* ------------------------------------------------------------------ *)

Module Diff.
Import Py.
Local Open Scope exc_scope.

(** One match of the pattern [\['(.*?)'\]|\[(\d+)\]] at the head of
    [s]: the two groups and the length of the match. *)
Definition match_segment (s : string) : option (string * string * nat) :=
  if String.prefix "['" s then
    let body := PyStr.drop 2 s in
    match PyStr.find "']" body with
    | Some i =>
        let key := PyStr.take i body in
        if PyStr.lacks "010"%char key then Some (key, "", i + 4) else None
    | None => None
    end
  else if String.prefix "[" s then
    let '(d, r) := PyStr.span_digits (PyStr.drop 1 s) in
    if negb (String.eqb d "") && String.prefix "]" r
    then Some ("", d, String.length d + 2)
    else None
  else None.

(** [re.findall(r"\['(.*?)'\]|\[(\d+)\]", path)]. *)
Fixpoint findall_go (skip : nat) (s : string) : list (string * string) :=
  match s with
  | EmptyString => []
  | String _ s' =>
      match skip with
      | S k => findall_go k s'
      | O =>
          match match_segment s with
          | Some (g1, g2, n) => (g1, g2) :: findall_go (n - 1) s'
          | None => findall_go 0 s'
          end
      end
  end.

Definition findall (path : string) : list (string * string) :=
  findall_go 0 path.

(** [data[int(digits)]]; the outer [None] is [ValueError] from [int],
    the inner one a [KeyError], [IndexError] or [TypeError]. *)
Definition index_value (data : value) (digits : string) : exc (option value) :=
  z <- PyStr.to_int digits ;;
  Some (match data with
        | PList l => nth_error l (Z.to_nat z)
        | PStr s =>
            match String.get (Z.to_nat z) s with
            | Some c => Some (PStr (String c ""))
            | None => None
            end
        | _ => None
        end).

(** [get_value_at_path]: [KeyError], [IndexError] and [TypeError] are
    caught and give Python's [None]; calling [.get] on a value that is
    not a dictionary raises [AttributeError], which is not caught
    there, and neither is the [ValueError] of [int('')]. *)
Fixpoint walk (keys : list (string * string)) (data : value) : exc value :=
  match keys with
  | [] => Some data
  | (g1, g2) :: keys' =>
      if negb (String.eqb g1 "") then
        match data with
        | PDict d =>
            match get_or d g1 PNone with
            | PNone => Some PNone
            | v => walk keys' v
            end
        | _ => None
        end
      else
        r <- index_value data g2 ;;
        match r with
        | Some PNone | None => Some PNone
        | Some v => walk keys' v
        end
  end.

Definition get_value_at_path (data : value) (path : string) : exc value :=
  walk (findall path) data.

(** [extract_segments]. *)
Definition extract_segments (path : string) (num_segments : nat) : string :=
  PyStr.join "]" (firstn num_segments (PyStr.split "]" path)) ++ "]".

(** The loop of [find_nested_dict_entry] over the object list: an entry
    that is not a dictionary raises, and the function's own handler
    turns that into [None]. *)
Fixpoint find_in_list (key : string) (v : value) (l : list value)
  : option value :=
  match l with
  | [] => None
  | PDict e :: l' =>
      if eqb (get_or e key PNone) v then Some (PDict e)
      else find_in_list key v l'
  | _ :: _ => None
  end.

(** [find_nested_dict_entry]: Python's [None] is rendered by [PNone]. *)
Definition find_nested_dict_entry
  (nested_dict : value) (object_key key : string) (v : value) : value :=
  match nested_dict with
  | PDict d =>
      match get_or d object_key (PList []) with
      | PList l =>
          match find_in_list key v l with
          | Some e => e
          | None => PNone
          end
      | _ => PNone
      end
  | _ => PNone
  end.

(** The [eval] of a DeepDiff path whose [root] was replaced by
    [data_from_yaml]: subscripts only, each of which must succeed. *)
Fixpoint subscripts_go (skip : nat) (s : string) : exc (list (string * string)) :=
  match s with
  | EmptyString => Some []
  | String _ s' =>
      match skip with
      | S k => subscripts_go k s'
      | O =>
          match match_segment s with
          | Some (g1, g2, n) =>
              rest <- subscripts_go (n - 1) s' ;; Some ((g1, g2) :: rest)
          | None => None
          end
      end
  end.

Fixpoint subscript (keys : list (string * string)) (data : value) : exc value :=
  match keys with
  | [] => Some data
  | (g1, g2) :: keys' =>
      if String.eqb g2 "" then
        match data with
        | PDict d => v <- dict_get d g1 ;; subscript keys' v
        | _ => None
        end
      else
        r <- index_value data g2 ;;
        v <- r ;; subscript keys' v
  end.

Definition eval_path (data_from_yaml : value) (change : string) : exc value :=
  let path := PyStr.replace "root" "data_from_yaml" change in
  if String.prefix "data_from_yaml" path then
    keys <- subscripts_go 0 (PyStr.drop 14 path) ;;
    subscript keys data_from_yaml
  else None.

(** A DeepDiff report ([DeepDiff(...).to_dict()]): per change type
    either a dictionary from path to details, or (for
    [dictionary_item_added] and [dictionary_item_removed]) a plain
    collection of paths. *)
Inductive changes : Type :=
| AsDict (entries : list (string * value))
| AsPaths (paths : list string).

Definition report : Type := list (string * changes).

(** One entry of the result: [{'added': [], 'changed': [], 'removed': []}]. *)
Record bucket : Type := {
  added : list value;
  changed : list value;
  removed : list value
}.

Definition results : Type := list (string * bucket).

Definition empty_bucket : bucket :=
  {| added := []; changed := []; removed := [] |}.

(** [if k not in results: results[k] = {...}]. *)
Definition ensure (r : results) (k : string) : results :=
  if dict_has r k then r else r ++ [(k, empty_bucket)].

Definition update (r : results) (k : string) (f : bucket -> bucket) : results :=
  map (fun kb => if String.eqb k (fst kb) then (fst kb, f (snd kb)) else kb) r.

Definition extend_added (r : results) (k : string) (vs : list value) : results :=
  update r k (fun b => {| added := added b ++ vs;
                          changed := changed b; removed := removed b |}).

Definition extend_removed (r : results) (k : string) (vs : list value) : results :=
  update r k (fun b => {| added := added b;
                          changed := changed b; removed := removed b ++ vs |}).

Definition append_changed (r : results) (k : string) (v : value) : results :=
  update r k (fun b => {| added := added b;
                          changed := changed b ++ [v]; removed := removed b |}).

Definition added_types : list string :=
  ["dictionary_item_added"; "iterable_item_added"; "attribute_added";
   "set_item_added"].
Definition changed_types : list string :=
  ["values_changed"; "type_changes"; "repetition_change"].
Definition removed_types : list string :=
  ["dictionary_item_removed"; "iterable_item_removed"; "attribute_removed";
   "set_item_removed"].

Definition mem (s : string) (l : list string) : bool :=
  existsb (String.eqb s) l.

(** [{'name': name} | details]. *)
Definition with_name (name details : value) : exc value :=
  match details with
  | PDict d => Some (PDict (dict_merge [("name", name)] d))
  | _ => None
  end.

(** [change.split("['")[1].split("']")[0]]. *)
Definition apstra_object_of (change : string) : exc string :=
  piece <- nth_error (PyStr.split "['" change) 1 ;;
  Some (hd "" (PyStr.split "']" piece)).

(** [change.split('[')[-1].split(']')[0]]. *)
Definition changed_attribute_of (change : string) : string :=
  hd "" (PyStr.split "]" (last (PyStr.split "[" change) "")).

(** The first-execution branch: the body of the loop over
    [details.get('new_value').items()]. *)
Definition first_exec_step (r : results) (kv : string * value) : exc results :=
  let '(k, v) := kv in
  let r := ensure r k in
  match v with
  | PList l => Some (extend_added r k l)
  | PDict d =>
      if dict_has d "user_defined"
      then l <- iter_items (get_or d "user_defined" PNone) ;;
           Some (extend_added r k l)
      else Some r
  | _ => Some r
  end.

Fixpoint foldM {A B : Type} (f : A -> B -> exc A) (l : list B) (a : A) : exc A :=
  match l with
  | [] => Some a
  | b :: l' => a' <- f a b ;; foldM f l' a'
  end.

Section ProcessDiff.

(** What [read_yaml] (or [read_j2]) returned for the two files, and the
    [configlet_name] argument. *)
Variable previous_file current_file : value.
Variable configlet_name : option string.

(** The body of [for change, details in changes.items()]; the state is
    [results] and [list_objects_changed_names]. *)
Definition dict_step (change_type : string)
  (st : results * list string) (cd : string * value)
  : exc (results * list string) :=
  let '(r, renamed) := st in
  let '(change, details) := cd in
  if String.eqb change_type "type_changes" && String.eqb change "root" then
    match details with
    | PDict dd =>
        match get_or dd "new_value" PNone with
        | PDict nv => r' <- foldM first_exec_step nv r ;; Some (r', renamed)
        | _ => None
        end
    | _ => None
    end
  else if String.eqb change_type "values_changed" && String.eqb change "root" then
    match configlet_name with
    | Some n =>
        if String.eqb n "" then Some (r, renamed)
        else
          let r := ensure r "configlet_contents" in
          cd <- with_name (PStr n) details ;;
          Some (append_changed r "configlet_contents" cd, renamed)
    | None => Some (r, renamed)
    end
  else
    apstra_object <- apstra_object_of change ;;
    let r := ensure r apstra_object in
    if mem change_type changed_types then
      after_root <- nth_error (PyStr.split "root" change) 1 ;;
      let previous_object := extract_segments after_root 2 in
      let changed_attribute := changed_attribute_of change in
      if String.eqb changed_attribute "'name'" then
        let renamed := renamed ++ [previous_object] in
        match details with
        | PDict dd =>
            let previous_name := get_or dd "old_value" (PStr "") in
            let current_name := get_or dd "new_value" (PStr "") in
            let previous_entry :=
              find_nested_dict_entry previous_file apstra_object "name" previous_name in
            let current_entry :=
              find_nested_dict_entry current_file apstra_object "name" current_name in
            if truthy previous_entry && truthy current_entry
            then Some (extend_added
                         (extend_removed r apstra_object [previous_entry])
                         apstra_object [current_entry], renamed)
            else Some (r, renamed)
        | _ => None
        end
      else if negb (mem previous_object renamed) then
        current_name <- get_value_at_path previous_file (previous_object ++ "['name']") ;;
        cd <- with_name current_name details ;;
        Some (append_changed r apstra_object cd, renamed)
      else Some (r, renamed)
    else if mem change_type added_types then
      Some (extend_added r apstra_object [details], renamed)
    else if mem change_type removed_types then
      Some (extend_removed r apstra_object [details], renamed)
    else Some (r, renamed).

(** The body of [for change in changes] for the two change types that
    DeepDiff reports as bare paths. *)
Definition path_step (change_type : string) (r : results) (change : string)
  : exc results :=
  let data_from_yaml :=
    if String.eqb change_type "dictionary_item_added"
    then current_file else previous_file in
  apstra_object <- apstra_object_of change ;;
  details <- eval_path data_from_yaml change ;;
  let r := ensure r apstra_object in
  match details with
  | PList l =>
      if String.eqb change_type "dictionary_item_added"
      then Some (extend_added r apstra_object l)
      else Some (extend_removed r apstra_object l)
  | _ => Some r
  end.

(** The body of [for change_type, changes in diff.items()]. *)
Definition type_step (r : results) (tc : string * changes) : exc results :=
  let '(change_type, chs) := tc in
  if mem change_type (added_types ++ changed_types ++ removed_types) then
    match chs with
    | AsDict entries =>
        st <- foldM (dict_step change_type) entries (r, []) ;;
        Some (fst st)
    | AsPaths paths =>
        if String.eqb change_type "dictionary_item_added"
           || String.eqb change_type "dictionary_item_removed"
        then foldM (path_step change_type) paths r
        else Some r
    end
  else Some r.

(** [process_diff]: any exception ends in [return {}]. *)
Definition process_diff (diff : report) : results :=
  match foldM type_step diff [] with
  | Some r => r
  | None => []
  end.

End ProcessDiff.

End Diff.

Example findall_path :
  Diff.findall "['configlets'][0]['name']"
  = [("configlets", ""); ("", "0"); ("name", "")].
Proof. reflexivity. Qed.

Example extract_segments_path :
  Diff.extract_segments "['configlets'][0]['name']" 2 = "['configlets'][0]".
Proof. reflexivity. Qed.

(* ------------------------------------------------------------------ *)
(** ** Facts about the string primitives *)
(* ------------------------------------------------------------------ *)

Module PyStrFacts.
Import PyStr.
Local Open Scope string_scope.

Lemma append_nil_r (s : string) : s ++ "" = s.
Proof. induction s as [|c s IH]; simpl; [reflexivity | now rewrite IH]. Qed.

Lemma append_assoc (a b c : string) : (a ++ b) ++ c = a ++ (b ++ c).
Proof. induction a as [|x a IH]; simpl; [reflexivity | now rewrite IH]. Qed.

Lemma append_snoc (a : string) (c : ascii) (b : string) :
  (a ++ String c "") ++ b = a ++ String c b.
Proof. now rewrite append_assoc. Qed.

Lemma lacks_cons (c d : ascii) (s : string) :
  lacks c (String d s) = true -> c <> d /\ lacks c s = true.
Proof.
  simpl. intros H. apply andb_prop in H as [H1 H2]. split; [|exact H2].
  intros ->. now rewrite Ascii.eqb_refl in H1.
Qed.

Lemma lacks_app (c : ascii) (a b : string) :
  lacks c a = true -> lacks c b = true -> lacks c (a ++ b) = true.
Proof.
  induction a as [|d a IH]; simpl; [easy|].
  intros H Hb. apply andb_prop in H as [H1 H2]. now rewrite H1, IH.
Qed.

(** A separator cannot start at a character that differs from its
    first one. *)
Lemma prefix_other (c d : ascii) (sep s : string) :
  c <> d -> String.prefix (String c sep) (String d s) = false.
Proof. intros H. simpl. now destruct (ascii_dec c d). Qed.

Lemma prefix_same (c : ascii) (sep s : string) :
  String.prefix (String c sep) (String c s) = String.prefix sep s.
Proof. simpl. now destruct (ascii_dec c c). Qed.

(** [split] always yields at least one piece, which starts with what
    was read so far. *)
Lemma split_go_head (sep s : string) : forall k acc,
  exists r l, split_go sep k acc s = (acc ++ r) :: l.
Proof.
  induction s as [|c s IH]; intros k acc; cbn [split_go].
  - exists "", []. now rewrite append_nil_r.
  - destruct k as [|k]; [|apply IH].
    destruct (String.prefix sep (String c s)).
    + exists "", (split_go sep (String.length sep - 1) "" s).
      now rewrite append_nil_r.
    + destruct (IH 0 (acc ++ String c "")) as (r & l & E).
      exists (String c r), l. now rewrite E, append_snoc.
Qed.

(** While no character of [x] can start the separator, [x] is read
    into the current piece. *)
Lemma split_go_skip (c : ascii) (sep x y : string) : forall acc,
  lacks c x = true ->
  split_go (String c sep) 0 acc (x ++ y) = split_go (String c sep) 0 (acc ++ x) y
  \/ x = "".
Proof.
  induction x as [|d x IH]; intros acc H; [now right|left].
  apply lacks_cons in H as [Hd Hx].
  change (String d x ++ y) with (String d (x ++ y)).
  cbn [split_go]. rewrite (prefix_other c d sep (x ++ y) Hd).
  destruct (IH (acc ++ String d "") Hx) as [E| ->].
  - now rewrite E, append_snoc.
  - simpl. reflexivity.
Qed.

Lemma split_go_read (c : ascii) (sep x y : string) (acc : string) :
  lacks c x = true ->
  split_go (String c sep) 0 acc (x ++ y) = split_go (String c sep) 0 (acc ++ x) y.
Proof.
  intros H. destruct (split_go_skip c sep x y acc H) as [E| ->]; [exact E|].
  simpl. now rewrite append_nil_r.
Qed.

(** A string without the separator's first character is one piece. *)
Lemma split_go_whole (c : ascii) (sep x acc : string) :
  lacks c x = true -> split_go (String c sep) 0 acc x = [acc ++ x].
Proof.
  intros H. rewrite <- (append_nil_r x) at 1.
  now rewrite (split_go_read c sep x "" acc H).
Qed.

Lemma prefix_app (sep y : string) : String.prefix sep (sep ++ y) = true.
Proof.
  induction sep as [|c sep IH]; [now destruct y|].
  change (String c sep ++ y) with (String c (sep ++ y)).
  now rewrite prefix_same.
Qed.

(** The characters of a matched separator are dropped. *)
Lemma split_go_drop (sep : string) (z y : string) : forall acc,
  split_go sep (String.length z) acc (z ++ y) = split_go sep 0 acc y.
Proof.
  induction z as [|c z IH]; intros acc; [reflexivity|].
  change (String c z ++ y) with (String c (z ++ y)).
  cbn [String.length split_go]. apply IH.
Qed.

Lemma split_go_match (c : ascii) (sep y acc : string) :
  split_go (String c sep) 0 acc (String c sep ++ y)
  = acc :: split_go (String c sep) 0 "" y.
Proof.
  change (String c sep ++ y) with (String c (sep ++ y)).
  cbn [split_go].
  change (String c (sep ++ y)) with (String c sep ++ y).
  rewrite prefix_app. cbn [String.length]. rewrite Nat.sub_1_r. cbn [Nat.pred].
  now rewrite split_go_drop.
Qed.

(** The piece before the first separator, when its first character
    does not occur earlier. *)
Lemma split_go_at (c : ascii) (sep x y acc : string) :
  lacks c x = true ->
  split_go (String c sep) 0 acc (x ++ String c sep ++ y)
  = (acc ++ x) :: split_go (String c sep) 0 "" y.
Proof.
  intros H. rewrite (split_go_read c sep x _ acc H). apply split_go_match.
Qed.

Lemma last_cons_nonempty {A : Type} (a b : A) (l : list A) (d : A) :
  last (a :: b :: l) d = last (b :: l) d.
Proof. reflexivity. Qed.

(** [s.split(c)[-1]] is whatever follows the last [c]. *)
Lemma split_last (c : ascii) (y : string) : forall x acc,
  lacks c y = true ->
  last (split_go (String c "") 0 acc (x ++ String c y)) "" = y.
Proof.
  intros x acc Hy. revert acc.
  induction x as [|d x IH]; intros acc.
  - change ("" ++ String c y) with (String c y). cbn [split_go].
    rewrite prefix_same. cbn [String.prefix String.length Nat.sub].
    destruct y as [|e y].
    + reflexivity.
    + rewrite (split_go_whole c "" (String e y) "" Hy). reflexivity.
  - change (String d x ++ String c y) with (String d (x ++ String c y)).
    cbn [split_go]. destruct (String.prefix (String c "") (String d (x ++ String c y))).
    + cbn [String.length Nat.sub].
      destruct (split_go_head (String c "") (x ++ String c y) 0 "") as (r & l & E).
      specialize (IH ""). rewrite E in IH |- *. exact IH.
    + apply IH.
Qed.

End PyStrFacts.

(* ------------------------------------------------------------------ *)
(** ** The diff engine on a rename and on a first execution *)
(* ------------------------------------------------------------------ *)

Module DiffLaws.
Import Py Diff PyStr PyStrFacts.

(** DeepDiff's path of item [i] of the object list [t], and of its
    [name] attribute. *)
Definition item_path (t : string) (i : nat) : string :=
  ("root['" ++ t ++ "'][" ++ of_nat i ++ "]")%string.

Definition name_path (t : string) (i : nat) : string :=
  (item_path t i ++ "['name']")%string.

(** [compare_yaml] calls [DeepDiff(previous, current, ignore_order=True)],
    a third-party library.  For one item of a list whose [name] alone
    differs it either pairs the old item with the new one and reports
    the changed value, or reports the old item as removed and the new
    one as added (in either order of the two keys). *)
Inductive pairing : Type := Paired | AddedFirst | RemovedFirst.

Definition rename_report (p : pairing) (t : string) (i : nat)
  (old new : string) (o o' : value) : report :=
  match p with
  | Paired =>
      [("values_changed",
        AsDict [(name_path t i,
                 PDict [("new_value", PStr new); ("old_value", PStr old)])])]
  | AddedFirst =>
      [("iterable_item_added", AsDict [(item_path t i, o')]);
       ("iterable_item_removed", AsDict [(item_path t i, o)])]
  | RemovedFirst =>
      [("iterable_item_removed", AsDict [(item_path t i, o)]);
       ("iterable_item_added", AsDict [(item_path t i, o')])]
  end.

(** For a previous snapshot that is absent or empty [yaml.safe_load]
    gives [None], and DeepDiff reports one type change at the root. *)
Definition first_execution_report (current : value) : report :=
  [("type_changes",
    AsDict [("root",
             PDict [("old_type", PType "NoneType"); ("new_type", PType "dict");
                    ("old_value", PNone); ("new_value", current)])])].

(** [get_non_bp_changes] creates a missing previous file empty, and
    [read_yaml] of an empty file is [None]. *)
Definition previous_snapshot (file : option value) : value :=
  match file with
  | Some v => v
  | None => PNone
  end.

(** The [name] of an object of a snapshot. *)
Definition name_of (v : value) : option string :=
  match v with
  | PDict e =>
      match dict_get e "name" with
      | Some (PStr n) => Some n
      | _ => None
      end
  | _ => None
  end.

Fixpoint names_of (l : list value) : option (list string) :=
  match l with
  | [] => Some []
  | v :: l' =>
      match name_of v, names_of l' with
      | Some n, Some ns => Some (n :: ns)
      | _, _ => None
      end
  end.

(** The data model's invariant on an object list: every item is an
    object with a name, and names are unique within the list. *)
Definition unique_names (l : list value) : Prop :=
  exists ns, names_of l = Some ns /\ NoDup ns.

(** Where a snapshot keeps the objects of one type: the value is the
    object list itself, or a dictionary holding it under
    [user_defined]. *)
Inductive holds_objects : value -> list value -> Prop :=
| holds_direct (l : list value) : holds_objects (PList l) l
| holds_user_defined (d : list (string * value)) (l : list value) :
    dict_get d "user_defined" = Some (PList l) ->
    holds_objects (PDict d) l.

Definition only_added (l : list value) : bucket :=
  {| added := l; changed := []; removed := [] |}.

(** *** Dictionaries *)

Lemma dict_get_set_same {A : Type} (d : list (string * A)) (k : string) (v : A) :
  dict_get (dict_set d k v) k = Some v.
Proof.
  induction d as [|[k' v'] d IH]; simpl.
  - now rewrite String.eqb_refl.
  - destruct (String.eqb k k') eqn:E; simpl; rewrite E; [reflexivity | exact IH].
Qed.

Lemma dict_has_app {A : Type} (d e : list (string * A)) (k : string) :
  dict_has (d ++ e) k = dict_has d k || dict_has e k.
Proof.
  unfold dict_has. induction d as [|[k' v'] d IH]; simpl.
  - reflexivity.
  - destruct (String.eqb k k'); [reflexivity | exact IH].
Qed.

Lemma dict_has_false_iff {A : Type} (d : list (string * A)) (k : string) :
  dict_has d k = false <-> ~ In k (map fst d).
Proof.
  unfold dict_has. induction d as [|[k' v'] d IH]; simpl.
  - tauto.
  - destruct (String.eqb_spec k k') as [->|N].
    + split; [discriminate | intros H; exfalso; apply H; now left].
    + rewrite IH. split; [intros H [E|I]; [now subst | now apply H] | tauto].
Qed.

Lemma update_absent (r : results) (k : string) (f : bucket -> bucket) :
  dict_has r k = false -> update r k f = r.
Proof.
  rewrite dict_has_false_iff. unfold update.
  induction r as [|[k' b] r IH]; simpl; intros H; [reflexivity|].
  destruct (String.eqb_spec k k') as [->|N]; [exfalso; apply H; now left|].
  f_equal. apply IH. tauto.
Qed.

Lemma update_app (r s : results) (k : string) (f : bucket -> bucket) :
  update (r ++ s) k f = update r k f ++ update s k f.
Proof. apply map_app. Qed.

(** *** Parsing DeepDiff's paths *)

Lemma apstra_object_of_path (t rest : string) :
  lacks "[" t = true -> lacks "'" t = true ->
  apstra_object_of ("root['" ++ t ++ "']" ++ rest)%string = Some t.
Proof.
  intros Hb Hq. unfold apstra_object_of, split.
  change ("root['" ++ t ++ "']" ++ rest)%string
    with ("root" ++ "['" ++ (t ++ "']" ++ rest))%string.
  rewrite (split_go_at "[" "'" "root" _ "" eq_refl).
  assert (Hx : lacks "[" (t ++ "']")%string = true) by (apply lacks_app; easy).
  rewrite <- append_assoc.
  rewrite (split_go_read "[" "'" (t ++ "']") rest "" Hx).
  destruct (split_go_head "['" rest 0 ("" ++ (t ++ "']"))%string) as (r & l & E).
  rewrite E. cbn [nth_error bind append]. f_equal.
  rewrite append_assoc.
  now rewrite (split_go_at "'" "]" t r "" Hq).
Qed.

Lemma item_path_shape (t : string) (i : nat) :
  item_path t i = ("root['" ++ t ++ "']" ++ ("[" ++ of_nat i ++ "]"))%string.
Proof. reflexivity. Qed.

Lemma name_path_shape (t : string) (i : nat) :
  name_path t i
  = ("root['" ++ t ++ "']" ++ ("[" ++ of_nat i ++ "]['name']"))%string.
Proof.
  unfold name_path, item_path.
  change ("root['" ++ t ++ "'][" ++ of_nat i ++ "]")%string
    with ("root['" ++ (t ++ ("'][" ++ (of_nat i ++ "]"))))%string.
  rewrite !append_assoc. reflexivity.
Qed.

Lemma changed_attribute_of_name_path (t : string) (i : nat) :
  changed_attribute_of (name_path t i) = "'name'".
Proof.
  unfold changed_attribute_of, name_path, split.
  change "['name']" with (String "[" "'name']").
  rewrite (split_last "[" "'name']" (item_path t i) "" eq_refl).
  reflexivity.
Qed.

Lemma name_path_not_root (t : string) (i : nat) :
  String.eqb (name_path t i) "root" = false.
Proof. rewrite name_path_shape. reflexivity. Qed.

Lemma item_path_not_root (t : string) (i : nat) :
  String.eqb (item_path t i) "root" = false.
Proof. reflexivity. Qed.

Lemma after_root (s : string) :
  exists piece, nth_error (split "root" ("root" ++ s)%string) 1 = Some piece.
Proof.
  unfold split.
  change ("root" ++ s)%string with ("" ++ "root" ++ s)%string.
  rewrite (split_go_at "r" "oot" "" s "" eq_refl).
  destruct (split_go_head "root" s 0 "") as (r & l & E).
  rewrite E. now exists ("" ++ r)%string.
Qed.

(** *** Looking an object up by name *)

Lemma names_of_app_inv (l1 l2 : list value) (ns : list string) :
  names_of (l1 ++ l2) = Some ns ->
  exists n1 n2, names_of l1 = Some n1 /\ names_of l2 = Some n2 /\ ns = n1 ++ n2.
Proof.
  revert ns. induction l1 as [|a l1 IH]; intros ns; simpl.
  - intros H. now exists [], ns.
  - destruct (name_of a) as [n|]; [|discriminate].
    destruct (names_of (l1 ++ l2)) as [ns'|] eqn:E; [|discriminate].
    intros [= <-]. destruct (IH ns' eq_refl) as (n1 & n2 & -> & H2 & ->).
    now exists (n :: n1), n2.
Qed.

Lemma name_of_inv (v : value) (n : string) :
  name_of v = Some n ->
  exists e, v = PDict e /\ dict_get e "name" = Some (PStr n).
Proof.
  destruct v as [| | | | |l|e]; try discriminate. simpl.
  destruct (dict_get e "name") as [[| | |m| | |]|] eqn:E; try discriminate.
  intros [= ->]. now exists e.
Qed.

Lemma find_in_list_unique (l1 l2 : list value) (o : list (string * value))
  (n : string) :
  dict_get o "name" = Some (PStr n) ->
  unique_names (l1 ++ PDict o :: l2) ->
  find_in_list "name" (PStr n) (l1 ++ PDict o :: l2) = Some (PDict o).
Proof.
  intros Ho (ns & Hn & Hd). revert ns Hn Hd.
  induction l1 as [|a l1 IH]; intros ns Hn Hd.
  - simpl. unfold get_or. rewrite Ho. simpl. now rewrite String.eqb_refl.
  - simpl in Hn. destruct (name_of a) as [m|] eqn:Ea; [|discriminate].
    destruct (names_of (l1 ++ PDict o :: l2)) as [ns'|] eqn:E; [|discriminate].
    injection Hn as <-. inversion Hd as [|? ? Hm Hd']; subst.
    destruct (name_of_inv a m Ea) as (e & -> & He).
    simpl. unfold get_or. rewrite He. simpl.
    destruct (String.eqb_spec m n) as [->|_].
    + exfalso. apply Hm.
      destruct (names_of_app_inv _ _ _ E) as (n1 & n2 & _ & H2 & ->).
      simpl in H2. unfold name_of in H2. rewrite Ho in H2.
      destruct (names_of l2); [|discriminate]. injection H2 as <-.
      apply in_or_app. right. now left.
    + now apply (IH ns').
Qed.

(** *** The first-execution branch *)

Lemma first_exec_fold (cf : list (string * value)) : forall objs r,
  Forall2 holds_objects (map snd cf) objs ->
  NoDup (map fst cf) ->
  (forall k, In k (map fst cf) -> dict_has r k = false) ->
  foldM first_exec_step cf r
  = Some (r ++ map (fun ko => (fst ko, only_added (snd ko)))
                   (combine (map fst cf) objs)).
Proof.
  induction cf as [|[k v] cf IH]; intros objs r Hh Hd Hr.
  - inversion Hh; subst. simpl. now rewrite app_nil_r.
  - simpl in Hh, Hd. inversion Hh as [|? l ? objs' Hv Hrest]; subst.
    inversion Hd as [|? ? Hk Hd']; subst.
    assert (Hrk : dict_has r k = false) by (apply Hr; now left).
    assert (Estep : first_exec_step r (k, v)
                    = Some (r ++ [(k, only_added l)])).
    { unfold first_exec_step, ensure. rewrite Hrk.
      assert (Eu : extend_added (r ++ [(k, empty_bucket)]) k l
                   = r ++ [(k, only_added l)]).
      { unfold extend_added. rewrite update_app, (update_absent r k _ Hrk).
        simpl. now rewrite String.eqb_refl. }
      inversion Hv as [l0|d l0 Hud]; subst.
      - now rewrite Eu.
      - unfold dict_has, get_or. rewrite Hud. simpl. now rewrite Eu. }
    cbn [foldM]. rewrite Estep. cbn [bind].
    rewrite (IH objs' (r ++ [(k, only_added l)]) Hrest Hd').
    + cbn [map combine fst snd]. now rewrite <- app_assoc.
    + intros k' Hk'. rewrite dict_has_app, (Hr k' (or_intror Hk')).
      unfold dict_has. simpl.
      destruct (String.eqb_spec k' k) as [->|_]; [contradiction | reflexivity].
Qed.

(** *** The two laws *)

(** C5 (first-execution law).  When the previous snapshot is absent (the
    file is created empty) or empty, so that it loads as [None], and the
    current snapshot maps each object type to its objects, the diff has
    one bucket per object type, holding every object of that type under
    [added] and nothing under [changed] or [removed]. *)
Theorem first_execution_law (file : option value)
  (cf : list (string * value)) (objs : list (list value)) :
  file = None \/ file = Some PNone ->
  Forall2 holds_objects (map snd cf) objs ->
  NoDup (map fst cf) ->
  process_diff (previous_snapshot file) (PDict cf) None
               (first_execution_report (PDict cf))
  = map (fun ko => (fst ko, only_added (snd ko))) (combine (map fst cf) objs).
Proof.
  intros _ Hh Hd. unfold process_diff, first_execution_report.
  cbn [foldM type_step]. 
  replace (mem "type_changes" (added_types ++ changed_types ++ removed_types))
    with true by reflexivity.
  cbn [foldM dict_step String.eqb Ascii.eqb Bool.eqb andb bind].
  replace (get_or _ "new_value" PNone) with (PDict cf) by reflexivity.
  rewrite (first_exec_fold cf objs [] Hh Hd) by reflexivity.
  reflexivity.
Qed.

Lemma first_execution_law_witness :
  process_diff (previous_snapshot None)
    (PDict [("configlets", PList [PDict [("name", PStr "banner")]]);
            ("property_sets",
             PDict [("user_defined", PList [PDict [("name", PStr "ps1")]])])])
    None
    (first_execution_report
       (PDict [("configlets", PList [PDict [("name", PStr "banner")]]);
               ("property_sets",
                PDict [("user_defined", PList [PDict [("name", PStr "ps1")]])])]))
  = [("configlets", only_added [PDict [("name", PStr "banner")]]);
     ("property_sets", only_added [PDict [("name", PStr "ps1")]])].
Proof.
  apply (first_execution_law None
           [("configlets", PList [PDict [("name", PStr "banner")]]);
            ("property_sets",
             PDict [("user_defined", PList [PDict [("name", PStr "ps1")]])])]
           [[PDict [("name", PStr "banner")]]; [PDict [("name", PStr "ps1")]]]).
  - now left.
  - repeat constructor.
  - repeat constructor; simpl; intuition discriminate.
Defined.

(** The rename law for an object type whose objects are listed right
    under its key.  Two snapshots differ in the [name] of one
    object of type [t] (item [length l1] of its list) and in nothing
    else; names are unique within the list in both snapshots.  Then,
    however DeepDiff reports the rename, [process_diff] returns a single
    bucket for [t] that holds the old object once under [removed], the
    new object once under [added], and nothing under [changed]. *)
Theorem rename_diff_law (p : pairing) (pf : list (string * value))
  (t : string) (l1 l2 : list value) (o : list (string * value))
  (old new : string) :
  lacks "[" t = true -> lacks "'" t = true ->
  dict_get pf t = Some (PList (l1 ++ PDict o :: l2)) ->
  dict_get o "name" = Some (PStr old) ->
  unique_names (l1 ++ PDict o :: l2) ->
  unique_names (l1 ++ PDict (dict_set o "name" (PStr new)) :: l2) ->
  process_diff
    (PDict pf)
    (PDict (dict_set pf t (PList (l1 ++ PDict (dict_set o "name" (PStr new)) :: l2))))
    None
    (rename_report p t (List.length l1) old new
       (PDict o) (PDict (dict_set o "name" (PStr new))))
  = [(t, {| added := [PDict (dict_set o "name" (PStr new))];
            changed := [];
            removed := [PDict o] |})].
Proof.
  intros Hb Hq Hpf Ho Hu Hu'.
  set (o' := dict_set o "name" (PStr new)) in *.
  assert (Ho' : dict_get o' "name" = Some (PStr new)) by apply dict_get_set_same.
  assert (Hitem : apstra_object_of (item_path t (List.length l1)) = Some t).
  { rewrite item_path_shape. now apply apstra_object_of_path. }
  assert (Htt : String.eqb t t = true) by apply String.eqb_refl.
  unfold process_diff. destruct p; cbn [rename_report foldM type_step].
  - (* the old and the new item were paired *)
    replace (mem "values_changed" (added_types ++ changed_types ++ removed_types))
      with true by reflexivity.
    cbn [foldM dict_step String.eqb Ascii.eqb Bool.eqb andb bind].
    rewrite name_path_not_root. cbn [andb].
    assert (Hname : apstra_object_of (name_path t (List.length l1)) = Some t).
    { rewrite name_path_shape. now apply apstra_object_of_path. }
    rewrite Hname. cbn [bind].
    replace (mem "values_changed" changed_types) with true by reflexivity.
    destruct (after_root ("['" ++ t ++ "']" ++ ("[" ++ of_nat (List.length l1) ++ "]['name']"))%string)
      as (piece & Hpiece).
    rewrite name_path_shape at 1.
    change ("root['" ++ t ++ "']" ++ "[" ++ of_nat (List.length l1) ++ "]['name']")%string
      with ("root" ++ ("['" ++ t ++ "']" ++ ("[" ++ of_nat (List.length l1) ++ "]['name']")))%string.
    rewrite Hpiece. cbn [bind].
    rewrite changed_attribute_of_name_path.
    replace (String.eqb "'name'" "'name'") with true by reflexivity.
    replace (get_or _ "old_value" (PStr "")) with (PStr old) by reflexivity.
    replace (get_or _ "new_value" (PStr "")) with (PStr new) by reflexivity.
    unfold find_nested_dict_entry, get_or.
    rewrite Hpf, dict_get_set_same.
    rewrite (find_in_list_unique l1 l2 o old Ho Hu).
    rewrite (find_in_list_unique l1 l2 o' new Ho' Hu').
    assert (To : truthy (PDict o) = true) by (destruct o; [discriminate | reflexivity]).
    assert (To' : truthy (PDict o') = true) by (destruct o'; [discriminate | reflexivity]).
    rewrite To, To'. cbn [andb fst].
    unfold ensure, extend_added, extend_removed, update.
    cbn. rewrite Htt. cbn. now rewrite Htt.
  - (* the new item is reported as added, then the old one as removed *)
    replace (mem "iterable_item_added" (added_types ++ changed_types ++ removed_types))
      with true by reflexivity.
    replace (mem "iterable_item_removed" (added_types ++ changed_types ++ removed_types))
      with true by reflexivity.
    cbn [foldM dict_step String.eqb Ascii.eqb Bool.eqb andb bind].
    rewrite Hitem. cbn [bind].
    replace (mem "iterable_item_added" changed_types) with false by reflexivity.
    replace (mem "iterable_item_added" added_types) with true by reflexivity.
    replace (mem "iterable_item_removed" changed_types) with false by reflexivity.
    replace (mem "iterable_item_removed" added_types) with false by reflexivity.
    replace (mem "iterable_item_removed" removed_types) with true by reflexivity.
    unfold ensure, extend_added, extend_removed, update.
    cbn. rewrite Htt. cbn. unfold dict_has. cbn. rewrite Htt. cbn.
    now rewrite Htt.
  - (* the old item is reported as removed, then the new one as added *)
    replace (mem "iterable_item_added" (added_types ++ changed_types ++ removed_types))
      with true by reflexivity.
    replace (mem "iterable_item_removed" (added_types ++ changed_types ++ removed_types))
      with true by reflexivity.
    cbn [foldM dict_step String.eqb Ascii.eqb Bool.eqb andb bind].
    rewrite Hitem. cbn [bind].
    replace (mem "iterable_item_added" changed_types) with false by reflexivity.
    replace (mem "iterable_item_added" added_types) with true by reflexivity.
    replace (mem "iterable_item_removed" changed_types) with false by reflexivity.
    replace (mem "iterable_item_removed" added_types) with false by reflexivity.
    replace (mem "iterable_item_removed" removed_types) with true by reflexivity.
    unfold ensure, extend_added, extend_removed, update.
    cbn. rewrite Htt. cbn. unfold dict_has. cbn. rewrite Htt. cbn.
    now rewrite Htt.
Qed.

(** Scenario C of the specification: configlet ["A"] becomes ["B"]. *)
Lemma rename_diff_law_witness :
  process_diff
    (PDict [("configlets",
             PList [PDict [("name", PStr "C")];
                    PDict [("name", PStr "A"); ("style", PStr "junos")]])])
    (PDict [("configlets",
             PList [PDict [("name", PStr "C")];
                    PDict [("name", PStr "B"); ("style", PStr "junos")]])])
    None
    (rename_report Paired "configlets" 1 "A" "B"
       (PDict [("name", PStr "A"); ("style", PStr "junos")])
       (PDict [("name", PStr "B"); ("style", PStr "junos")]))
  = [("configlets",
      {| added := [PDict [("name", PStr "B"); ("style", PStr "junos")]];
         changed := [];
         removed := [PDict [("name", PStr "A"); ("style", PStr "junos")]] |})].
Proof.
  apply (rename_diff_law Paired
           [("configlets",
             PList [PDict [("name", PStr "C")];
                    PDict [("name", PStr "A"); ("style", PStr "junos")]])]
           "configlets" [PDict [("name", PStr "C")]] []
           [("name", PStr "A"); ("style", PStr "junos")] "A" "B").
  - reflexivity.
  - reflexivity.
  - reflexivity.
  - reflexivity.
  - exists ["C"; "A"]. split; [reflexivity|].
    repeat constructor; simpl; intuition discriminate.
  - exists ["C"; "B"]. split; [reflexivity|].
    repeat constructor; simpl; intuition discriminate.
Defined.

(** *** A rename below [user_defined] *)

(** An object type whose objects are listed under the key
    [user_defined], the shape that the branch of the first execution
    takes the objects from.  The one configlet is renamed, and DeepDiff
    pairs the old item with the new one. *)
Definition user_defined_snapshot (name : string) : value :=
  PDict [("configlets",
          PDict [("user_defined",
                  PList [PDict [("name", PStr name);
                                ("config_style", PStr "junos");
                                ("section", PStr "system");
                                ("template_text", PStr "set system login message hello")]])])].

Definition user_defined_rename_report : report :=
  [("values_changed",
    AsDict [("root['configlets']['user_defined'][0]['name']",
             PDict [("new_value", PStr "leaf_motd");
                    ("old_value", PStr "leaf_banner")])])].

(** C1.  On that rename [find_nested_dict_entry] looks for the old and
    the new object in what the key [configlets] holds, which is a
    dictionary, not the list of objects: it finds neither, and
    [process_diff] returns the bucket of [configlets] with nothing under
    [removed], nothing under [added] and nothing under [changed]. *)
Theorem rename_under_user_defined_is_lost :
  find_nested_dict_entry (user_defined_snapshot "leaf_banner") "configlets"
    "name" (PStr "leaf_banner") = PNone
  /\ find_nested_dict_entry (user_defined_snapshot "leaf_motd") "configlets"
       "name" (PStr "leaf_motd") = PNone
  /\ process_diff
       (user_defined_snapshot "leaf_banner")
       (user_defined_snapshot "leaf_motd")
       None
       user_defined_rename_report
     = [("configlets", {| added := []; changed := []; removed := [] |})].
Proof. repeat split. Qed.

(** The same objects on the first execution: the branch for an absent
    previous snapshot does take them from below [user_defined]. *)
Example first_execution_reads_user_defined :
  process_diff PNone (user_defined_snapshot "leaf_motd") None
    (first_execution_report (user_defined_snapshot "leaf_motd"))
  = [("configlets",
      only_added
        [PDict [("name", PStr "leaf_motd");
                ("config_style", PStr "junos");
                ("section", PStr "system");
                ("template_text", PStr "set system login message hello")]])].
Proof. reflexivity. Qed.

(** A change of another attribute is recorded under [changed], tagged
    with the object's name; on a renamed object it is left out. *)
Example changed_entry_is_tagged :
  process_diff
    (PDict [("configlets", PList [PDict [("name", PStr "A"); ("style", PStr "junos")]])])
    (PDict [("configlets", PList [PDict [("name", PStr "A"); ("style", PStr "eos")]])])
    None
    [("values_changed",
      AsDict [("root['configlets'][0]['style']",
               PDict [("new_value", PStr "eos"); ("old_value", PStr "junos")])])]
  = [("configlets",
      {| added := [];
         changed := [PDict [("name", PStr "A"); ("new_value", PStr "eos");
                            ("old_value", PStr "junos")]];
         removed := [] |})].
Proof. reflexivity. Qed.

Example change_on_renamed_object_is_dropped :
  process_diff
    (PDict [("configlets", PList [PDict [("name", PStr "A"); ("style", PStr "junos")]])])
    (PDict [("configlets", PList [PDict [("name", PStr "B"); ("style", PStr "eos")]])])
    None
    [("values_changed",
      AsDict [("root['configlets'][0]['name']",
               PDict [("new_value", PStr "B"); ("old_value", PStr "A")]);
              ("root['configlets'][0]['style']",
               PDict [("new_value", PStr "eos"); ("old_value", PStr "junos")])])]
  = [("configlets",
      {| added := [PDict [("name", PStr "B"); ("style", PStr "eos")]];
         changed := [];
         removed := [PDict [("name", PStr "A"); ("style", PStr "junos")]] |})].
Proof. reflexivity. Qed.

End DiffLaws.

(* ------------------------------------------------------------------ *)
(** ** Execution history and rollback candidates *)
(* ------------------------------------------------------------------ *)

Module History.

(** One [execution_data.yml], as loaded: its fields by name. *)
Definition execution : Type := list (string * string).

(** [execution.get('execution_id', '')], the sort key. *)
Definition id_key (e : execution) : string :=
  match Py.dict_get e "execution_id" with
  | Some i => i
  | None => ""
  end.

Definition list_successful_exit_codes : list string :=
  ["USER_TF_EXEC_COMMIT"; "USER_TF_EXEC_DESTROY"].

(** [sorted(l, key=id_key, reverse=True)] and
    [l.sort(key=id_key, reverse=True)]: Python's sort is stable, also
    when reversed, so the result is the one a stable insertion sort by
    descending key gives. *)
Fixpoint insert_desc (x : execution) (l : list execution) : list execution :=
  match l with
  | [] => [x]
  | y :: l' =>
      if String.leb (id_key y) (id_key x) then x :: l
      else y :: insert_desc x l'
  end.

Definition sorted_desc (l : list execution) : list execution :=
  fold_right insert_desc [] l.

(** [generate_execution_history], from the data files found under the
    project's [executions] directory (in the order [os.listdir] gives
    them): files without an [execution_id] are skipped. *)
Definition generate_execution_history (loaded : list execution)
  : list execution :=
  sorted_desc (filter (fun e => Py.dict_has e "execution_id") loaded).

(** [get_project_execution_history]: [None] when there is no history. *)
Definition get_project_execution_history (loaded : list execution)
  : option (list execution) :=
  match generate_execution_history loaded with
  | [] => None
  | h => Some h
  end.

(** The filter of [get_project_rollback_history]. *)
Definition rollback_candidate (current_id : string) (e : execution) : bool :=
  match Py.dict_get e "exit_code" with
  | Some c => existsb (String.eqb c) list_successful_exit_codes
  | None => false
  end
  && negb (match Py.dict_get e "execution_id" with
           | Some i => String.eqb i current_id
           | None => false
           end).

(** [get_project_rollback_history]: the value it stores in
    [project_execution_history_for_rollback], given
    [project_execution_history] and [execution_id]. *)
Definition get_project_rollback_history
  (project_execution_history : option (list execution))
  (execution_id : string) : list execution :=
  match project_execution_history with
  | None | Some [] => []
  | Some h => sorted_desc (filter (rollback_candidate execution_id) h)
  end.

(** *** Sorting *)

Lemma ascii_compare_trans_le (x y z : ascii) :
  Ascii.compare x y <> Gt -> Ascii.compare y z <> Gt -> Ascii.compare x z <> Gt.
Proof.
  unfold Ascii.compare. rewrite !N.compare_gt_iff. lia.
Qed.

Lemma leb_trans (a : string) : forall b c,
  String.leb a b = true -> String.leb b c = true -> String.leb a c = true.
Proof.
  unfold String.leb.
  induction a as [|x a IH]; intros [|y b] [|z c]; simpl; try easy.
  unfold Ascii.compare.
  destruct (N.compare_spec (N_of_ascii x) (N_of_ascii y)) as [Exy|Lxy|Gxy];
    destruct (N.compare_spec (N_of_ascii y) (N_of_ascii z)) as [Eyz|Lyz|Gyz];
    destruct (N.compare_spec (N_of_ascii x) (N_of_ascii z)) as [Exz|Lxz|Gxz];
    try easy; try lia.
  apply IH.
Qed.

Lemma insert_desc_perm (x : execution) (l : list execution) :
  Permutation (insert_desc x l) (x :: l).
Proof.
  induction l as [|y l IH]; simpl; [reflexivity|].
  destruct (String.leb (id_key y) (id_key x)); [reflexivity|].
  rewrite IH. apply perm_swap.
Qed.

Lemma sorted_desc_perm (l : list execution) : Permutation (sorted_desc l) l.
Proof.
  induction l as [|x l IH]; simpl; [reflexivity|].
  now rewrite insert_desc_perm, IH.
Qed.

(** [a] comes before [b] in a list sorted by descending id. *)
Definition desc (a b : execution) : Prop :=
  String.leb (id_key b) (id_key a) = true.

Lemma insert_desc_sorted (x : execution) (l : list execution) :
  StronglySorted desc l -> StronglySorted desc (insert_desc x l).
Proof.
  induction 1 as [|y l Hl IH Hy]; simpl.
  - constructor; constructor.
  - destruct (String.leb (id_key y) (id_key x)) eqn:E.
    + constructor; [now constructor|].
      constructor; [exact E|].
      eapply Forall_impl; [|exact Hy]. intros z Hz. unfold desc in *.
      now apply (leb_trans _ (id_key y)).
    + constructor; [exact IH|].
      apply (Permutation_Forall (Permutation_sym (insert_desc_perm x l))).
      constructor; [|exact Hy]. unfold desc.
      destruct (String.leb_total (id_key x) (id_key y)) as [H|H]; [exact H|].
      congruence.
Qed.

Lemma sorted_desc_sorted (l : list execution) : StronglySorted desc (sorted_desc l).
Proof.
  induction l as [|x l IH]; simpl; [constructor | now apply insert_desc_sorted].
Qed.

(** *** The candidates, record by record *)

(** A safe rollback target, as the specification has it: an exit code
    of the successful set, and an id other than the current
    execution's. *)
Definition safe_target (current_id : string) (e : execution) : Prop :=
  (exists c, Py.dict_get e "exit_code" = Some c
             /\ In c list_successful_exit_codes)
  /\ Py.dict_get e "execution_id" <> Some current_id.

(** The records of a history, none when there is no history. *)
Definition records (history : option (list execution)) : list execution :=
  match history with
  | Some h => h
  | None => []
  end.

Lemma execution_eq_dec (a b : execution) : {a = b} + {a <> b}.
Proof. apply list_eq_dec. intros x y. decide equality; apply string_dec. Defined.

Lemma rollback_candidate_safe_target (current_id : string) (e : execution) :
  rollback_candidate current_id e = true <-> safe_target current_id e.
Proof.
  unfold rollback_candidate, safe_target. rewrite andb_true_iff. split.
  - intros [Hc Hi]. split.
    + destruct (Py.dict_get e "exit_code") as [c|]; [|discriminate].
      exists c. split; [reflexivity|].
      apply existsb_exists in Hc as (c' & Hin & Heq).
      apply String.eqb_eq in Heq. now subst.
    + destruct (Py.dict_get e "execution_id") as [i|]; [|discriminate].
      intros [= ->]. now rewrite String.eqb_refl in Hi.
  - intros [(c & -> & Hin) Hi]. split.
    + apply existsb_exists. exists c. split; [exact Hin | apply String.eqb_refl].
    + destruct (Py.dict_get e "execution_id") as [i|]; [|reflexivity].
      destruct (String.eqb_spec i current_id) as [->|]; [now elim Hi | reflexivity].
Qed.

Lemma count_occ_filter (f : execution -> bool) (l : list execution)
  (e : execution) :
  count_occ execution_eq_dec (filter f l) e
  = if f e then count_occ execution_eq_dec l e else 0.
Proof.
  induction l as [|x l IH]; cbn [filter]; [now destruct (f e)|].
  destruct (f x) eqn:Fx; cbn [count_occ];
    destruct (execution_eq_dec x e) as [->|N]; rewrite IH.
  - now rewrite Fx.
  - reflexivity.
  - now rewrite Fx.
  - reflexivity.
Qed.

Lemma candidates_perm (history : option (list execution)) (current_id : string) :
  Permutation (get_project_rollback_history history current_id)
    (filter (rollback_candidate current_id) (records history)).
Proof.
  destruct history as [[|e h]|]; simpl; try reflexivity.
  apply (sorted_desc_perm (filter (rollback_candidate current_id) (e :: h))).
Qed.

(** C8.  The rollback-candidate list holds exactly the history records
    with an exit code of the successful set and an id other than the
    current execution's: such a record is in the list as many times as
    in the history, any other record is not in it at all; and the list
    is sorted by [execution_id] in descending order. *)
Theorem rollback_candidates_exact
  (history : option (list execution)) (current_id : string) :
  (forall e,
     In e (get_project_rollback_history history current_id)
     <-> In e (records history) /\ safe_target current_id e)
  /\ (forall e,
        safe_target current_id e ->
        count_occ execution_eq_dec
          (get_project_rollback_history history current_id) e
        = count_occ execution_eq_dec (records history) e)
  /\ (forall e,
        ~ safe_target current_id e ->
        count_occ execution_eq_dec
          (get_project_rollback_history history current_id) e = 0)
  /\ StronglySorted desc (get_project_rollback_history history current_id).
Proof.
  pose proof (candidates_perm history current_id) as P.
  assert (C : forall e,
             count_occ execution_eq_dec
               (get_project_rollback_history history current_id) e
             = if rollback_candidate current_id e
               then count_occ execution_eq_dec (records history) e else 0).
  { intros e. rewrite <- count_occ_filter.
    now apply (Permutation_count_occ execution_eq_dec). }
  split; [|split; [|split]].
  - intros e. rewrite <- rollback_candidate_safe_target, <- filter_In. split.
    + apply (Permutation_in e P).
    + apply (Permutation_in e (Permutation_sym P)).
  - intros e H. apply rollback_candidate_safe_target in H. now rewrite C, H.
  - intros e H. rewrite C.
    destruct (rollback_candidate current_id e) eqn:R; [|reflexivity].
    now apply rollback_candidate_safe_target in R.
  - destruct history as [[|e h]|]; simpl; try constructor.
    apply (sorted_desc_sorted (filter (rollback_candidate current_id) (e :: h))).
Qed.

(** A history of four executions, the current one among them. *)
Definition sample_history : list execution :=
  [[("execution_id", "apaf_id_30"); ("exit_code", "USER_TF_EXEC_COMMIT")];
   [("execution_id", "apaf_id_20"); ("exit_code", "TF_PLAN_NO_CHANGES_POST_ROLLBACK")];
   [("execution_id", "apaf_id_10"); ("exit_code", "USER_TF_EXEC_DESTROY")];
   [("execution_id", "apaf_id_40"); ("exit_code", "USER_TF_EXEC_COMMIT")]].

Lemma rollback_candidates_exact_witness :
  In [("execution_id", "apaf_id_10"); ("exit_code", "USER_TF_EXEC_DESTROY")]
    (get_project_rollback_history (Some sample_history) "apaf_id_30")
  /\ count_occ execution_eq_dec
       (get_project_rollback_history (Some sample_history) "apaf_id_30")
       [("execution_id", "apaf_id_30"); ("exit_code", "USER_TF_EXEC_COMMIT")]
     = 0.
Proof.
  destruct (rollback_candidates_exact (Some sample_history) "apaf_id_30")
    as (I & _ & Z & _).
  split.
  - apply I. split; [right; right; now left|].
    split; [|discriminate].
    exists "USER_TF_EXEC_DESTROY". split; [reflexivity | right; now left].
  - apply Z. intros [_ H]. now apply H.
Defined.

Example rollback_candidates_sample :
  get_project_rollback_history (Some sample_history) "apaf_id_30"
  = [[("execution_id", "apaf_id_40"); ("exit_code", "USER_TF_EXEC_COMMIT")];
     [("execution_id", "apaf_id_10"); ("exit_code", "USER_TF_EXEC_DESTROY")]].
Proof. reflexivity. Qed.

End History.

(* ------------------------------------------------------------------ *)
(** ** Rollback cleanup of added objects: [remove_non_bp_added] *)
(* ------------------------------------------------------------------ *)

Module Cleanup.
Import Py.

(** The object types with a typed lookup and delete call. *)
Inductive kind : Type :=
| Template | RackType | LogicalDevice | InterfaceMap | Configlet
| PropertySet | IpPool | Ipv6Pool | VniPool | AsnPool.

(** The remote calls the cleanup issues: [get_<kind>_id(name)] lists the
    objects of the kind, [delete_<kind>(id)] sends the DELETE. *)
Inductive api_call : Type :=
| GetId (k : kind) (name : value)
| Delete (k : kind) (id : option string).

(** The calls issued by a piece of code, and whether it went on to its
    end ([false]: an exception left it). *)
Definition run : Type := list api_call * bool.

Definition and_then (a b : run) : run :=
  if snd a then (fst a ++ fst b, snd b) else a.

Fixpoint for_each {A : Type} (body : A -> run) (l : list A) : run :=
  match l with
  | [] => ([], true)
  | x :: l' => and_then (body x) (for_each body l')
  end.

(** [menu -> object type -> {added, changed, removed}], as
    [get_non_bp_changes] returns it. *)
Definition input_diff : Type := list (string * Diff.results).

Section RemoveNonBpAdded.

(** What the controller answers to a lookup by display name: the id,
    or [None]. *)
Variable lookup : kind -> value -> option string.

(** [<kind>_id = get_<kind>_id(name)] followed by [delete_<kind>(id)].
    The delete helpers catch their request errors and return a flag
    that only decides a log line. *)
Definition delete_by_name (k : kind) (name : value) : run :=
  ([GetId k name; Delete k (lookup k name)], true).

(** First loop: the names of the added interface maps.  [added.get]
    on an item that is not a dictionary raises, which ends the whole
    function in its handler. *)
Definition collect_item (menu apstra_object : string)
  (acc : list value) (item : value) : exc (list value) :=
  match item with
  | PDict d =>
      let added_name := get_or d "name" PNone in
      if truthy added_name
         && String.eqb menu "design"
         && String.eqb apstra_object "interface_maps"
      then Some (acc ++ [added_name])
      else Some acc
  | _ => None
  end.

Definition collect_object (menu : string) (acc : list value)
  (ob : string * Diff.bucket) : exc (list value) :=
  Diff.foldM (collect_item menu (fst ob)) (Diff.added (snd ob)) acc.

Definition collect_menu (acc : list value) (mo : string * Diff.results)
  : exc (list value) :=
  Diff.foldM (collect_object (fst mo)) (snd mo) acc.

Definition interface_maps_to_remove (d : input_diff) : exc (list value) :=
  Diff.foldM collect_menu d [].

(** Second loop, one added item. *)
Definition remove_added (menu apstra_object : string) (item : value) : run :=
  match item with
  | PDict d =>
      let added_name := get_or d "name" PNone in
      if truthy added_name then
        if String.eqb menu "design" then
          if String.eqb apstra_object "templates"
          then delete_by_name Template added_name
          else if String.eqb apstra_object "racks"
          then delete_by_name RackType added_name
          else if String.eqb apstra_object "logical_devices"
          then delete_by_name LogicalDevice added_name
          else if String.eqb apstra_object "configlets"
          then delete_by_name Configlet added_name
          else if String.eqb apstra_object "property_sets"
          then delete_by_name PropertySet added_name
          else ([], true)
        else if String.eqb menu "resources" then
          if String.eqb apstra_object "ipv4_pools"
          then delete_by_name IpPool added_name
          else if String.eqb apstra_object "ipv6_pools"
          then ([GetId Ipv6Pool added_name], false)
               (* [delete_ipv6_pool] is not defined: NameError *)
          else if String.eqb apstra_object "vni_pools"
          then delete_by_name VniPool added_name
          else if String.eqb apstra_object "asn_pools"
          then delete_by_name AsnPool added_name
          else ([], true)
        else ([], true)
      else ([], true)
  | _ => ([], false)
  end.

(** [[d["name"] for d in changed_list if "name" in d]]: [None] when
    the comprehension raises. *)
Fixpoint changed_names (l : list value) : exc (list value) :=
  match l with
  | [] => Some []
  | PDict d :: l' =>
      rest <- changed_names l' ;;
      Some (match dict_get d "name" with
            | Some n => n :: rest
            | None => rest
            end)
  | PList items :: l' =>
      if existsb (eqb (PStr "name")) items then None else changed_names l'
  | PStr s :: l' =>
      match PyStr.find "name" s with
      | Some _ => None
      | None => changed_names l'
      end
  | _ :: _ => None
  end%exc.

Definition remove_object (menu : string) (ob : string * Diff.bucket) : run :=
  let '(apstra_object, change_types) := ob in
  match Diff.added change_types with
  | _ :: _ => for_each (remove_added menu apstra_object) (Diff.added change_types)
  | [] =>
      match Diff.changed change_types with
      | _ :: _ =>
          if String.eqb apstra_object "configlet_contents" then
            match changed_names (Diff.changed change_types) with
            | Some names => for_each (delete_by_name Configlet) names
            | None => ([], false)
            end
          else ([], true)
      | [] => ([], true)
      end
  end.

Definition remove_menu (mo : string * Diff.results) : run :=
  for_each (remove_object (fst mo)) (snd mo).

(** [remove_non_bp_added]: the remote calls it issues, in order. *)
Definition remove_non_bp_added (d : input_diff) : list api_call :=
  match interface_maps_to_remove d with
  | None => []
  | Some names =>
      fst (and_then (for_each (delete_by_name InterfaceMap) names)
                    (for_each remove_menu d))
  end.

End RemoveNonBpAdded.

(** *** Ordering of the deletes *)

Definition is_delete_of (k : kind) (c : api_call) : Prop :=
  exists id, c = Delete k id.

Lemma for_each_Forall {A : Type} (P : api_call -> Prop) (body : A -> run)
  (l : list A) :
  (forall x, Forall P (fst (body x))) -> Forall P (fst (for_each body l)).
Proof.
  intros H. induction l as [|x l IH]; simpl; [constructor|].
  unfold and_then. destruct (snd (body x)); simpl; [|apply H].
  apply Forall_app. split; [apply H | exact IH].
Qed.

Lemma delete_by_name_kind (lookup : kind -> value -> option string)
  (k k' : kind) (n : value) :
  k <> k' -> Forall (fun c => ~ is_delete_of k' c) (fst (delete_by_name lookup k n)).
Proof.
  intros N. simpl. repeat constructor; intros (id & E); congruence.
Qed.

Lemma second_loop_spares_interface_maps
  (lookup : kind -> value -> option string) (d : input_diff) :
  Forall (fun c => ~ is_delete_of InterfaceMap c)
         (fst (for_each (remove_menu lookup) d)).
Proof.
  apply for_each_Forall. intros [menu objs]. unfold remove_menu.
  apply for_each_Forall. intros [ob b]. unfold remove_object. simpl.
  destruct (Diff.added b) as [|a l] eqn:Ea.
  - destruct (Diff.changed b) as [|c l']; [constructor|].
    destruct (String.eqb ob "configlet_contents"); [|constructor].
    destruct (changed_names (c :: l')); [|constructor].
    apply for_each_Forall. intros n.
    apply delete_by_name_kind. discriminate.
  - apply for_each_Forall. intros item. unfold remove_added.
    destruct item; try constructor.
    repeat match goal with
           | |- context [if ?b then _ else _] => destruct b
           end;
      try (apply delete_by_name_kind; discriminate);
      simpl; repeat (constructor; [intros (id & E); discriminate|]);
      constructor.
Qed.

(** C7.  In the calls [remove_non_bp_added] issues, every delete of an
    interface map comes before every delete of a logical device. *)
Theorem interface_maps_deleted_first
  (lookup : kind -> value -> option string) (d : input_diff)
  (i j : nat) (ci cj : api_call) :
  nth_error (remove_non_bp_added lookup d) i = Some ci ->
  nth_error (remove_non_bp_added lookup d) j = Some cj ->
  is_delete_of InterfaceMap ci ->
  is_delete_of LogicalDevice cj ->
  i < j.
Proof.
  unfold remove_non_bp_added.
  destruct (interface_maps_to_remove d) as [names|];
    [|intros H; now destruct i].
  set (first := for_each (delete_by_name lookup InterfaceMap) names).
  assert (Hfirst : Forall (fun c => ~ is_delete_of LogicalDevice c) (fst first)).
  { apply for_each_Forall. intros n. apply delete_by_name_kind. discriminate. }
  assert (Hsecond := second_loop_spares_interface_maps lookup d).
  unfold and_then. destruct (snd first); cbn [fst].
  - intros Hi Hj Im Ld.
    destruct (Nat.lt_ge_cases i (List.length (fst first))) as [Li|Gi].
    + destruct (Nat.lt_ge_cases j (List.length (fst first))) as [Lj|Gj]; [|lia].
      rewrite nth_error_app1 in Hj by exact Lj.
      apply nth_error_In in Hj.
      rewrite Forall_forall in Hfirst. now elim (Hfirst cj Hj).
    + rewrite nth_error_app2 in Hi by exact Gi.
      apply nth_error_In in Hi.
      rewrite Forall_forall in Hsecond. now elim (Hsecond ci Hi).
  - intros _ Hj _ Ld. apply nth_error_In in Hj.
    rewrite Forall_forall in Hfirst. now elim (Hfirst cj Hj).
Qed.

(** A diff that lists the added logical device before the added
    interface map: the interface map is deleted first all the same. *)
Definition sample_lookup (k : kind) (name : value) : option string :=
  match name with
  | PStr s => Some ("id-" ++ s)%string
  | _ => None
  end.

Definition sample_diff : input_diff :=
  [("design",
    [("logical_devices",
      {| Diff.added := [PDict [("name", PStr "ld1")]];
         Diff.changed := []; Diff.removed := [] |});
     ("interface_maps",
      {| Diff.added := [PDict [("name", PStr "im1")]];
         Diff.changed := []; Diff.removed := [] |})])].

Lemma interface_maps_deleted_first_witness :
  remove_non_bp_added sample_lookup sample_diff
  = [GetId InterfaceMap (PStr "im1"); Delete InterfaceMap (Some "id-im1");
     GetId LogicalDevice (PStr "ld1"); Delete LogicalDevice (Some "id-ld1")]
  /\ 1 < 3.
Proof.
  split; [reflexivity|].
  apply (interface_maps_deleted_first sample_lookup sample_diff 1 3
           (Delete InterfaceMap (Some "id-im1"))
           (Delete LogicalDevice (Some "id-ld1"))).
  - reflexivity.
  - reflexivity.
  - now exists (Some "id-im1").
  - now exists (Some "id-ld1").
Defined.

End Cleanup.

(* ------------------------------------------------------------------ *)
(** ** Retry and poll: [deploy_bp], [revert_bp], [delete_bp] *)
(* ------------------------------------------------------------------ *)

Module Poll.
Local Open Scope Z_scope.

(** The controller is modelled by the status codes it answers to the
    requests that an operation sends to its own URL in the retry loop
    and the poll loop, one per request, in order; a request that finds
    none fails in the HTTP library, which raises.  The requests made
    before the retry loop (the lookup of the blueprint id, the login)
    and after it (deploy status, revisions) are not part of the
    model. *)
Definition responses : Type := list Z.

(** [response.raise_for_status()] raises [HTTPError] on 4xx and 5xx. *)
Definition raises_for_status (status : Z) : bool :=
  (400 <=? status) && (status <? 600).

(** The body of a [for] loop either goes on to the next round or
    leaves the loop ([break], [return] or [raise]) with a result. *)
Inductive step (R : Type) : Type :=
| Continue
| Leave (r : R).
Arguments Continue {R}.
Arguments Leave {R} r.

(** [for attempt in range(1, n + 1): body]: [None] when the loop ran
    out of rounds. *)
Fixpoint for_range {R : Type} (n : nat)
  (body : responses -> step R * responses) (rs : responses)
  : option R * responses :=
  match n with
  | O => (None, rs)
  | S n' =>
      match body rs with
      | (Leave r, rs') => (Some r, rs')
      | (Continue, rs') => for_range n' body rs'
      end
  end.

(** Why an operation failed. *)
Inductive failure : Type :=
| PollingLimit        (* the poll loop ran out of attempts *)
| MaxRetries          (* the initial request was never accepted *)
| HttpError (status : Z)
| RequestError        (* the HTTP library raised *)
| UnboundPollResponse (* [revert_bp] reads [poll_response] before any poll *).

Definition max_retries : nat := 3.
Definition max_poll_attempts : nat := 10.

(** *** [deploy_bp], up to the post-commit block *)

(** What ends the poll loop of [deploy_bp]: [commit_completed = True]
    and [break], or an exception. *)
Inductive poll_end : Type :=
| Completed
| Raised (f : failure).

Definition deploy_poll_body (rs : responses) : step poll_end * responses :=
  match rs with
  | [] => (Leave (Raised RequestError), [])
  | status :: rs' =>
      if status =? 202 then (Leave Completed, rs')
      else if status =? 409 then (Continue, rs')
      else if raises_for_status status then (Leave (Raised (HttpError status)), rs')
      else (Continue, rs')
  end.

(** The outcome of [deploy_bp]: either the commit completed, and the
    post-commit block runs, or an exception reached the handler, which
    logs the error. *)
Inductive deploy_outcome : Type :=
| CommitCompleted
| DeployFailed (f : failure).

Definition deploy_attempt_body (rs : responses)
  : step deploy_outcome * responses :=
  match rs with
  | [] => (Leave (DeployFailed RequestError), [])
  | status :: rs' =>
      if status =? 202 then
        match for_range max_poll_attempts deploy_poll_body rs' with
        | (Some Completed, rs'') => (Leave CommitCompleted, rs'')
        | (Some (Raised f), rs'') => (Leave (DeployFailed f), rs'')
        | (None, rs'') => (Leave (DeployFailed PollingLimit), rs'')
        end
      else if status =? 409 then (Continue, rs')
      else if raises_for_status status
      then (Leave (DeployFailed (HttpError status)), rs')
      else (Continue, rs')
  end.

Definition deploy_bp (rs : responses) : deploy_outcome * responses :=
  match for_range max_retries deploy_attempt_body rs with
  | (Some o, rs') => (o, rs')
  | (None, rs') => (DeployFailed MaxRetries, rs')
  end.

(** *** [revert_bp]: the status code it returns *)

Definition revert_poll_body (rs : responses) : step (Z + failure) * responses :=
  match rs with
  | [] => (Leave (inr RequestError), [])
  | status :: rs' =>
      if status =? 202 then (Leave (inl 202), rs')
      else if status =? 409 then (Continue, rs')
      else (Leave (inl status), rs')
  end.

Definition revert_attempt_body (rs : responses) : step (Z + failure) * responses :=
  match rs with
  | [] => (Leave (inr RequestError), [])
  | status :: rs' =>
      if status =? 202 then
        match for_range max_poll_attempts revert_poll_body rs' with
        | (Some r, rs'') => (Leave r, rs'')
        | (None, rs'') => (Leave (inl 408), rs'')
        end
      else if status =? 409 then (Continue, rs')
      else (Leave (inr UnboundPollResponse), rs')
  end.

Definition revert_bp (rs : responses) : Z * responses :=
  match for_range max_retries revert_attempt_body rs with
  | (Some (inl status), rs') => (status, rs')
  | (Some (inr _), rs') => (500, rs')
  | (None, rs') => (409, rs')
  end.

(** *** [delete_bp]: [True], or [None] after the handler logged *)

Inductive delete_outcome : Type :=
| ReturnedTrue
| ReturnedNone (logged : failure).

Definition delete_poll_body (rs : responses) : step delete_outcome * responses :=
  match rs with
  | [] => (Leave (ReturnedNone RequestError), [])
  | status :: rs' =>
      if status =? 404 then (Leave ReturnedTrue, rs')
      else if (status =? 409) || (status =? 405) then (Continue, rs')
      else if raises_for_status status
      then (Leave (ReturnedNone (HttpError status)), rs')
      else (Continue, rs')
  end.

Definition delete_attempt_body (rs : responses)
  : step delete_outcome * responses :=
  match rs with
  | [] => (Leave (ReturnedNone RequestError), [])
  | status :: rs' =>
      if status =? 202 then
        match for_range max_poll_attempts delete_poll_body rs' with
        | (Some o, rs'') => (Leave o, rs'')
        | (None, rs'') => (Leave (ReturnedNone PollingLimit), rs'')
        end
      else if (status =? 409) || (status =? 405) then (Continue, rs')
      else if raises_for_status status
      then (Leave (ReturnedNone (HttpError status)), rs')
      else (Continue, rs')
  end.

Definition delete_bp (rs : responses) : delete_outcome * responses :=
  match for_range max_retries delete_attempt_body rs with
  | (Some o, rs') => (o, rs')
  | (None, rs') => (ReturnedNone MaxRetries, rs')
  end.

(** [delete_bps] takes a falsy result for a failure. *)
Definition delete_succeeded (o : delete_outcome) : bool :=
  match o with
  | ReturnedTrue => true
  | ReturnedNone _ => false
  end.

(** *** Exhausting the poll budget *)

Inductive operation : Type := Deploy | Revert | Delete.

(** The answers to an initial request after which the operation sends
    the initial request again. *)
Definition retried (op : operation) (status : Z) : bool :=
  match op with
  | Deploy =>
      negb (status =? 202)
      && ((status =? 409) || negb (raises_for_status status))
  | Revert => status =? 409
  | Delete =>
      negb (status =? 202)
      && ((status =? 409) || (status =? 405) || negb (raises_for_status status))
  end.

(** The answers to a poll that are no terminal signal: the loop sleeps
    (409, and 405 for a delete) or just goes on to its next round. *)
Definition keeps_polling (op : operation) (status : Z) : bool :=
  match op with
  | Deploy =>
      negb (status =? 202)
      && ((status =? 409) || negb (raises_for_status status))
  | Revert => status =? 409
  | Delete =>
      negb (status =? 404)
      && ((status =? 409) || (status =? 405) || negb (raises_for_status status))
  end.

Lemma for_range_continue {R : Type}
  (body : responses -> step R * responses) (l : responses) :
  (forall s, In s l -> forall rs, body (s :: rs) = (Continue, rs)) ->
  forall (k : nat) (rs : responses),
    for_range (List.length l + k) body (l ++ rs) = for_range k body rs.
Proof.
  induction l as [|s l IH]; intros H k rs; [reflexivity|].
  simpl. rewrite (H s (or_introl eq_refl)).
  apply IH. intros s' Hs'. apply H. now right.
Qed.

Lemma for_range_exhausted {R : Type}
  (body : responses -> step R * responses) (l rest : responses) :
  (forall s, In s l -> forall rs, body (s :: rs) = (Continue, rs)) ->
  for_range (List.length l) body (l ++ rest) = (None, rest).
Proof.
  intros H. rewrite <- (Nat.add_0_r (List.length l)).
  now rewrite (for_range_continue body l H 0%nat rest).
Qed.

Ltac split_tests :=
  repeat match goal with
         | H : (_ && _)%bool = true |- _ => apply andb_prop in H as [? ?]
         | H : negb _ = true |- _ => apply negb_true_iff in H
         end.

Lemma deploy_poll_continue (s : Z) (rs : responses) :
  keeps_polling Deploy s = true -> deploy_poll_body (s :: rs) = (Continue, rs).
Proof.
  simpl. intros H. split_tests. rewrite H.
  destruct (s =? 409); [reflexivity|]. simpl in *.
  apply negb_true_iff in H0. now rewrite H0.
Qed.

Lemma deploy_attempt_continue (s : Z) (rs : responses) :
  retried Deploy s = true -> deploy_attempt_body (s :: rs) = (Continue, rs).
Proof.
  simpl. intros H. split_tests. rewrite H.
  destruct (s =? 409); [reflexivity|]. simpl in *.
  apply negb_true_iff in H0. now rewrite H0.
Qed.

Lemma revert_poll_continue (s : Z) (rs : responses) :
  keeps_polling Revert s = true -> revert_poll_body (s :: rs) = (Continue, rs).
Proof.
  simpl. intros H. rewrite H. apply Z.eqb_eq in H. now subst.
Qed.

Lemma revert_attempt_continue (s : Z) (rs : responses) :
  retried Revert s = true -> revert_attempt_body (s :: rs) = (Continue, rs).
Proof.
  simpl. intros H. rewrite H. apply Z.eqb_eq in H. now subst.
Qed.

Lemma delete_poll_continue (s : Z) (rs : responses) :
  keeps_polling Delete s = true -> delete_poll_body (s :: rs) = (Continue, rs).
Proof.
  simpl. intros H. split_tests. rewrite H.
  destruct ((s =? 409) || (s =? 405))%bool; [reflexivity|]. simpl in *.
  apply negb_true_iff in H0. now rewrite H0.
Qed.

Lemma delete_attempt_continue (s : Z) (rs : responses) :
  retried Delete s = true -> delete_attempt_body (s :: rs) = (Continue, rs).
Proof.
  simpl. intros H. split_tests. rewrite H.
  destruct ((s =? 409) || (s =? 405))%bool; [reflexivity|]. simpl in *.
  apply negb_true_iff in H0. now rewrite H0.
Qed.

Lemma retries_left (pre : responses) :
  (List.length pre < max_retries)%nat ->
  exists k, max_retries = (List.length pre + S k)%nat.
Proof. intros H. exists (max_retries - List.length pre - 1)%nat. lia. Qed.

(** C4.  The initial request is accepted (202), possibly after retried
    attempts [pre], and then none of the ten polls brings a terminal
    signal.  Each operation reports a failure: [deploy_bp] raises the
    polling-limit exception, which its handler logs, and never reaches
    the post-commit block; [revert_bp] returns 408, not 202;
    [delete_bp] raises the polling-limit exception and returns [None],
    which [delete_bps] takes for a failure. *)
Theorem poll_exhaustion_is_failure (pre polls rest : responses) :
  (List.length pre < max_retries)%nat ->
  List.length polls = max_poll_attempts ->
  (Forall (fun s => retried Deploy s = true) pre ->
   Forall (fun s => keeps_polling Deploy s = true) polls ->
   deploy_bp (pre ++ 202 :: polls ++ rest) = (DeployFailed PollingLimit, rest))
  /\ (Forall (fun s => retried Revert s = true) pre ->
      Forall (fun s => keeps_polling Revert s = true) polls ->
      revert_bp (pre ++ 202 :: polls ++ rest) = (408, rest))
  /\ (Forall (fun s => retried Delete s = true) pre ->
      Forall (fun s => keeps_polling Delete s = true) polls ->
      delete_bp (pre ++ 202 :: polls ++ rest) = (ReturnedNone PollingLimit, rest)
      /\ delete_succeeded (ReturnedNone PollingLimit) = false).
Proof.
  intros Hpre Hpolls. destruct (retries_left pre Hpre) as (k & Ek).
  split; [|split].
  - intros Fpre Fpolls. unfold deploy_bp. rewrite Ek.
    rewrite (for_range_continue deploy_attempt_body pre).
    + cbn [for_range]. unfold deploy_attempt_body at 1. cbn [Z.eqb Pos.eqb].
      rewrite <- Hpolls, (for_range_exhausted deploy_poll_body polls rest);
        [reflexivity|].
      rewrite Forall_forall in Fpolls. intros s Hs rs.
      now apply deploy_poll_continue, Fpolls.
    + rewrite Forall_forall in Fpre. intros s Hs rs.
      now apply deploy_attempt_continue, Fpre.
  - intros Fpre Fpolls. unfold revert_bp. rewrite Ek.
    rewrite (for_range_continue revert_attempt_body pre).
    + cbn [for_range]. unfold revert_attempt_body at 1. cbn [Z.eqb Pos.eqb].
      rewrite <- Hpolls, (for_range_exhausted revert_poll_body polls rest);
        [reflexivity|].
      rewrite Forall_forall in Fpolls. intros s Hs rs.
      now apply revert_poll_continue, Fpolls.
    + rewrite Forall_forall in Fpre. intros s Hs rs.
      now apply revert_attempt_continue, Fpre.
  - intros Fpre Fpolls. split; [|reflexivity]. unfold delete_bp. rewrite Ek.
    rewrite (for_range_continue delete_attempt_body pre).
    + cbn [for_range]. unfold delete_attempt_body at 1. cbn [Z.eqb Pos.eqb].
      rewrite <- Hpolls, (for_range_exhausted delete_poll_body polls rest);
        [reflexivity|].
      rewrite Forall_forall in Fpolls. intros s Hs rs.
      now apply delete_poll_continue, Fpolls.
    + rewrite Forall_forall in Fpre. intros s Hs rs.
      now apply delete_attempt_continue, Fpre.
Qed.

(** One conflict, then the accepted request, then ten polls answered
    409. *)
Definition ten_conflicts : responses :=
  [409; 409; 409; 409; 409; 409; 409; 409; 409; 409].

Lemma poll_exhaustion_is_failure_witness :
  deploy_bp (409 :: 202 :: ten_conflicts ++ [202])
  = (DeployFailed PollingLimit, [202])
  /\ revert_bp (409 :: 202 :: ten_conflicts ++ [202]) = (408, [202])
  /\ delete_bp (409 :: 202 :: ten_conflicts ++ [404])
     = (ReturnedNone PollingLimit, [404]).
Proof.
  assert (Hpre : (List.length [409] < max_retries)%nat) by (cbv; lia).
  assert (Hpolls : List.length ten_conflicts = max_poll_attempts) by reflexivity.
  destruct (poll_exhaustion_is_failure [409] ten_conflicts [202] Hpre Hpolls)
    as (Hd & Hr & _).
  destruct (poll_exhaustion_is_failure [409] ten_conflicts [404] Hpre Hpolls)
    as (_ & _ & Hx).
  split; [|split].
  - apply Hd; repeat constructor.
  - apply Hr; repeat constructor.
  - now apply Hx; repeat constructor.
Defined.

(** With a terminal signal inside the budget the operations succeed. *)
Example poll_completes :
  deploy_bp [202; 409; 202] = (CommitCompleted, [])
  /\ revert_bp [202; 409; 202] = (202, [])
  /\ delete_bp [202; 405; 404] = (ReturnedTrue, []).
Proof. repeat split; reflexivity. Qed.

(** [revert_bp] reads [poll_response] in its initial-request branches
    before any poll was made: every first answer other than 202 and
    409 ends in the handler, which returns 500. *)
Example revert_unbound_poll_response : revert_bp [422] = (500, []).
Proof. reflexivity. Qed.

End Poll.

(* ------------------------------------------------------------------ *)
(** ** Time Voyager revisions: the post-commit block of [deploy_bp] *)
(* ------------------------------------------------------------------ *)

Module Revisions.

(** One entry of a blueprint's revision list, with the fields the
    framework reads. *)
Record revision : Type := {
  revision_id : string;
  created_at : option string;
  user_saved : bool;
  description : string
}.

Definition max_permanent_revisions : nat := 25.

(** [get_revision]: the first revision with the given description;
    [None] renders the empty dictionary. *)
Definition get_revision (revs : list revision) (commit_comment : string)
  : option revision :=
  find (fun r => String.eqb (description r) commit_comment) revs.

(** [get_permanent_revisions]. *)
Definition get_permanent_revisions (revs : list revision) : list revision :=
  filter user_saved revs.

(** [r.get('created_at', '9999-12-31T23:59:59Z')]. *)
Definition age_key (r : revision) : string :=
  match created_at r with
  | Some t => t
  | None => "9999-12-31T23:59:59Z"
  end.

(** [min(revs, key=age_key)]: the first of the minimal elements. *)
Fixpoint min_by_age (best : revision) (revs : list revision) : revision :=
  match revs with
  | [] => best
  | r :: revs' =>
      if String.ltb (age_key r) (age_key best)
      then min_by_age r revs'
      else min_by_age best revs'
  end.

(** [get_oldest_revision]: taken over the whole revision list. *)
Definition get_oldest_revision (revs : list revision) : option revision :=
  match revs with
  | [] => None
  | r :: revs' => Some (min_by_age r revs')
  end.

(** The controller's side of the two calls: DELETE removes the
    revision with the id, [keep] marks it as saved by the user. *)
Inductive api_call : Type :=
| DeleteRevision (id : string)
| KeepRevision (id : string).

Definition apply_call (revs : list revision) (c : api_call) : list revision :=
  match c with
  | DeleteRevision id =>
      filter (fun r => negb (String.eqb (revision_id r) id)) revs
  | KeepRevision id =>
      map (fun r =>
             if String.eqb (revision_id r) id
             then {| revision_id := revision_id r; created_at := created_at r;
                     user_saved := true; description := description r |}
             else r) revs
  end.

(** The block of [deploy_bp] that follows a completed commit of staged
    version [version] with comment [comment]: the calls it sends, given
    the revision list the controller holds (the new revision included).
    [remove_revision] is handed [{}] when no revision exists and then
    asks to delete the id [None]. *)
Definition post_commit_calls (revs : list revision) (version comment : string)
  : list api_call :=
  match get_revision revs comment with
  | Some _ =>
      (if Nat.leb max_permanent_revisions
                  (List.length (get_permanent_revisions revs))
       then match get_oldest_revision revs with
            | Some oldest => [DeleteRevision (revision_id oldest)]
            | None => [DeleteRevision "None"]
            end
       else [])
      ++ [KeepRevision version]
  | None => []
  end.

Definition post_commit (revs : list revision) (version comment : string)
  : list revision :=
  fold_left apply_call (post_commit_calls revs version comment) revs.

Definition saved_count (revs : list revision) : nat :=
  List.length (get_permanent_revisions revs).

(** *** A full quota next to an older unsaved revision *)

Definition saved_revision (n : nat) : revision :=
  {| revision_id := PyStr.of_nat n;
     created_at := Some ("2025-02-" ++ PyStr.of_nat (10 + n) ++ "T10:00:00.000000Z")%string;
     user_saved := true;
     description := ("(apaf_id_" ++ PyStr.of_nat n ++ ") commit")%string |}.

(** Revision 1 was committed outside the framework and never saved;
    revisions 2..26 are saved; revision 27 is the commit just made. *)
Definition full_quota : list revision :=
  {| revision_id := "1"; created_at := Some "2025-01-01T10:00:00.000000Z";
     user_saved := false; description := "manual commit" |}
  :: map saved_revision (seq 2 25)
  ++ [{| revision_id := "27"; created_at := Some "2025-03-30T10:00:00.000000Z";
         user_saved := false; description := "(apaf_id_27) commit" |}].

(** On that list the quota is full, the eviction goes to the unsaved
    revision 1 instead of the oldest saved one (revision 2), all 25
    saved revisions stay, and keeping revision 27 makes 26. *)
Theorem eviction_takes_unsaved_revision :
  saved_count full_quota = 25
  /\ post_commit_calls full_quota "27" "(apaf_id_27) commit"
     = [DeleteRevision "1"; KeepRevision "27"]
  /\ option_map revision_id
       (get_oldest_revision (get_permanent_revisions full_quota)) = Some "2"
  /\ saved_count (post_commit full_quota "27" "(apaf_id_27) commit") = 26.
Proof. repeat split; vm_compute; reflexivity. Qed.

End Revisions.

(* ------------------------------------------------------------------ *)
(** ** The revert algorithm: [revert_execution] *)
(* ------------------------------------------------------------------ *)

Module Revert.

(** What [revert_execution] reads from the scope, the user and the
    controller. *)
Record env : Type := {
  (** [project_execution_history_for_rollback], as
      [get_project_rollback_history] has just set it. *)
  candidates : list History.execution;
  (** The number the user enters at the prompt. *)
  user_choice : Z;
  (** Whether the walk under the [wip] path finds the folder of the
      execution with the given id. *)
  folder_found : string -> bool;
  input_tgz_exists : bool;
  input_tgz_rollback_exists : bool;
  (** [uncommitted_bps] after [scan_blueprints], by blueprint name. *)
  uncommitted_bps : list string;
  (** [get_bp_revision_list]: [None] when the request fails (the
      function then returns Python's [None]). *)
  revision_list : string -> option (list Revisions.revision)
}.

Inductive choice : Type :=
| Last
| Pick (n : Z).

(** What [get_rollback_execution_choice] leaves in the scope. *)
Record target : Type := {
  first_execution_reverted : bool;
  rollback_path_found : bool
}.

(** The record is read at ["execution_id"], ["local_creation_date"] and
    ["local_creation_time"] before the walk: a missing field raises
    [KeyError], which the function logs, and no rollback path is set. *)
Definition get_rollback_execution_choice (e : env) (c : choice) : target :=
  let found_for (x : option History.execution) :=
    match x with
    | Some r =>
        match Py.dict_get r "execution_id",
              Py.dict_get r "local_creation_date",
              Py.dict_get r "local_creation_time" with
        | Some id, Some _, Some _ => folder_found e id
        | _, _, _ => false
        end
    | None => false
    end in
  match c with
  | Last =>
      match candidates e with
      | [] => {| first_execution_reverted := true; rollback_path_found := false |}
      | r :: _ =>
          {| first_execution_reverted := false;
             rollback_path_found := found_for (Some r) |}
      end
  | Pick n =>
      if ((1 <=? n) && (n <=? Z.of_nat (List.length (candidates e))))%Z
      then {| first_execution_reverted := false;
              rollback_path_found :=
                found_for (nth_error (candidates e) (Z.to_nat (n - 1))) |}
      else {| first_execution_reverted := false; rollback_path_found := false |}
  end.

(** What the revert does, in order. *)
Inductive action : Type :=
| SaveRevertedTgz            (* copy of the current input tgz *)
| RestoreInputFolder         (* input folder replaced from the rollback tgz *)
| RevertBlueprint (bp_name : string)   (* [revert_bp] *)
| DeleteBlueprint (bp_name : string)   (* [delete_bps([bp_name])] *)
| CleanNonBlueprintObjects.  (* the diff and [remove_non_bp_added] *)

(** How the run of [revert_execution] ended. *)
Inductive ending : Type :=
| Finished
| Skipped   (* no valid rollback execution path: early [return] *)
| Crashed.  (* [len(None)]: the [TypeError] leaves the function *)

(** The loop over [uncommitted_bps]. *)
Fixpoint revert_blueprints (e : env) (bps : list string)
  : list action * bool :=
  match bps with
  | [] => ([], true)
  | bp_name :: bps' =>
      match revision_list e bp_name with
      | None => ([], false)
      | Some revisions =>
          let call :=
            if Nat.ltb 0 (List.length revisions)
            then RevertBlueprint bp_name
            else DeleteBlueprint bp_name in
          let '(rest, ok) := revert_blueprints e bps' in
          (call :: rest, ok)
      end
  end.

Definition revert_execution (e : env) (revert_to_last_exec : bool)
  : list action * ending :=
  let rollback_choice :=
    if revert_to_last_exec then Last else Pick (user_choice e) in
  let t := get_rollback_execution_choice e rollback_choice in
  if negb (first_execution_reverted t) && negb (rollback_path_found t)
  then ([], Skipped)
  else
    let files :=
      if first_execution_reverted t then []
      else (if input_tgz_exists e then [SaveRevertedTgz] else [])
           ++ (if input_tgz_rollback_exists e then [RestoreInputFolder] else []) in
    let '(bps, ok) :=
      if revert_to_last_exec
      then revert_blueprints e (uncommitted_bps e)
      else ([], true) in
    if ok
    then (files ++ bps ++ [CleanNonBlueprintObjects], Finished)
    else (files ++ bps, Crashed).





(** *** The blueprints with pending changes *)




(** A first execution is reverted: blueprint [fabric_a] has one earlier
    revision, blueprint [fabric_b] has none. *)
Definition one_revision : list Revisions.revision :=
  [{| Revisions.revision_id := "7";
      Revisions.created_at := Some "2025-01-01T10:00:00.000000Z";
      Revisions.user_saved := true;
      Revisions.description := "(apaf_id_7) commit" |}].

Definition first_run : env :=
  {| candidates := [];
     user_choice := 1;
     folder_found := fun _ => false;
     input_tgz_exists := true;
     input_tgz_rollback_exists := false;
     uncommitted_bps := ["fabric_a"; "fabric_b"];
     revision_list := fun bp =>
       if String.eqb bp "fabric_a" then Some one_revision else Some [] |}.


Example first_run_actions :
  revert_execution first_run true
  = ([RevertBlueprint "fabric_a"; DeleteBlueprint "fabric_b";
      CleanNonBlueprintObjects], Finished).
Proof. reflexivity. Qed.

(** The same project later on: the last successful execution is the
    rollback target, and blueprint [fabric_a] has pending changes and a
    non-empty revision history.  When the folder of the target is found
    under the [wip] path the blueprint is reverted; when it is not, the
    whole revert is skipped and no call is issued for the blueprint. *)
Definition later_run (found : bool) : env :=
  {| candidates :=
       [[("execution_id", "apaf_id_1714471200");
         ("exit_code", "USER_TF_EXEC_COMMIT");
         ("local_creation_date", "30/04/2024");
         ("local_creation_time", "12:00:00")]];
     user_choice := 1;
     folder_found := fun _ => found;
     input_tgz_exists := true;
     input_tgz_rollback_exists := true;
     uncommitted_bps := ["fabric_a"];
     revision_list := fun _ => Some one_revision |}.

Example later_run_actions :
  revert_execution (later_run true) true
  = ([SaveRevertedTgz; RestoreInputFolder; RevertBlueprint "fabric_a";
      CleanNonBlueprintObjects], Finished).
Proof. reflexivity. Qed.


(** A record of the history without its creation date: reading it
    raises [KeyError] before the walk, no rollback path is set and the
    revert is skipped, also when the folder is there. *)
Example record_without_creation_date :
  revert_execution
    {| candidates :=
         [[("execution_id", "apaf_id_1714471200");
           ("exit_code", "USER_TF_EXEC_COMMIT")]];
       user_choice := 1;
       folder_found := fun _ => true;
       input_tgz_exists := true;
       input_tgz_rollback_exists := true;
       uncommitted_bps := ["fabric_a"];
       revision_list := fun _ => Some one_revision |} true
  = ([], Skipped).
Proof. reflexivity. Qed.

End Revert.

(* ------------------------------------------------------------------ *)
(** ** The file system *)
(* ------------------------------------------------------------------ *)

Module Fs.
Import Py.

(** A directory tree.  Files carry what the framework puts into them:
    text (logs, tfstate), the fields of a YAML record, or the archive
    of a directory ([arcname] is the name of its top-level member). *)
Inductive node : Type :=
| File (text : string)
| Yaml (fields : list (string * string))
| Tgz (arcname : string) (tree : node)
| Dir (entries : list (string * node)).

Definition entries : Type := list (string * node).

(** A path, as the list of its components below the project folder. *)
Definition path : Type := list string.

Definition is_dir (n : node) : bool :=
  match n with Dir _ => true | _ => false end.

Definition dict_remove {A : Type} (d : list (string * A)) (k : string)
  : list (string * A) :=
  filter (fun kv => negb (String.eqb k (fst kv))) d.

(** The node at a path. *)
Fixpoint get (p : path) (n : node) : option node :=
  match p with
  | [] => Some n
  | k :: p' =>
      match n with
      | Dir es =>
          match dict_get es k with
          | Some c => get p' c
          | None => None
          end
      | _ => None
      end
  end.

(** The tree with [v] at path [p]; the parent of [p] must be an
    existing directory. *)
Fixpoint put (p : path) (v : node) (n : node) : option node :=
  match p with
  | [] => Some v
  | k :: p' =>
      match n with
      | Dir es =>
          match p' with
          | [] => Some (Dir (dict_set es k v))
          | _ :: _ =>
              match dict_get es k with
              | Some c =>
                  match put p' v c with
                  | Some c' => Some (Dir (dict_set es k c'))
                  | None => None
                  end
              | None => None
              end
          end
      | _ => None
      end
  end.

(** The tree without the entry at [p]. *)
Fixpoint del (p : path) (n : node) : node :=
  match p with
  | [] => n
  | k :: p' =>
      match n with
      | Dir es =>
          match p' with
          | [] => Dir (dict_remove es k)
          | _ :: _ =>
              match dict_get es k with
              | Some c => Dir (dict_set es k (del p' c))
              | None => n
              end
          end
      | _ => n
      end
  end.

(** The tree with every directory along [p] created; [None] when a
    component exists and is not a directory. *)
Fixpoint mkdirs (p : path) (n : node) : option node :=
  match n with
  | Dir es =>
      match p with
      | [] => Some n
      | k :: p' =>
          match mkdirs p' (match dict_get es k with
                           | Some c => c
                           | None => Dir []
                           end) with
          | Some c' => Some (Dir (dict_set es k c'))
          | None => None
          end
      end
  | _ => None
  end.

(** The parent directory and the base name of a path. *)
Definition dirname (p : path) : path := removelast p.
Definition basename (p : path) : string := last p "".

(** *** Commands: a state (the tree) and exceptions *)

Definition M (A : Type) : Type := node -> option A * node.

Definition ret {A : Type} (a : A) : M A := fun s => (Some a, s).

Definition raise {A : Type} : M A := fun s => (None, s).

Definition mbind {A B : Type} (m : M A) (f : A -> M B) : M B :=
  fun s =>
    match m s with
    | (Some a, s') => f a s'
    | (None, s') => (None, s')
    end.

(** [try: m except Exception: <log>]. *)
Definition catch (m : M unit) : M unit :=
  fun s => (Some tt, snd (m s)).

Definition when (b : bool) (m : M unit) : M unit :=
  if b then m else ret tt.

Fixpoint for_each {A : Type} (l : list A) (body : A -> M unit) : M unit :=
  match l with
  | [] => ret tt
  | x :: l' => mbind (body x) (fun _ => for_each l' body)
  end.

Definition lift {A : Type} (x : exc A) : M A := fun s => (x, s).

Definition update (f : node -> option node) : M unit :=
  fun s =>
    match f s with
    | Some s' => (Some tt, s')
    | None => (None, s)
    end.

End Fs.

Declare Scope fs_scope.
Delimit Scope fs_scope with fs.
Notation "x <- m ;; k" := (Fs.mbind m (fun x => k))
  (at level 61, m at next level, right associativity) : fs_scope.
Notation "m ;;; k" := (Fs.mbind m (fun _ => k))
  (at level 61, right associativity) : fs_scope.

(* ------------------------------------------------------------------ *)
(** ** [os], [shutil] and the framework's file helpers *)
(* ------------------------------------------------------------------ *)

Module Os.
Import Py Fs.
Local Open Scope fs_scope.

Definition path_eqb (p q : path) : bool :=
  if list_eq_dec string_dec p q then true else false.

(** [os.path.exists], [os.path.isdir], [os.path.isfile]. *)
Definition exists_ (p : path) : M bool :=
  fun s => (Some (match get p s with Some _ => true | None => false end), s).

Definition isdir (p : path) : M bool :=
  fun s => (Some (match get p s with Some (Dir _) => true | _ => false end), s).

Definition isfile (p : path) : M bool :=
  fun s => (Some (match get p s with
                  | Some (Dir _) | None => false
                  | Some _ => true
                  end), s).

(** [os.listdir]. *)
Definition listdir (p : path) : M (list string) :=
  fun s => (match get p s with
            | Some (Dir es) => Some (map fst es)
            | _ => None
            end, s).

(** [os.makedirs(p, exist_ok=...)]. *)
Definition makedirs (p : path) (exist_ok : bool) : M unit :=
  fun s =>
    match get p s with
    | Some (Dir _) => if exist_ok then (Some tt, s) else (None, s)
    | Some _ => (None, s)
    | None => update (mkdirs p) s
    end.

(** [os.rename]: an existing target is replaced only by a node of its
    own kind, and a directory only when it is empty; when the source
    cannot be placed at the target (no parent folder there), nothing is
    changed. *)
Definition rename (src dst : path) : M unit :=
  fun s =>
    match get src s with
    | None => (None, s)
    | Some n =>
        if path_eqb src dst then (Some tt, s)
        else
          let go :=
            match put dst n (del src s) with
            | Some s' => (Some tt, s')
            | None => (None, s)
            end in
          match get dst s with
          | None => go
          | Some (Dir []) => if is_dir n then go else (None, s)
          | Some (Dir (_ :: _)) => (None, s)
          | Some _ => if is_dir n then (None, s) else go
          end
    end.

(** [shutil.rmtree(p, ignore_errors=True)]. *)
Definition rmtree (p : path) : M unit :=
  fun s =>
    match get p s with
    | Some (Dir _) => (Some tt, del p s)
    | _ => (Some tt, s)
    end.

(** [os.remove]. *)
Definition remove (p : path) : M unit :=
  fun s =>
    match get p s with
    | Some (Dir _) | None => (None, s)
    | Some _ => (Some tt, del p s)
    end.

(** Writing a file: the parent must exist and the target must not be a
    directory. *)
Definition write (p : path) (n : node) : M unit :=
  fun s =>
    match get p s with
    | Some (Dir _) => (None, s)
    | _ => update (put p n) s
    end.

(** [shutil.copy2(src, dst)]: into [dst] when it is a directory. *)
Definition copy2 (src dst : path) : M unit :=
  fun s =>
    match get src s with
    | Some (Dir _) | None => (None, s)
    | Some n =>
        match get dst s with
        | Some (Dir _) => write (dst ++ [basename src]) n s
        | _ => write dst n s
        end
    end.

(** [shutil.copytree(src, dst)]. *)
Definition copytree (src dst : path) : M unit :=
  fun s =>
    match get src s, get dst s with
    | Some (Dir es), None =>
        (update (mkdirs (dirname dst)) ;;; update (put dst (Dir es))) s
    | _, _ => (None, s)
    end.

(** [shutil.move(src, dst)]. *)
Definition move (src dst : path) : M unit :=
  fun s =>
    match get dst s with
    | Some (Dir _) =>
        let real_dst := dst ++ [basename src] in
        match get real_dst s with
        | Some _ => (None, s)
        | None => rename src real_dst s
        end
    | _ => rename src dst s
    end.

(** [remove_directory], [remove_file], [clean_up_directory],
    [copy_file]: each catches and logs its own errors. *)
Definition remove_directory (p : path) : M unit :=
  catch (b <- exists_ p ;; when b (rmtree p)).

Definition remove_file (p : path) : M unit :=
  catch (b <- isfile p ;; when b (remove p)).

Definition clean_up_directory (p : path) : M unit :=
  catch (remove_directory p ;;; makedirs p true).

Definition copy_file (src dst : path) : M unit :=
  catch (b <- isfile src ;;
         when b (d <- isdir (dirname dst) ;;
                 when (negb d) (makedirs (dirname dst) false) ;;;
                 copy2 src dst)).

(** [copy_file] for the session log, which is kept outside the project
    folder ([customers/__tmp__/full_execution.log]): [log] is its text,
    [None] when it does not exist. *)
Definition copy_log (log : option string) (dst : path) : M unit :=
  catch (match log with
         | None => ret tt
         | Some text =>
             d <- isdir (dirname dst) ;;
             when (negb d) (makedirs (dirname dst) false) ;;;
             t <- isdir dst ;;
             write (if t then dst ++ ["full_execution.log"] else dst) (File text)
         end).

(** [create_tgz_from_dir(folder, out)]: opening the archive creates
    the file; a missing folder is logged. *)
Definition create_tgz_from_dir (folder out : path) : M unit :=
  catch (fun s =>
           match get folder s with
           | Some n => write out (Tgz (basename folder) n) s
           | None => (write out (File "") ;;; raise) s
           end).

(** [update_yaml(file, d)]. *)
Definition update_yaml (file : path) (d : list (string * string)) : M unit :=
  catch (fun s =>
           match get file s with
           | Some (Yaml fields) => write file (Yaml (dict_merge fields d)) s
           | Some (File "") | None => write file (Yaml d) s
           | Some _ => (None, s)
           end).

(** [rename_backup_files(file_path, keep_file, max_backups,
    tgz_backup_files)]: in the folder [_OLD] next to the file the
    backups [<name>.bck.<i>] and their archives move up by one, from the
    highest index down; the file becomes backup 1, is copied back when
    it is kept, and is archived and removed when archives are asked
    for. *)
Definition backup_dir (file_path : path) : path := dirname file_path ++ ["_OLD"].

Definition backup (file_path : path) (i : nat) : path :=
  backup_dir file_path ++ [(basename file_path ++ ".bck." ++ PyStr.of_nat i)%string].

Definition backup_tgz (file_path : path) (i : nat) : path :=
  backup_dir file_path
    ++ [(basename file_path ++ ".bck." ++ PyStr.of_nat i ++ ".tgz")%string].

Definition rotate_backup (file_path : path) (i : nat) : M unit :=
  (c <- exists_ (backup file_path i) ;;
   when c (rename (backup file_path i) (backup file_path (i + 1)))) ;;;
  (t <- exists_ (backup_tgz file_path i) ;;
   when t (rename (backup_tgz file_path i) (backup_tgz file_path (i + 1)))).

Definition rename_backup_files (file_path : path) (keep_file : bool)
    (max_backups : nat) (tgz_backup_files : bool) : M unit :=
  catch (b <- exists_ file_path ;;
         when b
           (makedirs (backup_dir file_path) true ;;;
            for_each (List.rev (seq 1 max_backups)) (rotate_backup file_path) ;;;
            rename file_path (backup file_path 1) ;;;
            when keep_file (copy2 (backup file_path 1) file_path) ;;;
            when tgz_backup_files
              (fun s =>
                 match get (backup file_path 1) s with
                 | Some n =>
                     (write (backup_tgz file_path 1)
                        (Tgz (basename (backup file_path 1)) n) ;;;
                      remove (backup file_path 1)) s
                 | None => (write (backup_tgz file_path 1) (File "") ;;; raise) s
                 end))).

End Os.

(* ------------------------------------------------------------------ *)
(** ** The scope manager: execution folders and the exit path *)
(* ------------------------------------------------------------------ *)

Module Scope.
Import Py Fs Os.
Local Open Scope fs_scope.

(** The scope parameters a run works with. *)
Record scope : Type := {
  aos_target : string;
  customer : string;
  domain : string;
  project : string;
  pre_commit_action : string;
  pre_commit_comment : string;
  post_commit_action : string;
  post_commit_comment : string;
  post_rollback : bool;
  interactive : bool;
  first_execution_reverted : bool;
  terraform_command : string;
  exit_code : string
}.

(** The clock readings [handle_execution_data_file] takes on
    ["create"]. *)
Record clock : Type := {
  local_date : string;
  local_time : string;
  utc_date : string;
  utc_time : string;
  utc_seconds : Z;
  (** [now.strftime('%Y-%m-%d_%H-%M-%S')] *)
  file_stamp : string
}.

(** *** Paths ([update_paths])

    Paths are relative to the project folder.  The directory and file
    names of [input/_main/files.yml], which is not part of the sources,
    are fixed as follows; nothing depends on them beyond their being
    distinct. *)
Definition input_path : path := ["input"].
Definition output_path : path := ["output"].
Definition archive_dir : path := output_path ++ ["archive"].
Definition executions_dir : path := output_path ++ ["executions"].
Definition input_tgz_reverted_path : path := output_path ++ ["input_tgz_reverted"].
Definition input_tgz_reverted_file : path := input_tgz_reverted_path ++ ["input.tgz"].
Definition project_log_file : path := output_path ++ ["log"; "project.log"].
Definition snapshot_dir_name : string := "apstra_snapshot".

Definition execution_0_path : path := executions_dir ++ ["execution_0"].
Definition execution_0_log_file : path :=
  execution_0_path ++ ["log"; "00_full_execution.log"].
Definition blocked_executions_path : path := executions_dir ++ ["__blocked__"].

Definition wip_path : path := executions_dir ++ ["__wip__"].
Definition wip_execution_0_path : path := wip_path ++ ["execution_0"].
Definition wip_execution_0_tfstate_path : path := wip_execution_0_path ++ ["tfstate"].
Definition wip_execution_0_cabling_map_path : path :=
  wip_execution_0_path ++ ["cabling_maps"].
Definition wip_execution_0_yaml_path : path := wip_execution_0_path ++ ["yaml"].
Definition wip_execution_0_input_tgz_file : path :=
  wip_execution_0_yaml_path ++ ["input.tgz"].
Definition wip_execution_0_input_tgz_rollback_file : path :=
  wip_execution_0_yaml_path ++ ["input.tgz.rollback"].
Definition wip_execution_0_input_tgz_reverted_file : path :=
  wip_execution_0_yaml_path ++ ["input.tgz.reverted"].
Definition wip_execution_0_snapshot_path : path :=
  wip_execution_0_path ++ [snapshot_dir_name].
Definition wip_execution_0_log_path : path := wip_execution_0_path ++ ["log"].
Definition wip_execution_0_tfplan_path : path := wip_execution_0_path ++ ["tfplan"].

Definition wip_execution_1_path : path := wip_path ++ ["execution_1"].
Definition wip_execution_1_tfstate_file (sc : scope) : path :=
  wip_execution_1_path ++ ["tfstate"; (project sc ++ ".tfstate")%string].
Definition wip_execution_1_input_tgz_file : path :=
  wip_execution_1_path ++ ["yaml"; "input.tgz"].

Definition wip_execution_data_path : path := wip_execution_0_path.
Definition execution_data_filename : string := "execution_data.yml".
Definition execution_data_file : path :=
  wip_execution_data_path ++ [execution_data_filename].

Definition yaml_bool (b : bool) : string := if b then "true" else "false".

(** [scope_data], as [manage_execution_dirs] fills it. *)
Definition scope_data (sc : scope) : list (string * string) :=
  [("aos_target", aos_target sc); ("customer", customer sc);
   ("domain", domain sc); ("project", project sc);
   ("pre_commit_action", pre_commit_action sc);
   ("pre_commit_comment", pre_commit_comment sc);
   ("post_commit_action", post_commit_action sc);
   ("post_commit_comment", post_commit_comment sc);
   ("post_rollback", yaml_bool (post_rollback sc));
   ("interactive", yaml_bool (interactive sc));
   ("first_execution_reverted", yaml_bool (first_execution_reverted sc));
   ("terraform_command", terraform_command sc)].

Definition execution_id_at (now : clock) : string :=
  ("apaf_id_" ++ PyStr.of_Z (utc_seconds now))%string.

(** [handle_execution_data_file("create", d)] and
    [handle_execution_data_file("update", d)]. *)
Definition handle_execution_data_file_create
  (sc : scope) (now : clock) (d : list (string * string)) : M unit :=
  catch (b <- exists_ wip_execution_data_path ;;
         when (negb b) (makedirs wip_execution_data_path false) ;;;
         write execution_data_file
           (Yaml (dict_merge
                    [("local_creation_date", local_date now);
                     ("local_creation_time", local_time now);
                     ("utc_creation_date", utc_date now);
                     ("utc_creation_time", utc_time now);
                     ("execution_id", execution_id_at now);
                     ("exit_code", exit_code sc)] d))).

Definition handle_execution_data_file_update (d : list (string * string))
  : M unit :=
  catch (b <- exists_ wip_execution_data_path ;;
         when (negb b) (makedirs wip_execution_data_path false) ;;;
         update_yaml execution_data_file d).

(** *** [manage_execution_dirs] *)

(** [l.sort(key=...)] on items paired with their keys: Python computes
    every key first and then sorts stably. *)
Fixpoint insert_by_key {A : Type} (x : Z * A) (l : list (Z * A)) : list (Z * A) :=
  match l with
  | [] => [x]
  | y :: l' =>
      if (fst x <=? fst y)%Z then x :: l else y :: insert_by_key x l'
  end.

Definition sort_by_key {A : Type} (l : list (Z * A)) : list (Z * A) :=
  fold_right insert_by_key [] l.

(** [int(folder.split('_')[1])]. *)
Definition folder_number (folder : string) : exc Z :=
  (piece <- nth_error (PyStr.split "_" folder) 1 ;; PyStr.to_int piece)%exc.

Fixpoint keyed (folders : list string) : exc (list (Z * string)) :=
  match folders with
  | [] => Some []
  | f :: l => (k <- folder_number f ;; r <- keyed l ;; Some ((k, f) :: r))%exc
  end.

Definition execution_name (n : Z) : string :=
  ("execution_" ++ PyStr.of_Z n)%string.

(** The entries of a directory that the rotation takes for execution
    folders. *)
Definition is_execution_dir (kv : string * node) : bool :=
  PyStr.startswith (fst kv) "execution_" && is_dir (snd kv).

Definition list_execution_dirs (p : path) : M (list string) :=
  fun s =>
    (match get p s with
     | Some (Dir es) => Some (map fst (filter is_execution_dir es))
     | _ => None
     end, s).

(** The body of [for folder in reversed(execution_dirs)]. *)
Definition rotate_folder (threshold : Z) (folder : string) : M unit :=
  folder_num <- lift (folder_number folder) ;;
  let new_dir_num := (folder_num + 1)%Z in
  if (threshold <? new_dir_num)%Z
  then remove_directory (wip_path ++ [folder])
  else rename (wip_path ++ [folder]) (wip_path ++ [execution_name new_dir_num]).

Definition rotate_execution_dirs (threshold : Z) : M unit :=
  execution_dirs <- list_execution_dirs wip_path ;;
  sorted <- lift (option_map sort_by_key (keyed execution_dirs)) ;;
  for_each (List.rev (map snd sorted)) (rotate_folder threshold).

(** The execution data file and the subfolders of a new [execution_0]. *)
Definition fill_execution_0 (sc : scope) (now : clock) : M unit :=
  handle_execution_data_file_create sc now (scope_data sc) ;;;
  makedirs wip_execution_0_tfstate_path false ;;;
  makedirs wip_execution_0_yaml_path false ;;;
  makedirs wip_execution_0_log_path false ;;;
  makedirs wip_execution_0_tfplan_path false ;;;
  makedirs wip_execution_0_snapshot_path false.

Definition create_execution_0 (sc : scope) (now : clock) : M unit :=
  b <- exists_ wip_execution_0_path ;;
  when (negb b)
    (makedirs wip_execution_0_path false ;;;
     fill_execution_0 sc now).

Definition snapshot_input : M unit :=
  bi <- exists_ input_path ;;
  by_ <- exists_ wip_execution_0_yaml_path ;;
  when (bi && by_)
    (create_tgz_from_dir input_path wip_execution_0_input_tgz_file).

Definition carry_over (sc : scope) : M unit :=
  b1 <- exists_ wip_execution_1_path ;;
  when b1
    (bt <- exists_ (wip_execution_1_tfstate_file sc) ;;
     when bt (copy2 (wip_execution_1_tfstate_file sc) wip_execution_0_tfstate_path) ;;;
     bz <- exists_ wip_execution_1_input_tgz_file ;;
     when bz (copy2 wip_execution_1_input_tgz_file
                    wip_execution_0_input_tgz_rollback_file) ;;;
     when (post_rollback sc)
       (br <- exists_ input_tgz_reverted_file ;;
        when br (copy_file input_tgz_reverted_file
                           wip_execution_0_input_tgz_reverted_file ;;;
                 remove_directory input_tgz_reverted_path))).

Definition initial_stage (sc : scope) (now : clock) (threshold : Z) : M unit :=
  br <- exists_ input_tgz_reverted_path ;;
  when (negb br) (makedirs input_tgz_reverted_path false) ;;;
  bw <- exists_ wip_path ;;
  when (negb bw) (makedirs wip_path false) ;;;
  rotate_execution_dirs threshold ;;;
  create_execution_0 sc now ;;;
  snapshot_input ;;;
  carry_over sc.

Definition archive_name (now : clock) : string :=
  (file_stamp now ++ "_archive.tgz")%string.

Definition destroy_final_stage (now : clock) : M unit :=
  ba <- exists_ archive_dir ;;
  when (negb ba) (makedirs archive_dir false) ;;;
  be <- exists_ executions_dir ;;
  when be
    (create_tgz_from_dir executions_dir (archive_dir ++ [archive_name now]) ;;;
     remove_directory executions_dir ;;;
     remove_directory wip_execution_0_cabling_map_path).

Definition manage_execution_dirs (sc : scope) (now : clock)
  (stage : string) (threshold : Z) : M unit :=
  catch (if String.eqb stage "initial_stage" then initial_stage sc now threshold
         else if String.eqb stage "destroy_final_stage" then destroy_final_stage now
         else ret tt).

Definition default_threshold : Z := 50.

(** *** [commit_wip_executions] *)

(** [tempfile.TemporaryDirectory(dir=...)] picks a name that is not in
    use; a name longer than every name in the directory is one. *)
Definition fresh_name (es : entries) : string :=
  ("tmp" ++ String.concat "" (map fst es))%string.

Definition is_execution_file (s : node) (name : string) : bool :=
  PyStr.startswith name "execution_"
  && match get (wip_path ++ [name]) s with
     | Some (Dir _) | None => false
     | Some _ => true
     end.

(** Step 1: the [execution_*] files of the [wip] folder go to the log
    folder of [execution_0]. *)
Definition move_execution_files : M unit :=
  b <- isdir wip_execution_0_log_path ;;
  when b
    (names <- listdir wip_path ;;
     for_each names
       (fun file_name =>
          f <- (fun s => (Some (is_execution_file s file_name), s)) ;;
          when f (move (wip_path ++ [file_name])
                       (wip_execution_0_log_path ++ [file_name])))).

(** Steps 2 to 4: the [wip] folder is moved out of the executions
    folder, the executions folder is emptied, the [wip] folder is moved
    back; the temporary folder is removed on leaving the [with]. *)
Definition clean_around_wip : M unit :=
  fun s =>
    match get (dirname executions_dir) s with
    | Some (Dir es) =>
        let temp_location := dirname executions_dir ++ [fresh_name es] in
        let body :=
          move wip_path temp_location ;;;
          clean_up_directory executions_dir ;;;
          move (temp_location ++ [basename wip_path]) executions_dir in
        let '(r, s') := (makedirs temp_location false ;;; body) s in
        (r, snd (rmtree temp_location s'))
    | _ => (None, s)
    end.

Definition copy_item (item : string) : M unit :=
  d <- isdir (wip_path ++ [item]) ;;
  if d then copytree (wip_path ++ [item]) (executions_dir ++ [item])
  else copy2 (wip_path ++ [item]) (executions_dir ++ [item]).

Definition commit_wip_executions : M unit :=
  catch (move_execution_files ;;;
         clean_around_wip ;;;
         names <- listdir wip_path ;;
         for_each names copy_item).

(** *** [handle_project_log]

    A log above [max_size_mb] megabytes is rotated first.  The size of a
    text file is the length of its text; the model gives no size to the
    other kinds of node, which the project log never is: they count as
    small. *)

Definition getsize (n : node) : Z :=
  match n with
  | File text => Z.of_nat (String.length text)
  | _ => 0
  end.

Definition handle_project_log (log : option string) : M unit :=
  let max_size_mb := 10%Z in
  catch ((fun s =>
            match get project_log_file s with
            | Some n =>
                when (max_size_mb * 1024 * 1024 <? getsize n)%Z
                  (rename_backup_files project_log_file false 9 true) s
            | None => (Some tt, s)
            end) ;;;
         b <- exists_ project_log_file ;;
         if negb b then
           makedirs (dirname project_log_file) true ;;;
           match log with
           | Some text => write project_log_file (File text)
           | None => raise
           end
         else
           fun s =>
             match log, get project_log_file s with
             | Some text, Some (File old) =>
                 write project_log_file (File (old ++ text)) s
             | _, _ => (None, s)
             end).

(** *** [exit_manager] *)

Definition exit_messages : list string :=
  ["USER_SILENT_EXIT"; "USER_REVERT"; "TF_PLAN_W_ERRORS"; "TF_PLAN_NO_CHANGES";
   "TF_PLAN_NO_CHANGES_POST_ROLLBACK"; "USER_TF_EXEC_ABORTED";
   "TF_EXEC_NOT_APPLY_DESTROY"; "TF_EXEC_W_ERRORS_REVERT";
   "TF_EXEC_W_ERRORS_DESTROY"; "USER_TF_EXEC_COMMIT"; "USER_TF_EXEC_DESTROY";
   "BLOCKED_EXECUTIONS"].

Definition successful_execution (exit_code : string) : bool :=
  Diff.mem exit_code
    ["USER_TF_EXEC_COMMIT"; "USER_TF_EXEC_DESTROY";
     "TF_PLAN_NO_CHANGES_POST_ROLLBACK"].

Definition triggers_follow_up (sc : scope) (exit_code : string) : bool :=
  negb (first_execution_reverted sc)
  && Diff.mem exit_code ["USER_REVERT"; "TF_EXEC_W_ERRORS_REVERT"].

(** [if os.path.isdir(p) and not os.listdir(p): remove_directory(p)]. *)
Definition remove_if_empty (p : path) : M unit :=
  d <- isdir p ;;
  when d (names <- listdir p ;;
          when (match names with [] => true | _ => false end)
               (remove_directory p)).

(** The update of the execution data file that precedes the [try]
    block. *)
Definition record_exit_code (exit_code : string) : M unit :=
  b <- exists_ execution_data_file ;;
  when b (handle_execution_data_file_update [("exit_code", exit_code)]).

(** The follow-up execution that [exit_manager] launches in its own
    process for the rollback exit codes: [run_apaf_terraform], the whole
    framework once more, with terraform, the Apstra server and an
    [exit_manager] call of its own.  It is a parameter of the model:
    what it does to the project folder, and how it ends, with
    [sys.exit], with an exception that reaches the caller, or by
    returning. *)
Inductive follow_up_end : Type :=
| Exits (status : Z)
| Raises
| Returns.

Definition follow_up : Type := node -> follow_up_end * node.

(** The follow-up execution as the last step of the [try] block: the
    result is the status of the [sys.exit] that ends the block, the one
    of the follow-up execution or, when that returns, [sys.exit(0)]. *)
Definition launch (run : follow_up) : M Z :=
  fun s =>
    match run s with
    | (Exits status, s') => (Some status, s')
    | (Raises, s') => (None, s')
    | (Returns, s') => (Some 0%Z, s')
    end.

(** The [try] block: it ends with [sys.exit], whose status is the
    result, or with an exception.  The scope file, the farewell message
    and the session's log folder are outside the project folder and not
    modelled. *)
Definition cleanup (run : follow_up) (sc : scope) (now : clock)
  (log : option string) (exit_code : string) : M Z :=
  if Diff.mem exit_code exit_messages then
    remove_file wip_execution_0_input_tgz_rollback_file ;;;
    when (String.eqb exit_code "BLOCKED_EXECUTIONS")
      (makedirs blocked_executions_path true ;;;
       copy_log log blocked_executions_path) ;;;
    when (successful_execution exit_code)
      (commit_wip_executions ;;; copy_log log execution_0_log_file) ;;;
    remove_directory wip_path ;;;
    when (String.eqb exit_code "USER_TF_EXEC_DESTROY")
      (manage_execution_dirs sc now "destroy_final_stage" default_threshold) ;;;
    if triggers_follow_up sc exit_code then
      handle_project_log log ;;;
      launch run
    else
      handle_project_log log ;;;
      remove_directory input_tgz_reverted_path ;;;
      remove_if_empty executions_dir ;;;
      ret 0%Z
  else ret 0%Z.

(** How a call of [exit_manager] ends. *)
Inductive outcome : Type :=
| Exited (status : Z)      (* [sys.exit(status)] *)
| Returned.                (* the error is logged and the call returns *)

Definition exit_manager (run : follow_up) (sc : scope) (now : clock)
  (log : option string) (exit_code : option string) : node -> outcome * node :=
  fun s =>
    match exit_code with
    | None | Some "" => (Returned, s)
    | Some c =>
        let exit_code := PyStr.upper c in
        let s1 := snd (record_exit_code exit_code s) in
        match cleanup run sc now log exit_code s1 with
        | (Some status, s2) => (Exited status, s2)
        | (None, s2) => (Returned, s2)
        end
    end.

(** The exit status a call of [exit_manager] gives the process, if it
    ends it. *)
Definition exit_status (o : outcome) : option Z :=
  match o with
  | Exited status => Some status
  | Returned => None
  end.

(** The steps of [cleanup] that come before the follow-up execution;
    the result tells whether that execution is launched next. *)
Definition own_steps (sc : scope) (now : clock) (log : option string)
  (exit_code : string) : M bool :=
  if Diff.mem exit_code exit_messages then
    remove_file wip_execution_0_input_tgz_rollback_file ;;;
    when (String.eqb exit_code "BLOCKED_EXECUTIONS")
      (makedirs blocked_executions_path true ;;;
       copy_log log blocked_executions_path) ;;;
    when (successful_execution exit_code)
      (commit_wip_executions ;;; copy_log log execution_0_log_file) ;;;
    remove_directory wip_path ;;;
    when (String.eqb exit_code "USER_TF_EXEC_DESTROY")
      (manage_execution_dirs sc now "destroy_final_stage" default_threshold) ;;;
    if triggers_follow_up sc exit_code then
      handle_project_log log ;;; ret true
    else
      handle_project_log log ;;;
      remove_directory input_tgz_reverted_path ;;;
      remove_if_empty executions_dir ;;;
      ret false
  else ret false.

(** How the call ends when the follow-up execution ends with [e]. *)
Definition ends_as (e : follow_up_end) : outcome :=
  match e with
  | Exits status => Exited status
  | Raises => Returned
  | Returns => Exited 0
  end.

End Scope.

(* ------------------------------------------------------------------ *)
(** ** Facts about the file system: what a command leaves alone *)
(* ------------------------------------------------------------------ *)

Module FsFacts.
Import Py Fs Os.

Lemma dict_get_set_other {A : Type} (d : list (string * A)) (k k' : string) (v : A) :
  k <> k' -> dict_get (dict_set d k v) k' = dict_get d k'.
Proof.
  intros N. induction d as [|[x w] d IH]; simpl.
  - destruct (String.eqb_spec k' k); [congruence | reflexivity].
  - destruct (String.eqb_spec k x) as [->|Nx]; simpl.
    + destruct (String.eqb_spec k' x); [congruence | reflexivity].
    + destruct (String.eqb_spec k' x); [reflexivity | exact IH].
Qed.

Lemma dict_get_set_eq {A : Type} (d : list (string * A)) (k : string) (v : A) :
  dict_get (dict_set d k v) k = Some v.
Proof.
  induction d as [|[x w] d IH]; simpl.
  - now rewrite String.eqb_refl.
  - destruct (String.eqb k x) eqn:E; simpl; rewrite E; [reflexivity | exact IH].
Qed.

Lemma dict_get_remove_other {A : Type} (d : list (string * A)) (k k' : string) :
  k <> k' -> dict_get (dict_remove d k) k' = dict_get d k'.
Proof.
  intros N. unfold dict_remove. induction d as [|[x w] d IH]; simpl; [reflexivity|].
  destruct (String.eqb_spec k x) as [->|Nx]; simpl.
  - destruct (String.eqb_spec k' x); [congruence | exact IH].
  - destruct (String.eqb_spec k' x); [reflexivity | exact IH].
Qed.

Lemma dict_get_remove_eq {A : Type} (d : list (string * A)) (k : string) :
  dict_get (dict_remove d k) k = None.
Proof.
  unfold dict_remove. induction d as [|[x w] d IH]; simpl; [reflexivity|].
  destruct (String.eqb k x) eqn:E; simpl; [exact IH|]. now rewrite E.
Qed.

(** Two paths diverge when they differ at a component both have. *)
Fixpoint diverge (p q : path) : bool :=
  match p, q with
  | a :: p', b :: q' => if String.eqb a b then diverge p' q' else true
  | _, _ => false
  end.

Lemma diverge_app (p q r : path) :
  diverge p q = true -> diverge (p ++ r) q = true.
Proof.
  revert q. induction p as [|a p IH]; intros [|b q]; simpl; try discriminate.
  destruct (String.eqb a b); [apply IH | reflexivity].
Qed.

Lemma diverge_siblings (p : path) (a b : string) :
  a <> b -> diverge (p ++ [a]) (p ++ [b]) = true.
Proof.
  intros N. induction p as [|k p IH]; simpl.
  - now destruct (String.eqb_spec a b).
  - now rewrite String.eqb_refl.
Qed.

Lemma get_put_diverge (p : path) : forall q v s s',
  diverge p q = true -> put p v s = Some s' -> get q s' = get q s.
Proof.
  induction p as [|a p IH]; intros [|b q] v s s'; simpl; try discriminate.
  destruct s as [| | |es]; try discriminate.
  destruct (String.eqb_spec a b) as [->|N]; intros Hd.
  - destruct p as [|a' p]; [discriminate|].
    destruct (dict_get es b) as [c|] eqn:Ec; [|discriminate].
    destruct (put (a' :: p) v c) as [c'|] eqn:Ep; [|discriminate].
    intros [= <-]. simpl. rewrite dict_get_set_eq. now apply (IH q v c c').
  - destruct p as [|a' p].
    + intros [= <-]. simpl. now rewrite dict_get_set_other.
    + destruct (dict_get es a) as [c|]; [|discriminate].
      destruct (put (a' :: p) v c) as [c'|]; [|discriminate].
      intros [= <-]. simpl. now rewrite dict_get_set_other.
Qed.

Lemma get_del_diverge (p : path) : forall q s,
  diverge p q = true -> get q (del p s) = get q s.
Proof.
  induction p as [|a p IH]; intros [|b q] s; simpl; try discriminate.
  destruct s as [| | |es]; try reflexivity.
  destruct (String.eqb_spec a b) as [->|N]; intros Hd.
  - destruct p as [|a' p]; [discriminate|].
    destruct (dict_get es b) as [c|] eqn:Ec; simpl; [|now rewrite Ec].
    rewrite dict_get_set_eq. exact (IH q c Hd).
  - destruct p as [|a' p].
    + simpl. now rewrite dict_get_remove_other.
    + destruct (dict_get es a) as [c|]; [|reflexivity].
      simpl. now rewrite dict_get_set_other.
Qed.

Lemma get_mkdirs_diverge (p : path) : forall q s s',
  diverge p q = true -> mkdirs p s = Some s' -> get q s' = get q s.
Proof.
  induction p as [|a p IH]; intros [|b q] s s'; simpl; try discriminate.
  destruct s as [| | |es]; try discriminate.
  simpl.
  destruct (mkdirs p match dict_get es a with Some c => c | None => Dir [] end)
    as [c'|] eqn:Em; [|discriminate].
  destruct (String.eqb_spec a b) as [->|N]; intros Hd [= <-]; simpl.
  - rewrite dict_get_set_eq.
    rewrite (IH q _ c' Hd Em).
    destruct (dict_get es b) as [c|]; [reflexivity|].
    destruct q; [now destruct p | reflexivity].
  - now rewrite dict_get_set_other.
Qed.

(** Whether [os.makedirs(t, exist_ok=True)] can succeed: no existing
    component of [t] is anything but a directory. *)
Fixpoint creatable (t : path) (n : node) : bool :=
  match n with
  | Dir es =>
      match t with
      | [] => true
      | k :: t' =>
          match dict_get es k with
          | Some c => creatable t' c
          | None => true
          end
      end
  | _ => false
  end.

Lemma creatable_fresh (t : path) : creatable t (Dir []) = true.
Proof. now destruct t. Qed.

Lemma mkdirs_creatable (t : path) : forall n,
  creatable t n = true -> exists n', mkdirs t n = Some n'.
Proof.
  induction t as [|k t IH]; intros [| | |es]; simpl; try discriminate.
  - now exists (Dir es).
  - intros H.
    destruct (IH match dict_get es k with Some c => c | None => Dir [] end)
      as (c' & E).
    + destruct (dict_get es k); [exact H | apply creatable_fresh].
    + rewrite E. now eexists.
Qed.

Lemma mkdirs_is_dir (t : path) : forall n n',
  mkdirs t n = Some n' -> creatable t n' = true.
Proof.
  induction t as [|k t IH]; intros [| | |es] n'; simpl; try discriminate.
  - now intros [= <-].
  - destruct (mkdirs t _) as [c'|] eqn:E; [|discriminate].
    intros [= <-]. simpl. rewrite dict_get_set_eq. exact (IH _ c' E).
Qed.

Lemma creatable_put_diverge (p : path) : forall t v s s',
  diverge p t = true -> put p v s = Some s' -> creatable t s' = creatable t s.
Proof.
  induction p as [|a p IH]; intros [|b t] v s s'; simpl; try discriminate.
  destruct s as [| | |es]; try discriminate.
  destruct (String.eqb_spec a b) as [->|N]; intros Hd.
  - destruct p as [|a' p]; [discriminate|].
    destruct (dict_get es b) as [c|] eqn:Ec; [|discriminate].
    destruct (put (a' :: p) v c) as [c'|] eqn:Ep; [|discriminate].
    intros [= <-]. simpl. rewrite dict_get_set_eq. now apply (IH t v c c').
  - destruct p as [|a' p].
    + intros [= <-]. simpl. now rewrite dict_get_set_other.
    + destruct (dict_get es a) as [c|]; [|discriminate].
      destruct (put (a' :: p) v c) as [c'|]; [|discriminate].
      intros [= <-]. simpl. now rewrite dict_get_set_other.
Qed.

Lemma creatable_del_diverge (p : path) : forall t s,
  diverge p t = true -> creatable t (del p s) = creatable t s.
Proof.
  induction p as [|a p IH]; intros [|b t] s; simpl; try discriminate.
  destruct s as [| | |es]; try reflexivity.
  destruct (String.eqb_spec a b) as [->|N]; intros Hd.
  - destruct p as [|a' p]; [discriminate|].
    destruct (dict_get es b) as [c|] eqn:Ec; simpl; [|now rewrite Ec].
    rewrite dict_get_set_eq. exact (IH t c Hd).
  - destruct p as [|a' p].
    + simpl. now rewrite dict_get_remove_other.
    + destruct (dict_get es a) as [c|]; [|reflexivity].
      simpl. now rewrite dict_get_set_other.
Qed.

Lemma creatable_mkdirs_diverge (p : path) : forall t s s',
  diverge p t = true -> mkdirs p s = Some s' -> creatable t s' = creatable t s.
Proof.
  induction p as [|a p IH]; intros [|b t] s s'; simpl; try discriminate.
  destruct s as [| | |es]; try discriminate.
  simpl.
  destruct (mkdirs p match dict_get es a with Some c => c | None => Dir [] end)
    as [c'|] eqn:Em; [|discriminate].
  destruct (String.eqb_spec a b) as [->|N]; intros Hd [= <-]; simpl.
  - rewrite dict_get_set_eq.
    rewrite (IH t _ c' Hd Em).
    destruct (dict_get es b) as [c|]; [reflexivity | apply creatable_fresh].
  - now rewrite dict_get_set_other.
Qed.

(** *** Observations that a command leaves as they are *)

(** [obs] reads the same after the command as before. *)
Definition stable {A X : Type} (obs : node -> X) (m : M A) : Prop :=
  forall s, obs (snd (m s)) = obs s.

(** Nothing done at or below [p] changes what [obs] reads. *)
Record untouched {X : Type} (obs : node -> X) (p : path) : Prop := {
  untouched_put : forall r v s s', put (p ++ r) v s = Some s' -> obs s' = obs s;
  untouched_del : forall r s, obs (del (p ++ r) s) = obs s;
  untouched_mkdirs : forall r s s', mkdirs (p ++ r) s = Some s' -> obs s' = obs s
}.

Lemma untouched_get (p q : path) :
  diverge p q = true -> untouched (get q) p.
Proof.
  intros H. split; intros r.
  - intros v s s'. apply get_put_diverge. now apply diverge_app.
  - intros s. apply get_del_diverge. now apply diverge_app.
  - intros s s'. apply get_mkdirs_diverge. now apply diverge_app.
Qed.

Lemma untouched_creatable (p t : path) :
  diverge p t = true -> untouched (creatable t) p.
Proof.
  intros H. split; intros r.
  - intros v s s'. apply creatable_put_diverge. now apply diverge_app.
  - intros s. apply creatable_del_diverge. now apply diverge_app.
  - intros s s'. apply creatable_mkdirs_diverge. now apply diverge_app.
Qed.

(** [p'] lies at or below [p]. *)
Definition under (p p' : path) : Prop := exists r, p' = p ++ r.

Lemma under_app (p p' : path) (r : path) : under p p' -> under p (p' ++ r).
Proof. intros (r' & ->). exists (r' ++ r). now rewrite app_assoc. Qed.

Lemma under_dirname (p p' : path) :
  under p p' -> p' <> p -> under p (dirname p').
Proof.
  intros (r & ->) N. destruct r as [|x r] using rev_ind.
  - now rewrite app_nil_r in N.
  - exists r. unfold dirname. now rewrite app_assoc, removelast_last.
Qed.

Section Stable.

Context {X : Type} (obs : node -> X).

Lemma stable_ret {A : Type} (a : A) : stable obs (ret a).
Proof. now intros s. Qed.

Lemma stable_raise {A : Type} : stable obs (@raise A).
Proof. now intros s. Qed.

Lemma stable_read {A : Type} (m : M A) :
  (forall s, snd (m s) = s) -> stable obs m.
Proof. intros H s. now rewrite H. Qed.

Lemma stable_bind {A B : Type} (m : M A) (f : A -> M B) :
  stable obs m -> (forall a, stable obs (f a)) -> stable obs (mbind m f).
Proof.
  intros Hm Hf s. unfold mbind. specialize (Hm s).
  destruct (m s) as [[a|] s']; simpl in *; [|exact Hm].
  now rewrite (Hf a s').
Qed.

Lemma stable_catch (m : M unit) : stable obs m -> stable obs (catch m).
Proof. intros H s. apply H. Qed.

Lemma stable_when (b : bool) (m : M unit) :
  stable obs m -> stable obs (when b m).
Proof. intros H. destruct b; [exact H | apply stable_ret]. Qed.

Lemma stable_for_each {A : Type} (l : list A) (body : A -> M unit) :
  (forall x, stable obs (body x)) -> stable obs (for_each l body).
Proof.
  intros H. induction l as [|x l IH]; simpl; [apply stable_ret|].
  apply stable_bind; [apply H | intros _; exact IH].
Qed.

Lemma stable_update (f : node -> option node) :
  (forall s s', f s = Some s' -> obs s' = obs s) -> stable obs (update f).
Proof.
  intros H s. unfold update. destruct (f s) as [s'|] eqn:E; simpl; [|reflexivity].
  now apply H.
Qed.

Lemma stable_exists (p : path) : stable obs (exists_ p).
Proof. now apply stable_read. Qed.

Lemma stable_isdir (p : path) : stable obs (isdir p).
Proof. now apply stable_read. Qed.

Lemma stable_isfile (p : path) : stable obs (isfile p).
Proof. now apply stable_read. Qed.

Lemma stable_listdir (p : path) : stable obs (listdir p).
Proof. now apply stable_read. Qed.

Lemma stable_lift {A : Type} (x : exc A) : stable obs (lift x).
Proof. now apply stable_read. Qed.

Variable p : path.
Hypothesis Hp : untouched obs p.

Lemma stable_put (p' : path) (v : node) :
  under p p' -> stable obs (update (put p' v)).
Proof.
  intros (r & ->). apply stable_update. intros s s'.
  apply (untouched_put obs p Hp).
Qed.

Lemma stable_makedirs (p' : path) (exist_ok : bool) :
  under p p' -> stable obs (makedirs p' exist_ok).
Proof.
  intros (r & ->) s. unfold makedirs.
  destruct (get (p ++ r) s) as [[| | |es]|]; try reflexivity.
  - now destruct exist_ok.
  - apply stable_update. intros s1 s2. apply (untouched_mkdirs obs p Hp).
Qed.

Lemma stable_rmtree (p' : path) : under p p' -> stable obs (rmtree p').
Proof.
  intros (r & ->) s. unfold rmtree.
  destruct (get (p ++ r) s) as [[| | |es]|]; try reflexivity.
  simpl. apply (untouched_del obs p Hp).
Qed.

Lemma stable_remove (p' : path) : under p p' -> stable obs (remove p').
Proof.
  intros (r & ->) s. unfold remove.
  destruct (get (p ++ r) s) as [[| | |es]|]; try reflexivity;
    simpl; apply (untouched_del obs p Hp).
Qed.

Lemma stable_write (p' : path) (v : node) : under p p' -> stable obs (write p' v).
Proof.
  intros U s. unfold write.
  destruct (get p' s) as [[| | |es]|]; try reflexivity;
    now apply stable_put.
Qed.

Lemma stable_rename (src dst : path) :
  under p src -> under p dst -> stable obs (rename src dst).
Proof.
  intros (r1 & ->) U2 s. unfold rename.
  destruct (get (p ++ r1) s) as [n|]; [|reflexivity].
  destruct (path_eqb (p ++ r1) dst); [reflexivity|].
  assert (G : obs (snd match put dst n (del (p ++ r1) s) with
                       | Some s' => (Some tt, s')
                       | None => (None, s)
                       end) = obs s).
  { pose proof (stable_put dst n U2 (del (p ++ r1) s)) as K. unfold update in K.
    destruct (put dst n (del (p ++ r1) s)); [|reflexivity].
    cbn [snd] in *. rewrite K. apply (untouched_del obs p Hp). }
  destruct (get dst s) as [[| | |[|e es]]|]; try reflexivity; try exact G;
    destruct (is_dir n); try reflexivity; exact G.
Qed.

Lemma stable_copy2 (src dst : path) : under p dst -> stable obs (copy2 src dst).
Proof.
  intros U s. unfold copy2.
  destruct (get src s) as [[| | |es]|]; try reflexivity;
    destruct (get dst s) as [[| | |es']|];
    try (now apply stable_write); now apply stable_write, under_app.
Qed.

Lemma stable_copytree (src dst : path) :
  under p dst -> dst <> p -> stable obs (copytree src dst).
Proof.
  intros U N s. unfold copytree.
  destruct (get src s) as [[| | |es]|]; try reflexivity.
  destruct (get dst s); [reflexivity|].
  apply (stable_bind (update (mkdirs (dirname dst)))).
  - destruct (under_dirname p dst U N) as (r & ->).
    apply stable_update. intros s1 s2. apply (untouched_mkdirs obs p Hp).
  - intros _. now apply stable_put.
Qed.

Lemma stable_move (src dst : path) :
  under p src -> under p dst -> stable obs (move src dst).
Proof.
  intros U1 U2 s. unfold move.
  destruct (get dst s) as [[| | |es]|]; try (now apply stable_rename).
  destruct (get (dst ++ [basename src]) s); [reflexivity|].
  now apply stable_rename, under_app.
Qed.

Lemma stable_remove_directory (p' : path) :
  under p p' -> stable obs (remove_directory p').
Proof.
  intros U. apply stable_catch, stable_bind; [apply stable_exists|].
  intros b. now apply stable_when, stable_rmtree.
Qed.

Lemma stable_remove_file (p' : path) :
  under p p' -> stable obs (remove_file p').
Proof.
  intros U. apply stable_catch, stable_bind; [apply stable_isfile|].
  intros b. now apply stable_when, stable_remove.
Qed.

Lemma stable_clean_up_directory (p' : path) :
  under p p' -> stable obs (clean_up_directory p').
Proof.
  intros U. apply stable_catch, stable_bind.
  - now apply stable_remove_directory.
  - intros _. now apply stable_makedirs.
Qed.

Lemma stable_copy_file (src dst : path) :
  under p dst -> dst <> p -> stable obs (copy_file src dst).
Proof.
  intros U N. apply stable_catch, stable_bind; [apply stable_isfile|].
  intros b. apply stable_when, stable_bind; [apply stable_isdir|].
  intros d. apply stable_bind.
  - now apply stable_when, stable_makedirs, under_dirname.
  - intros _. now apply stable_copy2.
Qed.

Lemma stable_copy_log (log : option string) (dst : path) :
  under p dst -> dst <> p -> stable obs (copy_log log dst).
Proof.
  intros U N. apply stable_catch. destruct log as [text|]; [|apply stable_ret].
  apply stable_bind; [apply stable_isdir|].
  intros d. apply stable_bind.
  - now apply stable_when, stable_makedirs, under_dirname.
  - intros _. apply stable_bind; [apply stable_isdir|].
    intros t. apply stable_write. destruct t; [now apply under_app | exact U].
Qed.

Lemma stable_create_tgz_from_dir (folder out : path) :
  under p out -> stable obs (create_tgz_from_dir folder out).
Proof.
  intros U s. unfold create_tgz_from_dir, catch. cbn [snd].
  destruct (get folder s) as [n|].
  - exact (stable_write out _ U s).
  - exact (stable_bind (write out (File "")) (fun _ => raise)
             (stable_write out (File "") U) (fun _ => stable_raise) s).
Qed.

Lemma stable_update_yaml (file : path) (d : list (string * string)) :
  under p file -> stable obs (update_yaml file d).
Proof.
  intros U s. unfold update_yaml, catch. cbn [snd].
  destruct (get file s) as [[[|c t]| | |]|]; try reflexivity;
    exact (stable_write file _ U s).
Qed.

Lemma stable_rename_backup_files (d : path) (name : string) (keep_file : bool)
    (max_backups : nat) (tgz_backup_files : bool) :
  under p d ->
  stable obs (rename_backup_files (d ++ [name]) keep_file max_backups tgz_backup_files).
Proof.
  intros U. unfold rename_backup_files, rotate_backup, backup, backup_tgz, backup_dir.
  unfold dirname. rewrite removelast_last.
  assert (Uf : under p (d ++ [name])) by now apply under_app.
  assert (Ub : forall x, under p ((d ++ ["_OLD"]) ++ [x]))
    by (intros x; now apply under_app, under_app).
  apply stable_catch, stable_bind; [apply stable_exists | intros b].
  apply stable_when, stable_bind; [apply stable_makedirs; now apply under_app | intros _].
  apply stable_bind; [|intros _].
  { apply stable_for_each. intros i.
    apply stable_bind; [|intros _]; (apply stable_bind; [apply stable_exists | intros c]);
      apply stable_when, stable_rename; apply Ub. }
  apply stable_bind; [apply stable_rename; [exact Uf | apply Ub] | intros _].
  apply stable_bind; [apply stable_when, stable_copy2, Uf | intros _].
  apply stable_when. intros s.
  destruct (get _ s) as [n|].
  - exact (stable_bind _ _ (stable_write _ _ (Ub _)) (fun _ => stable_remove _ (Ub _)) s).
  - exact (stable_bind _ (fun _ => raise) (stable_write _ (File "") (Ub _))
             (fun _ => stable_raise) s).
Qed.

End Stable.

(** *** Paths below a removed or created directory *)

Lemma get_app (p q : path) : forall s,
  get (p ++ q) s = match get p s with Some n => get q n | None => None end.
Proof.
  induction p as [|k p IH]; intros s; simpl; [reflexivity|].
  destruct s as [| | |es]; try reflexivity.
  destruct (dict_get es k) as [c|]; [apply IH | reflexivity].
Qed.

Lemma get_del_same (p : path) : forall s, p <> [] -> get p (del p s) = None.
Proof.
  induction p as [|k p IH]; intros s N; [congruence|].
  destruct s as [| | |es]; try reflexivity.
  destruct p as [|k' p].
  - simpl. now rewrite dict_get_remove_eq.
  - cbn [del]. destruct (dict_get es k) as [c|] eqn:E.
    + cbn [get]. rewrite dict_get_set_eq. now apply IH.
    + cbn [get]. now rewrite E.
Qed.

Lemma get_del_below (p r : path) (s : node) :
  p <> [] -> get (p ++ r) (del p s) = None.
Proof. intros N. now rewrite get_app, get_del_same. Qed.

Lemma get_in_empty (q : path) : q <> [] -> get q (Dir []) = None.
Proof. now destruct q. Qed.

Lemma get_mkdirs_below (p : path) : forall k r s s',
  mkdirs p s = Some s' -> get (p ++ k :: r) s' = get (p ++ k :: r) s.
Proof.
  induction p as [|a p IH]; intros k r [| | |es] s'; try discriminate.
  - now intros [= <-].
  - cbn [mkdirs].
    destruct (mkdirs p match dict_get es a with Some c => c | None => Dir [] end)
      as [c'|] eqn:Em; [|discriminate].
    intros [= <-]. rewrite <- !app_comm_cons. cbn [get]. rewrite dict_get_set_eq.
    rewrite (IH k r _ c' Em).
    destruct (dict_get es a) as [c|]; [reflexivity|].
    apply get_in_empty. now destruct p.
Qed.

Lemma creatable_is_dir (t : path) : forall s n,
  creatable t s = true -> get t s = Some n -> is_dir n = true.
Proof.
  induction t as [|k t IH]; intros [| | |es] n; simpl; try discriminate.
  - now intros _ [= <-].
  - destruct (dict_get es k) as [c|]; [apply IH | discriminate].
Qed.

(** *** Commands that do not raise *)

Definition runs {A : Type} (m : M A) (s : node) : Prop := fst (m s) <> None.

Definition total {A : Type} (m : M A) : Prop := forall s, runs m s.

Lemma runs_bind {A B : Type} (m : M A) (f : A -> M B) (s : node) :
  runs m s -> (forall a, runs (f a) (snd (m s))) -> runs (mbind m f) s.
Proof.
  unfold runs, mbind. intros Hm Hf.
  destruct (m s) as [[a|] s1]; [apply Hf | now elim Hm].
Qed.

Lemma total_ret {A : Type} (a : A) : total (ret a).
Proof. now intros s. Qed.

Lemma total_catch (m : M unit) : total (catch m).
Proof. now intros s. Qed.

Lemma total_when (b : bool) (m : M unit) : total m -> total (when b m).
Proof. intros H. destruct b; [exact H | apply total_ret]. Qed.

Lemma total_bind {A B : Type} (m : M A) (f : A -> M B) :
  total m -> (forall a, total (f a)) -> total (mbind m f).
Proof. intros Hm Hf s. apply runs_bind; [apply Hm | intros a; apply Hf]. Qed.

Lemma total_remove_directory (p : path) : total (remove_directory p).
Proof. apply total_catch. Qed.

Lemma total_remove_file (p : path) : total (remove_file p).
Proof. apply total_catch. Qed.

Lemma total_copy_log (log : option string) (p : path) : total (copy_log log p).
Proof. apply total_catch. Qed.

Lemma runs_makedirs (p : path) (s : node) :
  creatable p s = true -> runs (makedirs p true) s.
Proof.
  intros H. unfold runs, makedirs.
  destruct (get p s) as [n|] eqn:E.
  - pose proof (creatable_is_dir p s n H E) as D.
    destruct n; discriminate.
  - unfold update. destruct (mkdirs_creatable p s H) as (s' & ->). now simpl.
Qed.

(** *** What a command preserves *)

Definition preserves {A : Type} (P : node -> Prop) (m : M A) : Prop :=
  forall s, P s -> P (snd (m s)).

Lemma preserves_ret {A : Type} (P : node -> Prop) (a : A) : preserves P (ret a).
Proof. now intros s. Qed.

Lemma preserves_bind {A B : Type} (P : node -> Prop) (m : M A) (f : A -> M B) :
  preserves P m -> (forall a, preserves P (f a)) -> preserves P (mbind m f).
Proof.
  intros Hm Hf s H. unfold mbind. specialize (Hm s H).
  destruct (m s) as [[a|] s1]; [now apply Hf | exact Hm].
Qed.

Lemma preserves_stable {A X : Type} (obs : node -> X) (v : X) (m : M A) :
  stable obs m -> preserves (fun s => obs s = v) m.
Proof. intros H s E. now rewrite H. Qed.

Lemma preserves_catch (P : node -> Prop) (m : M unit) :
  preserves P m -> preserves P (catch m).
Proof. intros H s. apply H. Qed.

Lemma preserves_when (P : node -> Prop) (b : bool) (m : M unit) :
  preserves P m -> preserves P (when b m).
Proof. intros H. destruct b; [exact H | apply preserves_ret]. Qed.

Lemma preserves_read {A : Type} (P : node -> Prop) (m : M A) :
  (forall s, snd (m s) = s) -> preserves P m.
Proof. intros H s. now rewrite H. Qed.

Lemma untouched_map {X Y : Type} (obs : node -> X) (f : X -> Y) (p : path) :
  untouched obs p -> untouched (fun s => f (obs s)) p.
Proof.
  intros [P D K]. split; intros r.
  - intros v s s' H. now rewrite (P r v s s' H).
  - intros s. now rewrite D.
  - intros s s' H. now rewrite (K r s s' H).
Qed.

Lemma get_parent (p : path) (k : string) (s : node) (n : node) :
  get (p ++ [k]) s = Some n -> exists es, get p s = Some (Dir es).
Proof.
  rewrite get_app. destruct (get p s) as [[| | |es]|]; try discriminate.
  intros _. now exists es.
Qed.

Lemma mbind_ok {A B : Type} (m : M A) (f : A -> M B) (s : node) (a : A)
  (s1 : node) :
  m s = (Some a, s1) -> mbind m f s = f a s1.
Proof. intros E. unfold mbind. now rewrite E. Qed.

End FsFacts.

(* ------------------------------------------------------------------ *)
(** ** The exit path: exit status and the executions folder *)
(* ------------------------------------------------------------------ *)

Module ExitFacts.
Import Py Fs Os Scope FsFacts.
Local Open Scope fs_scope.

(** The entry [name] of the executions folder. *)
Definition entry (name : string) (s : node) : option node :=
  get (executions_dir ++ [name]) s.

(** Whether [p] is a directory. *)
Definition is_directory (p : path) (s : node) : bool :=
  match get p s with Some (Dir _) => true | _ => false end.

Ltac below := eexists; reflexivity.

Lemma wip_leaves_entry (name : string) :
  name <> "__wip__" -> untouched (entry name) wip_path.
Proof.
  intros N. apply untouched_get. apply (diverge_siblings executions_dir).
  congruence.
Qed.

Lemma blocked_leaves_entry (name : string) :
  name <> "__blocked__" -> untouched (entry name) blocked_executions_path.
Proof.
  intros N. apply untouched_get. apply (diverge_siblings executions_dir).
  congruence.
Qed.

Section Frames.

Context {X : Type} (obs : node -> X).

Lemma stable_record_exit_code (exit_code : string) :
  untouched obs wip_path -> stable obs (record_exit_code exit_code).
Proof.
  intros U. apply stable_bind; [apply stable_exists | intros b].
  apply stable_when, stable_catch, stable_bind; [apply stable_exists | intros d].
  apply stable_bind.
  - apply stable_when, (stable_makedirs obs wip_path U). below.
  - intros _. apply (stable_update_yaml obs wip_path U). below.
Qed.

Lemma stable_handle_project_log (log : option string) :
  untouched obs (dirname project_log_file) -> stable obs (handle_project_log log).
Proof.
  intros U. apply stable_catch, stable_bind; [|intros _].
  { intros s. destruct (get project_log_file s) as [n|]; [|reflexivity].
    apply stable_when.
    apply (stable_rename_backup_files obs _ U (output_path ++ ["log"]) "project.log").
    exists []. now rewrite app_nil_r. }
  apply stable_bind; [apply stable_exists | intros b].
  destruct b; cbn [negb].
  - intros s. destruct log as [text|]; [|reflexivity].
    destruct (get project_log_file s) as [[old| | |]|]; try reflexivity.
    apply (stable_write obs _ U). below.
  - apply stable_bind.
    + apply (stable_makedirs obs _ U). exists []. now rewrite app_nil_r.
    + intros _. destruct log as [text|]; [|apply stable_raise].
      apply (stable_write obs _ U). below.
Qed.

End Frames.

Lemma remove_if_empty_below (p : path) (name : string) :
  p <> [] -> stable (get (p ++ [name])) (remove_if_empty p).
Proof.
  intros N s. unfold remove_if_empty, mbind, isdir, listdir, remove_directory,
    catch, exists_, rmtree, when, ret.
  destruct (get p s) as [[| | |[|e es]]|] eqn:E;
    repeat (cbn; rewrite ?E); try reflexivity.
  rewrite get_del_below by exact N.
  now rewrite get_app, E.
Qed.

Lemma remove_if_empty_no_directory (p r : path) (s : node) :
  p <> [] ->
  is_directory (p ++ r) s = false ->
  is_directory (p ++ r) (snd (remove_if_empty p s)) = false.
Proof.
  intros N H. unfold remove_if_empty, mbind, isdir, listdir, remove_directory,
    catch, exists_, rmtree, when, ret.
  destruct (get p s) as [[| | |[|e es]]|] eqn:E;
    repeat (cbn; rewrite ?E); try exact H.
  unfold is_directory. now rewrite get_del_below.
Qed.

Lemma total_remove_if_empty (p : path) : total (remove_if_empty p).
Proof.
  intros s. unfold runs, remove_if_empty, mbind, isdir, listdir, remove_directory,
    catch, exists_, rmtree, when, ret.
  destruct (get p s) as [[| | |[|e es]]|] eqn:E;
    repeat (cbn; rewrite ?E); discriminate.
Qed.

Lemma copy_log_at_blocked (log : option string) (name : string) :
  name <> "__blocked__" ->
  stable (entry name) (copy_log log blocked_executions_path).
Proof.
  intros N. pose proof (blocked_leaves_entry name N) as U.
  apply stable_catch. destruct log as [text|]; [|apply stable_ret].
  apply stable_bind; [apply stable_isdir | intros d].
  apply stable_bind.
  - apply stable_when. change (dirname blocked_executions_path) with executions_dir.
    intros s. unfold makedirs.
    destruct (get executions_dir s) as [[| | |es]|]; try reflexivity.
    apply stable_update. intros s1 s2. apply get_mkdirs_below.
  - intros _. apply stable_bind; [apply stable_isdir | intros t].
    apply (stable_write (entry name) _ U).
    destruct t; [apply under_app|]; exists []; now rewrite app_nil_r.
Qed.

Lemma not_successful_not_destroy (exit_code : string) :
  successful_execution exit_code = false ->
  String.eqb exit_code "USER_TF_EXEC_DESTROY" = false.
Proof.
  intros H. destruct (String.eqb_spec exit_code "USER_TF_EXEC_DESTROY") as [->|];
    [discriminate H | reflexivity].
Qed.

Lemma own_steps_leave_entry (sc : scope) (now : clock) (log : option string)
  (exit_code name : string) :
  successful_execution exit_code = false ->
  name <> "__wip__" ->
  (exit_code = "BLOCKED_EXECUTIONS" -> name <> "__blocked__") ->
  stable (entry name) (own_steps sc now log exit_code).
Proof.
  intros Hs Nw Nb. unfold own_steps.
  destruct (Diff.mem exit_code exit_messages); [|apply stable_ret].
  rewrite Hs, (not_successful_not_destroy exit_code Hs). cbn [when].
  pose proof (wip_leaves_entry name Nw) as Uw.
  assert (Ul : untouched (entry name) (dirname project_log_file))
    by now apply untouched_get.
  apply stable_bind; [apply (stable_remove_file _ _ Uw); below | intros _].
  apply stable_bind.
  { destruct (String.eqb_spec exit_code "BLOCKED_EXECUTIONS") as [E|_];
      [|apply stable_ret].
    cbn [when]. apply stable_bind.
    - apply (stable_makedirs _ _ (blocked_leaves_entry name (Nb E))).
      exists []. now rewrite app_nil_r.
    - intros _. apply copy_log_at_blocked. auto. }
  intros _. apply stable_bind; [apply stable_ret | intros _].
  apply stable_bind.
  { apply (stable_remove_directory _ _ Uw). exists []. now rewrite app_nil_r. }
  intros _. apply stable_bind; [apply stable_ret | intros _].
  destruct (triggers_follow_up sc exit_code).
  - apply stable_bind; [now apply stable_handle_project_log | intros _].
    apply stable_ret.
  - apply stable_bind; [now apply stable_handle_project_log | intros _].
    apply stable_bind.
    { apply (stable_remove_directory _ input_tgz_reverted_path).
      - now apply untouched_get.
      - exists []. now rewrite app_nil_r. }
    intros _. apply stable_bind; [|intros _; apply stable_ret].
    now apply remove_if_empty_below.
Qed.

(** *** The state a sequence of commands ends in *)

Lemma after_bind {A B : Type} (Q : node -> Prop) (m : M A) (f : A -> M B)
  (s : node) :
  runs (mbind m f) s ->
  (forall a, runs (f a) (snd (m s)) -> Q (snd (f a (snd (m s))))) ->
  Q (snd (mbind m f s)).
Proof.
  unfold runs, mbind. destruct (m s) as [[a|] s1]; cbn [snd].
  - intros R H. now apply H.
  - intros R. now elim R.
Qed.

Lemma remove_directory_removes (p : path) (s : node) :
  p <> [] -> is_directory p (snd (remove_directory p s)) = false.
Proof.
  intros N. unfold remove_directory, catch, mbind, exists_, when, rmtree, ret,
    is_directory.
  destruct (get p s) as [[| | |es]|] eqn:E; repeat (cbn; rewrite ?E);
    try reflexivity.
  now rewrite get_del_same.
Qed.

Lemma leaves_wip_directory (p : path) :
  diverge p wip_path = true -> untouched (is_directory wip_path) p.
Proof.
  intros H.
  exact (untouched_map (get wip_path)
           (fun o => match o with Some (Dir _) => true | _ => false end) p
           (untouched_get p wip_path H)).
Qed.

Lemma own_steps_discard_wip (sc : scope) (now : clock) (log : option string)
  (exit_code : string) (s : node) :
  Diff.mem exit_code exit_messages = true ->
  successful_execution exit_code = false ->
  runs (own_steps sc now log exit_code) s ->
  is_directory wip_path (snd (own_steps sc now log exit_code s)) = false.
Proof.
  intros Hm Hs. unfold own_steps.
  rewrite Hm, Hs, (not_successful_not_destroy exit_code Hs). cbn [when].
  intros R.
  apply after_bind; [exact R | clear R; intros _ R].
  apply after_bind; [exact R | clear R; intros _ R].
  apply after_bind; [exact R | clear R; intros _ R].
  apply after_bind; [exact R | clear R; intros _ _].
  cut (preserves (fun t => is_directory wip_path t = false)
         (ret tt ;;;
          (if triggers_follow_up sc exit_code
           then handle_project_log log ;;; ret true
           else handle_project_log log ;;;
                remove_directory input_tgz_reverted_path ;;;
                remove_if_empty executions_dir ;;; ret false))).
  { intros P. apply P. now apply remove_directory_removes. }
  assert (Hl : stable (is_directory wip_path) (handle_project_log log)).
  { apply stable_handle_project_log. now apply leaves_wip_directory. }
  apply preserves_bind; [apply preserves_ret | intros _].
  destruct (triggers_follow_up sc exit_code).
  - apply preserves_bind; [now apply preserves_stable | intros _].
    apply preserves_ret.
  - apply preserves_bind; [now apply preserves_stable | intros _].
    apply preserves_bind.
    { apply preserves_stable.
      apply (stable_remove_directory _ input_tgz_reverted_path).
      - now apply leaves_wip_directory.
      - exists []. now rewrite app_nil_r. }
    intros _. apply preserves_bind; [|intros _; apply preserves_ret].
    intros t. now apply (remove_if_empty_no_directory executions_dir ["__wip__"]).
Qed.

(** *** [cleanup] and its steps before the follow-up execution *)

Lemma bind_tail {A B C : Type} (h : option B * node -> option C * node)
  (m : M A) (f : A -> M B) (g : A -> M C) :
  (forall s, h (None, s) = (None, s)) ->
  (forall a s, g a s = h (f a s)) ->
  forall s, mbind m g s = h (mbind m f s).
Proof.
  intros Hn H s. unfold mbind.
  destruct (m s) as [[a|] s1]; [apply H | now rewrite Hn].
Qed.

Lemma bind_post {A B : Type} (P : option B * node -> Prop) (m : M A)
  (f : A -> M B) :
  (forall s, P (None, s)) ->
  (forall a s, P (f a s)) ->
  forall s, P (mbind m f s).
Proof.
  intros Hn H s. unfold mbind. destruct (m s) as [[a|] s1]; [apply H | apply Hn].
Qed.

(** What [cleanup] does once its own steps are done. *)
Definition then_launch (run : follow_up) (r : option bool * node)
  : option Z * node :=
  match r with
  | (Some true, s) => launch run s
  | (Some false, s) => (Some 0%Z, s)
  | (None, s) => (None, s)
  end.

Lemma cleanup_own_steps (run : follow_up) (sc : scope) (now : clock)
  (log : option string) (exit_code : string) (s : node) :
  cleanup run sc now log exit_code s
  = then_launch run (own_steps sc now log exit_code s).
Proof.
  unfold cleanup, own_steps.
  destruct (Diff.mem exit_code exit_messages); [|reflexivity].
  revert s. do 5 (apply (bind_tail (then_launch run)); [reflexivity | intros _]).
  destruct (triggers_follow_up sc exit_code).
  - apply (bind_tail (then_launch run)); [reflexivity | intros _ s]. reflexivity.
  - do 3 (apply (bind_tail (then_launch run)); [reflexivity | intros _]).
    reflexivity.
Qed.

Lemma triggers_follow_up_recognised (sc : scope) (exit_code : string) :
  triggers_follow_up sc exit_code = true ->
  Diff.mem exit_code exit_messages = true
  /\ successful_execution exit_code = false
  /\ exit_code <> "BLOCKED_EXECUTIONS".
Proof.
  unfold triggers_follow_up. intros H. apply andb_prop in H as [_ H].
  assert (E : exit_code = "USER_REVERT" \/ exit_code = "TF_EXEC_W_ERRORS_REVERT").
  { cbn in H.
    destruct (String.eqb_spec exit_code "USER_REVERT") as [E|_]; [now left|].
    destruct (String.eqb_spec exit_code "TF_EXEC_W_ERRORS_REVERT") as [E|_];
      [now right | discriminate H]. }
  destruct E as [E | E]; rewrite E; (split; [reflexivity|]);
    (split; [reflexivity | discriminate]).
Qed.

(** The result of the steps is the test of the follow-up execution. *)
Lemma own_steps_result (sc : scope) (now : clock) (log : option string)
  (exit_code : string) (s : node) :
  match fst (own_steps sc now log exit_code s) with
  | Some b => b = triggers_follow_up sc exit_code
  | None => True
  end.
Proof.
  unfold own_steps. destruct (Diff.mem exit_code exit_messages) eqn:M.
  - revert s.
    do 5 (apply (bind_post (fun r => match fst r with
                                    | Some b => b = triggers_follow_up sc exit_code
                                    | None => True
                                    end)); [now intros s | intros _]).
    destruct (triggers_follow_up sc exit_code).
    + apply (bind_post (fun r => match fst r with
                                 | Some b => b = true
                                 | None => True
                                 end)); [now intros s | now intros _ s].
    + do 3 (apply (bind_post (fun r => match fst r with
                                       | Some b => b = false
                                       | None => True
                                       end)); [now intros s | intros _]).
      now intros s.
  - cbn. destruct (triggers_follow_up sc exit_code) eqn:T; [|reflexivity].
    apply triggers_follow_up_recognised in T as [T _]. congruence.
Qed.

(** *** [exit_manager] unfolded at a non-empty exit code *)

Lemma exit_manager_nonempty (run : follow_up) (sc : scope) (now : clock)
  (log : option string) (c : string) (s : node) :
  c <> "" ->
  exit_manager run sc now log (Some c) s
  = match own_steps sc now log (PyStr.upper c)
            (snd (record_exit_code (PyStr.upper c) s)) with
    | (Some true, s2) => (ends_as (fst (run s2)), snd (run s2))
    | (Some false, s2) => (Exited 0, s2)
    | (None, s2) => (Returned, s2)
    end.
Proof.
  intros N. destruct c as [|a c]; [congruence|].
  unfold exit_manager. cbv zeta. rewrite cleanup_own_steps.
  destruct (own_steps _ _ _ _ _) as [[[|]|] s2]; try reflexivity.
  unfold then_launch, launch. now destruct (run s2) as [[status| |] s3].
Qed.

(** Without a follow-up execution the call ends where its own steps
    end. *)
Lemma exit_manager_state (run : follow_up) (sc : scope) (now : clock)
  (log : option string) (c : string) (s : node) :
  c <> "" ->
  triggers_follow_up sc (PyStr.upper c) = false ->
  snd (exit_manager run sc now log (Some c) s)
  = snd (own_steps sc now log (PyStr.upper c)
           (snd (record_exit_code (PyStr.upper c) s))).
Proof.
  intros N T. rewrite exit_manager_nonempty by exact N.
  pose proof (own_steps_result sc now log (PyStr.upper c)
                (snd (record_exit_code (PyStr.upper c) s))) as R.
  destruct (own_steps _ _ _ _ _) as [[[|]|] s2]; try reflexivity.
  cbn in R. congruence.
Qed.

Lemma exit_manager_exits_iff_runs (run : follow_up) (sc : scope) (now : clock)
  (log : option string) (c : string) (s : node) :
  c <> "" ->
  triggers_follow_up sc (PyStr.upper c) = false ->
  exit_status (fst (exit_manager run sc now log (Some c) s)) = Some 0%Z
  <-> runs (own_steps sc now log (PyStr.upper c))
           (snd (record_exit_code (PyStr.upper c) s)).
Proof.
  intros N T. rewrite exit_manager_nonempty by exact N. unfold runs.
  pose proof (own_steps_result sc now log (PyStr.upper c)
                (snd (record_exit_code (PyStr.upper c) s))) as R.
  destruct (own_steps _ _ _ _ _) as [[[|]|] s2]; cbn in *; split; congruence.
Qed.

(** *** The record of the exit code *)

Lemma put_over (p : path) (v : node) : forall s n,
  get p s = Some n -> exists s', put p v s = Some s' /\ get p s' = Some v.
Proof.
  induction p as [|k p IH]; intros s n; [now exists v|].
  destruct s as [| | |es]; try discriminate. cbn [get put].
  destruct (dict_get es k) as [c|] eqn:E; [|discriminate]. intros G.
  destruct p as [|k' p].
  - eexists. split; [reflexivity|]. cbn [get]. now rewrite dict_get_set_eq.
  - destruct (IH c n G) as (c' & -> & G').
    eexists. split; [reflexivity|]. cbn [get]. now rewrite dict_get_set_eq.
Qed.

Lemma update_yaml_merges (file : path) (d fields : list (string * string))
  (s : node) :
  get file s = Some (Yaml fields) ->
  get file (snd (update_yaml file d s)) = Some (Yaml (dict_merge fields d)).
Proof.
  intros G. unfold update_yaml, catch, write, update. rewrite !G.
  destruct (put_over file (Yaml (dict_merge fields d)) s _ G) as (s' & -> & G').
  exact G'.
Qed.

Lemma record_exit_code_recorded (exit_code : string)
  (fields : list (string * string)) (s : node) :
  get execution_data_file s = Some (Yaml fields) ->
  get execution_data_file (snd (record_exit_code exit_code s))
  = Some (Yaml (dict_set fields "exit_code" exit_code)).
Proof.
  intros G.
  destruct (get_parent wip_execution_data_path execution_data_filename s _ G)
    as (es & Gp).
  unfold record_exit_code, handle_execution_data_file_update, mbind, exists_,
    catch, when.
  fold execution_data_file. rewrite G. cbn [fst snd]. rewrite Gp. cbn [negb ret].
  now apply (update_yaml_merges execution_data_file [("exit_code", exit_code)]).
Qed.

(** *** The exit status *)

Lemma total_after_blocked (sc : scope) (now : clock) (log : option string)
  (exit_code : string) :
  total
    (when (successful_execution exit_code)
       (commit_wip_executions ;;; copy_log log execution_0_log_file) ;;;
     remove_directory wip_path ;;;
     when (String.eqb exit_code "USER_TF_EXEC_DESTROY")
       (manage_execution_dirs sc now "destroy_final_stage" default_threshold) ;;;
     if triggers_follow_up sc exit_code then
       handle_project_log log ;;; ret true
     else
       handle_project_log log ;;;
       remove_directory input_tgz_reverted_path ;;;
       remove_if_empty executions_dir ;;;
       ret false).
Proof.
  apply total_bind; [|intros _].
  { apply total_when, total_bind; [apply total_catch | intros _; apply total_catch]. }
  apply total_bind; [apply total_catch | intros _].
  apply total_bind; [apply total_when, total_catch | intros _].
  destruct (triggers_follow_up sc exit_code).
  - apply total_bind; [apply total_catch | intros _; apply total_ret].
  - apply total_bind; [apply total_catch | intros _].
    apply total_bind; [apply total_catch | intros _].
    apply total_bind; [apply total_remove_if_empty | intros _; apply total_ret].
Qed.

Lemma own_steps_run (sc : scope) (now : clock) (log : option string)
  (exit_code : string) (s : node) :
  (exit_code = "BLOCKED_EXECUTIONS" ->
   creatable blocked_executions_path s = true) ->
  runs (own_steps sc now log exit_code) s.
Proof.
  intros H. unfold own_steps.
  destruct (Diff.mem exit_code exit_messages); [|apply total_ret].
  apply runs_bind; [apply total_catch | intros _].
  apply runs_bind; [|intros _; apply total_after_blocked].
  destruct (String.eqb_spec exit_code "BLOCKED_EXECUTIONS") as [E|_];
    [|apply total_ret].
  cbn [when]. apply runs_bind; [|intros _; apply total_catch].
  apply runs_makedirs.
  rewrite (stable_remove_file (creatable blocked_executions_path) wip_path).
  - now apply H.
  - apply untouched_creatable. apply (diverge_siblings executions_dir). discriminate.
  - below.
Qed.

(** *** A project in the middle of its second execution *)

Definition sample_scope : scope := {|
  aos_target := "lab";
  customer := "acme";
  domain := "dc1";
  project := "fabric";
  pre_commit_action := "manual";
  pre_commit_comment := "none";
  post_commit_action := "keep";
  post_commit_comment := "second run";
  post_rollback := false;
  interactive := true;
  first_execution_reverted := false;
  terraform_command := "apply";
  exit_code := ""
|}.

Definition sample_clock : clock := {|
  local_date := "01/05/2024";
  local_time := "12:00:00";
  utc_date := "01/05/2024";
  utc_time := "10:00:00";
  utc_seconds := 1714557600;
  file_stamp := "2024-05-01_12-00-00"
|}.

Definition first_execution : node :=
  Dir [("execution_data.yml",
        Yaml [("execution_id", "apaf_id_1714471200");
              ("exit_code", "USER_TF_EXEC_COMMIT")]);
       ("log", Dir [("00_full_execution.log", File "first run")])].

Definition second_execution : node :=
  Dir [("execution_data.yml",
        Yaml [("execution_id", "apaf_id_1714557600"); ("exit_code", "")]);
       ("log", Dir []);
       ("yaml", Dir [("input.tgz.rollback", File "previous input")])].

Definition sample_tree : node :=
  Dir [("input", Dir [("fabric.yml", File "spines: 2")]);
       ("output",
        Dir [("executions",
              Dir [("execution_0", first_execution);
                   ("__wip__",
                    Dir [("execution_0", second_execution);
                         ("execution_1", first_execution)])])])].


(** A follow-up execution that ends at once with [sys.exit(0)] and one
    that ends with [sys.exit(1)]. *)
Definition sample_run : follow_up := fun s => (Exits 0, s).
Definition failing_run : follow_up := fun s => (Exits 1, s).

(** *** How the call ends *)

Lemma blocked_no_follow_up (sc : scope) :
  triggers_follow_up sc "BLOCKED_EXECUTIONS" = false.
Proof. unfold triggers_follow_up. now destruct (first_execution_reverted sc). Qed.


Lemma successful_no_follow_up (sc : scope) (exit_code : string) :
  successful_execution exit_code = true ->
  triggers_follow_up sc exit_code = false.
Proof.
  intros M. destruct (triggers_follow_up sc exit_code) eqn:T; [|reflexivity].
  apply triggers_follow_up_recognised in T as (_ & T & _). congruence.
Qed.



(** With a follow-up execution the call ends as that execution ends,
    in the state in which that execution leaves the project folder. *)
Lemma exit_with_follow_up (run : follow_up) (sc : scope) (now : clock)
  (log : option string) (c : string) (s : node) :
  c <> "" ->
  triggers_follow_up sc (PyStr.upper c) = true ->
  let s' := snd (own_steps sc now log (PyStr.upper c)
                   (snd (record_exit_code (PyStr.upper c) s))) in
  runs (own_steps sc now log (PyStr.upper c))
    (snd (record_exit_code (PyStr.upper c) s))
  /\ exit_manager run sc now log (Some c) s
     = (ends_as (fst (run s')), snd (run s')).
Proof.
  intros N T s'.
  assert (R : runs (own_steps sc now log (PyStr.upper c))
                (snd (record_exit_code (PyStr.upper c) s))).
  { apply own_steps_run. intros E.
    apply triggers_follow_up_recognised in T as (_ & _ & T). contradiction. }
  split; [exact R|].
  rewrite exit_manager_nonempty by exact N.
  pose proof (own_steps_result sc now log (PyStr.upper c)
                (snd (record_exit_code (PyStr.upper c) s))) as B.
  unfold runs in R. subst s'.
  destruct (own_steps _ _ _ _ _) as [[[|]|] s2]; cbn in *; congruence.
Qed.


(** An exit code that is not recognised only logs a warning; a rollback
    exit code launches the follow-up execution, whose exit status is
    then the one of the process. *)
Example unrecognised_and_rollback_exit_codes :
  fst (exit_manager sample_run sample_scope sample_clock (Some "session log")
         (Some "no_such_code") sample_tree) = Exited 0
  /\ fst (exit_manager failing_run sample_scope sample_clock (Some "session log")
            (Some "USER_REVERT") sample_tree) = Exited 1.
Proof. split; reflexivity. Qed.

(** *** The executions folder on the exit codes that do not commit *)


(** C10 (as amended).  For an exit code other than [USER_TF_EXEC_COMMIT],
    [USER_TF_EXEC_DESTROY] and [TF_PLAN_NO_CHANGES_POST_ROLLBACK], the
    steps of [exit_manager] leave every entry of the executions folder
    as it was, except the [__wip__] folder and, for [BLOCKED_EXECUTIONS],
    the [__blocked__] sentinel folder, and when the exit code is
    recognised and the call reaches its exit, no [__wip__] folder is
    left.  Without a follow-up execution that is the state in which the
    call ends; on [USER_REVERT] and [TF_EXEC_W_ERRORS_REVERT] with the
    first execution not reverted it is the state in which the follow-up
    execution starts, and the call ends where that execution ends. *)
Theorem other_exit_codes_keep_executions (run : follow_up) (sc : scope)
  (now : clock) (log : option string) (c name : string) (s : node) :
  c <> "" ->
  successful_execution (PyStr.upper c) = false ->
  name <> "__wip__" ->
  (PyStr.upper c = "BLOCKED_EXECUTIONS" -> name <> "__blocked__") ->
  (triggers_follow_up sc (PyStr.upper c) = false ->
   entry name (snd (exit_manager run sc now log (Some c) s)) = entry name s
   /\ (Diff.mem (PyStr.upper c) exit_messages = true ->
       exit_status (fst (exit_manager run sc now log (Some c) s)) = Some 0%Z ->
       is_directory wip_path (snd (exit_manager run sc now log (Some c) s))
       = false))
  /\ (triggers_follow_up sc (PyStr.upper c) = true ->
      exists s',
        exit_manager run sc now log (Some c) s
        = (ends_as (fst (run s')), snd (run s'))
        /\ entry name s' = entry name s
        /\ is_directory wip_path s' = false).
Proof.
  intros N Hs Nw Nb.
  assert (K : entry name
                (snd (own_steps sc now log (PyStr.upper c)
                        (snd (record_exit_code (PyStr.upper c) s))))
              = entry name s).
  { rewrite (own_steps_leave_entry sc now log (PyStr.upper c) name Hs Nw Nb).
    apply stable_record_exit_code. now apply wip_leaves_entry. }
  split; intros T.
  - rewrite exit_manager_state by assumption. split; [exact K|].
    intros Hm Hx. apply own_steps_discard_wip; [exact Hm | exact Hs |].
    now apply (exit_manager_exits_iff_runs run).
  - destruct (exit_with_follow_up run sc now log c s N T) as (R & E).
    eexists. split; [exact E|]. split; [exact K|].
    apply own_steps_discard_wip; [|exact Hs | exact R].
    now apply triggers_follow_up_recognised in T as (T & _).
Qed.

Lemma other_exit_codes_keep_executions_witness :
  (entry "execution_0"
     (snd (exit_manager sample_run sample_scope sample_clock (Some "session log")
             (Some "user_tf_exec_aborted") sample_tree))
   = Some first_execution
   /\ is_directory wip_path
        (snd (exit_manager sample_run sample_scope sample_clock
                (Some "session log") (Some "user_tf_exec_aborted") sample_tree))
      = false)
  /\ exists s',
       exit_manager failing_run sample_scope sample_clock (Some "session log")
         (Some "user_revert") sample_tree
       = (Exited 1, s')
       /\ entry "execution_0" s' = Some first_execution
       /\ is_directory wip_path s' = false.
Proof.
  split.
  - destruct (other_exit_codes_keep_executions sample_run sample_scope
                sample_clock (Some "session log") "user_tf_exec_aborted"
                "execution_0" sample_tree) as ((Hk & Hw) & _).
    + discriminate.
    + reflexivity.
    + discriminate.
    + discriminate.
    + reflexivity.
    + split; [exact Hk | apply Hw; reflexivity].
  - destruct (other_exit_codes_keep_executions failing_run sample_scope
                sample_clock (Some "session log") "user_revert"
                "execution_0" sample_tree) as (_ & H).
    + discriminate.
    + reflexivity.
    + discriminate.
    + discriminate.
    + destruct (H eq_refl) as (s' & E & K & W).
      exists s'. split; [exact E|]. split; [exact K | exact W].
Defined.

(** [BLOCKED_EXECUTIONS] is a recognised exit code outside the three
    that commit, and [exit_manager] adds the [__blocked__] folder with
    the session log to the executions folder. *)
Lemma blocked_executions_adds_sentinel :
  Diff.mem "BLOCKED_EXECUTIONS" exit_messages = true
  /\ successful_execution "BLOCKED_EXECUTIONS" = false
  /\ entry "__blocked__" sample_tree = None
  /\ entry "__blocked__"
       (snd (exit_manager sample_run sample_scope sample_clock (Some "session log")
               (Some "BLOCKED_EXECUTIONS") sample_tree))
     = Some (Dir [("full_execution.log", File "session log")]).
Proof. repeat split. Qed.

(** On [USER_TF_EXEC_COMMIT] the executions folder takes the contents of
    the [__wip__] folder, with the session log in [execution_0]. *)
Example commit_replaces_executions :
  get executions_dir
    (snd (exit_manager sample_run sample_scope sample_clock (Some "session log")
            (Some "USER_TF_EXEC_COMMIT") sample_tree))
  = Some (Dir [("execution_0",
                Dir [("execution_data.yml",
                      Yaml [("execution_id", "apaf_id_1714557600");
                            ("exit_code", "USER_TF_EXEC_COMMIT")]);
                     ("log", Dir [("00_full_execution.log", File "session log")]);
                     ("yaml", Dir [])]);
               ("execution_1", first_execution)]).
Proof. reflexivity. Qed.

End ExitFacts.

(* ------------------------------------------------------------------ *)
(** ** The rotation of the execution folders *)
(* ------------------------------------------------------------------ *)

Module FolderNames.
Import PyStr PyStrFacts Scope.
Local Open Scope string_scope.

Fixpoint all_digits (s : string) : bool :=
  match s with
  | EmptyString => true
  | String c s' => is_digit c && all_digits s'
  end.

Lemma string_of_uint_digits (d : uint) :
  all_digits (NilEmpty.string_of_uint d) = true.
Proof. induction d; simpl; auto. Qed.

Lemma digit_not_underscore (c : ascii) :
  is_digit c = true -> Ascii.eqb "_" c = false.
Proof.
  intros H. destruct (Ascii.eqb_spec "_"%char c) as [<-|]; [discriminate H | reflexivity].
Qed.

Lemma all_digits_lacks (s : string) :
  all_digits s = true -> lacks "_" s = true.
Proof.
  induction s as [|c s IH]; cbn [all_digits lacks]; [reflexivity|].
  intros H. apply andb_prop in H as [Hc Hs].
  now rewrite (digit_not_underscore c Hc), IH.
Qed.

Lemma to_uint_not_nil (n : nat) : Nat.to_uint n <> Nil.
Proof.
  intros E. pose proof (Unsigned.of_to n) as H. rewrite E in H.
  cbn in H. subst n. discriminate E.
Qed.

Lemma of_nat_digits (n : nat) : all_digits (of_nat n) = true.
Proof.
  unfold of_nat, NilZero.string_of_uint.
  destruct (Nat.to_uint n) eqn:E; try (rewrite <- E; apply string_of_uint_digits).
  reflexivity.
Qed.

Lemma to_int_digit_head (c : ascii) (s : string) :
  is_digit c = true -> to_int (String c s) = int_of_digits (String c s).
Proof.
  destruct c as [[] [] [] [] [] [] [] []]; intros H; try discriminate H; reflexivity.
Qed.

(** [int(str(n)) == n]. *)
Lemma to_int_of_nat (n : nat) : to_int (of_nat n) = Some (Z.of_nat n).
Proof.
  pose proof (of_nat_digits n) as D.
  assert (E : of_nat n = NilEmpty.string_of_uint (Nat.to_uint n)).
  { unfold of_nat, NilZero.string_of_uint.
    pose proof (to_uint_not_nil n). now destruct (Nat.to_uint n). }
  destruct (of_nat n) as [|c s] eqn:S.
  - exfalso. pose proof (NilEmpty.usu (Nat.to_uint n)) as U.
    rewrite <- E in U. cbn in U. injection U as U.
    now apply (to_uint_not_nil n).
  - cbn [all_digits] in D. apply andb_prop in D as [Dc _].
    rewrite (to_int_digit_head c s Dc). unfold int_of_digits.
    rewrite E, NilEmpty.usu. cbn [option_map]. now rewrite Unsigned.of_to.
Qed.

Lemma of_Z_of_nat (n : nat) : of_Z (Z.of_nat n) = of_nat n.
Proof.
  unfold of_Z. destruct (Z.of_nat n) eqn:E; try (now rewrite <- E, Nat2Z.id).
  lia.
Qed.

(** The name of the [n]-th execution folder. *)
Definition name (n : nat) : string := execution_name (Z.of_nat n).

Lemma name_next (n : nat) : execution_name (Z.of_nat n + 1) = name (S n).
Proof. unfold name. now rewrite Nat2Z.inj_succ. Qed.

Lemma name_starts (n : nat) : startswith (name n) "execution_" = true.
Proof. apply prefix_app. Qed.

(** [int(folder.split('_')[1])] reads the number back. *)
Lemma folder_number_name (n : nat) : folder_number (name n) = Some (Z.of_nat n).
Proof.
  unfold folder_number, name, execution_name, split. rewrite of_Z_of_nat.
  change ("execution_" ++ of_nat n) with ("execution" ++ "_" ++ of_nat n).
  rewrite (split_go_at "_" "" "execution" (of_nat n) "") by reflexivity.
  rewrite (split_go_whole "_" "" (of_nat n) "")
    by apply all_digits_lacks, of_nat_digits.
  cbn [nth_error bind append]. apply to_int_of_nat.
Qed.

Lemma name_inj (m n : nat) : name m = name n -> m = n.
Proof.
  intros E. pose proof (folder_number_name m) as H.
  rewrite E, folder_number_name in H. injection H as H. lia.
Qed.

End FolderNames.

Module RotationFacts.
Import Py Fs Os Scope FsFacts FolderNames.
Local Open Scope fs_scope.

(** *** Directory listings as association lists *)

Lemma dict_set_absent {A : Type} (es : list (string * A)) (k : string) (v : A) :
  dict_get es k = None -> dict_set es k v = es ++ [(k, v)].
Proof.
  induction es as [|[x w] es IH]; simpl; [reflexivity|].
  destruct (String.eqb k x); [discriminate|]. intros H. now rewrite IH.
Qed.

Lemma dict_get_snoc {A : Type} (es : list (string * A)) (k : string) (v : A) :
  dict_get es k = None -> dict_get (es ++ [(k, v)]) k = Some v.
Proof.
  intros N. rewrite <- (dict_set_absent es k v N). apply dict_get_set_eq.
Qed.

Lemma dict_get_In {A : Type} (es : list (string * A)) (k : string) (n : A) :
  dict_get es k = Some n -> In (k, n) es.
Proof.
  induction es as [|[x w] es IH]; simpl; [discriminate|].
  destruct (String.eqb_spec k x) as [->|_].
  - intros [= ->]. now left.
  - intros H. right. now apply IH.
Qed.

Lemma dict_get_absent {A : Type} (es : list (string * A)) (k : string) :
  dict_get es k = None -> ~ In k (map fst es).
Proof.
  induction es as [|[x w] es IH]; simpl; [tauto|].
  destruct (String.eqb_spec k x) as [->|N]; [discriminate|].
  intros H [E|I]; [congruence | now apply IH].
Qed.

Lemma dict_get_absent_keys {A : Type} (es : list (string * A)) (k : string) :
  ~ In k (map fst es) -> dict_get es k = None.
Proof.
  intros N. destruct (dict_get es k) as [v|] eqn:E; [|reflexivity].
  elim N. apply (in_map fst _ (k, v)). now apply dict_get_In.
Qed.

Lemma In_dict_get {A : Type} (es : list (string * A)) (k : string) (n : A) :
  NoDup (map fst es) -> In (k, n) es -> dict_get es k = Some n.
Proof.
  induction es as [|[x w] es IH]; simpl; [tauto|].
  intros D [E|I].
  - injection E as -> ->. now rewrite String.eqb_refl.
  - inversion D as [|? ? Nx D']; subst.
    destruct (String.eqb_spec k x) as [->|_]; [|now apply IH].
    elim Nx. now apply (in_map fst _ (x, n)).
Qed.

Lemma dict_remove_In {A : Type} (es : list (string * A)) (a k : string) (n : A) :
  In (k, n) (dict_remove es a) <-> In (k, n) es /\ k <> a.
Proof.
  unfold dict_remove. rewrite filter_In. cbn [fst].
  destruct (String.eqb_spec a k) as [->|N]; cbn [negb]; intuition congruence.
Qed.

Lemma dict_remove_keys {A : Type} (es : list (string * A)) (a : string) :
  map fst (dict_remove es a) = filter (fun k => negb (String.eqb a k)) (map fst es).
Proof.
  unfold dict_remove. induction es as [|[x w] es IH]; simpl; [reflexivity|].
  destruct (String.eqb a x); simpl; now rewrite IH.
Qed.

Lemma dict_remove_NoDup {A : Type} (es : list (string * A)) (a : string) :
  NoDup (map fst es) -> NoDup (map fst (dict_remove es a)).
Proof. intros H. rewrite dict_remove_keys. now apply NoDup_filter. Qed.

Lemma NoDup_snoc {A : Type} (l : list A) (x : A) :
  NoDup l -> ~ In x l -> NoDup (l ++ [x]).
Proof.
  intros D N. induction l as [|y l IH]; simpl.
  - constructor; [tauto | constructor].
  - inversion D as [|? ? Ny D']; subst. constructor.
    + rewrite in_app_iff. simpl. intros [I|[E|[]]]; [tauto|].
      subst. apply N. now left.
    + apply IH; [exact D'|]. intros I. apply N. now right.
Qed.

(** *** The entries of a directory after an operation on one of them *)

Lemma put_child (p : path) (k : string) (v : node) : forall s es,
  get p s = Some (Dir es) ->
  exists s', put (p ++ [k]) v s = Some s'
             /\ get p s' = Some (Dir (dict_set es k v)).
Proof.
  induction p as [|a p IH]; intros s es.
  - cbn. intros [= ->]. eexists. split; reflexivity.
  - destruct s as [| | |top]; try discriminate. cbn [get].
    destruct (dict_get top a) as [c|] eqn:E; [|discriminate]. intros G.
    destruct (IH c es G) as (c' & P & G').
    exists (Dir (dict_set top a c')). split.
    + rewrite <- app_comm_cons. cbn [put].
      destruct (p ++ [k]) eqn:Q; [now destruct p|]. now rewrite E, P.
    + cbn [get]. now rewrite dict_get_set_eq.
Qed.

Lemma del_child (p : path) (k : string) : forall s es,
  get p s = Some (Dir es) ->
  get p (del (p ++ [k]) s) = Some (Dir (dict_remove es k)).
Proof.
  induction p as [|a p IH]; intros s es.
  - cbn. now intros [= ->].
  - destruct s as [| | |top]; try discriminate. cbn [get].
    destruct (dict_get top a) as [c|] eqn:E; [|discriminate]. intros G.
    rewrite <- app_comm_cons. cbn [del].
    destruct (p ++ [k]) eqn:Q; [now destruct p|]. rewrite E.
    cbn [get]. rewrite dict_get_set_eq. now apply IH.
Qed.

Lemma mkdirs_child (p : path) (k : string) : forall s es,
  get p s = Some (Dir es) ->
  dict_get es k = None ->
  exists s', mkdirs (p ++ [k]) s = Some s'
             /\ get p s' = Some (Dir (dict_set es k (Dir []))).
Proof.
  induction p as [|a p IH]; intros s es.
  - cbn. intros [= ->] N. rewrite N. eexists. split; reflexivity.
  - destruct s as [| | |top]; try discriminate. cbn [get].
    destruct (dict_get top a) as [c|] eqn:E; [|discriminate]. intros G N.
    destruct (IH c es G N) as (c' & P & G').
    exists (Dir (dict_set top a c')). split.
    + rewrite <- app_comm_cons. cbn [mkdirs]. now rewrite E, P.
    + cbn [get]. now rewrite dict_get_set_eq.
Qed.

Lemma get_child (p : path) (k : string) (s : node) (es : entries) :
  get p s = Some (Dir es) -> get (p ++ [k]) s = dict_get es k.
Proof.
  intros G. rewrite get_app, G. cbn. now destruct (dict_get es k).
Qed.

Lemma makedirs_child (p : path) (k : string) (s : node) (es : entries) :
  get p s = Some (Dir es) ->
  dict_get es k = None ->
  exists s', makedirs (p ++ [k]) false s = (Some tt, s')
             /\ get p s' = Some (Dir (es ++ [(k, Dir [])])).
Proof.
  intros G N. unfold makedirs. rewrite (get_child p k s es G), N.
  destruct (mkdirs_child p k s es G N) as (s' & M & G').
  exists s'. unfold update. rewrite M. split; [reflexivity|].
  now rewrite <- (dict_set_absent es k (Dir []) N).
Qed.

Lemma write_child (p : path) (k : string) (v : node) (s : node) (es : entries) :
  get p s = Some (Dir es) ->
  match dict_get es k with Some (Dir _) => False | _ => True end ->
  exists s', write (p ++ [k]) v s = (Some tt, s')
             /\ get p s' = Some (Dir (dict_set es k v)).
Proof.
  intros G N. unfold write. rewrite (get_child p k s es G).
  destruct (put_child p k v s es G) as (s' & P & G').
  exists s'. unfold update. rewrite P.
  destruct (dict_get es k) as [[| | |c]|]; try contradiction; now split.
Qed.

Lemma path_eqb_siblings (p : path) (a b : string) :
  a <> b -> path_eqb (p ++ [a]) (p ++ [b]) = false.
Proof.
  intros N. unfold path_eqb.
  destruct (list_eq_dec string_dec (p ++ [a]) (p ++ [b])) as [E|_]; [|reflexivity].
  apply app_inv_head in E. congruence.
Qed.

Lemma rename_child (p : path) (a b : string) (s : node) (es : entries) (n : node) :
  get p s = Some (Dir es) ->
  dict_get es a = Some n ->
  dict_get es b = None ->
  exists s', rename (p ++ [a]) (p ++ [b]) s = (Some tt, s')
             /\ get p s' = Some (Dir (dict_remove es a ++ [(b, n)])).
Proof.
  intros G Ha Hb.
  assert (N : a <> b) by congruence.
  unfold rename. rewrite (get_child p a s es G), Ha, (path_eqb_siblings p a b N).
  rewrite (get_child p b s es G), Hb.
  destruct (put_child p b n (del (p ++ [a]) s) _ (del_child p a s es G))
    as (s' & P & G').
  exists s'. rewrite P. split; [reflexivity|].
  rewrite G'. rewrite dict_set_absent; [reflexivity|].
  now rewrite dict_get_remove_other.
Qed.

Lemma remove_directory_child (p : path) (a : string) (s : node) (es c : entries) :
  get p s = Some (Dir es) ->
  dict_get es a = Some (Dir c) ->
  exists s', remove_directory (p ++ [a]) s = (Some tt, s')
             /\ get p s' = Some (Dir (dict_remove es a)).
Proof.
  intros G Ha. exists (del (p ++ [a]) s).
  unfold remove_directory, catch, mbind, exists_, when, rmtree.
  rewrite (get_child p a s es G), Ha. cbn.
  rewrite (get_child p a s es G), Ha. cbn. split; [reflexivity|].
  now apply del_child.
Qed.

(** *** The loop over the execution folders *)

Lemma rotate_folder_name (T : Z) (j : nat) (s : node) :
  rotate_folder T (name j) s
  = if (T <? Z.of_nat j + 1)%Z
    then remove_directory (wip_path ++ [name j]) s
    else rename (wip_path ++ [name j]) (wip_path ++ [name (S j)]) s.
Proof.
  unfold rotate_folder, mbind, lift. rewrite folder_number_name. cbv zeta.
  rewrite name_next. now destruct (T <? Z.of_nat j + 1)%Z.
Qed.

(** What holds of the listing [es] of the [wip] folder while the folders
    numbered [js] are still to be rotated; [es0] is the listing the loop
    started from. *)
Record loop_inv (T : Z) (es0 : entries) (js : list nat) (es : entries) : Prop := {
  li_nodup : NoDup (map fst es);
  li_pending : forall j, In j js ->
    exists c, In (name j, Dir c) es /\ In (name j, Dir c) es0;
  li_entries : forall k n, In (k, n) es ->
    PyStr.startswith k "execution_" = true ->
    (exists j, In j js /\ k = name j)
    \/ (exists i, k = name (S i) /\ In (name i, n) es0 /\ is_dir n = true
                  /\ (Z.of_nat (S i) <= T)%Z /\ forall j, In j js -> j < i);
  li_moved : forall i n, In (name i, n) es0 -> is_dir n = true ->
    (Z.of_nat (S i) <= T)%Z -> ~ In i js -> In (name (S i), n) es;
  li_done : forall i n, In (name i, n) es0 -> is_dir n = true ->
    ~ In i js -> forall j, In j js -> j < i
}.

Lemma loop_inv_remove (T : Z) (es0 es : entries) (j : nat) (js : list nat) :
  (forall j', In j' js -> j' < j) ->
  (T < Z.of_nat j + 1)%Z ->
  loop_inv T es0 (j :: js) es ->
  loop_inv T es0 js (dict_remove es (name j)).
Proof.
  intros Hlt HT [Hnd Hp He Hm Hd]. split.
  - now apply dict_remove_NoDup.
  - intros j' I. destruct (Hp j' (or_intror I)) as (c & I1 & I0).
    exists c. split; [|exact I0]. apply dict_remove_In. split; [exact I1|].
    intros E. apply name_inj in E. specialize (Hlt j' I). lia.
  - intros k n I S. apply dict_remove_In in I as [I N].
    destruct (He k n I S) as [(j0 & [<-|I0] & ->)|(i & -> & I0 & D & L & B)].
    + now elim N.
    + left. now exists j0.
    + right. exists i. repeat split; auto. intros j' I'. apply B. now right.
  - intros i n I0 D L N.
    destruct (Nat.eq_dec i j) as [->|Nij]; [lia|].
    assert (N' : ~ In i (j :: js)) by (intros [E|I]; [congruence | tauto]).
    apply dict_remove_In. split; [now apply Hm|].
    intros E. apply name_inj in E.
    specialize (Hd i n I0 D N' j (or_introl eq_refl)). lia.
  - intros i n I0 D N j' I'.
    destruct (Nat.eq_dec i j) as [->|Nij]; [now apply Hlt|].
    apply (Hd i n I0 D); [|now right]. intros [E|I]; [congruence | tauto].
Qed.

Lemma loop_inv_target_free (T : Z) (es0 es : entries) (j : nat) (js : list nat) :
  (forall j', In j' js -> j' < j) ->
  loop_inv T es0 (j :: js) es ->
  dict_get es (name (S j)) = None.
Proof.
  intros Hlt [Hnd Hp He Hm Hd].
  destruct (dict_get es (name (S j))) as [n|] eqn:E; [|reflexivity].
  exfalso. apply dict_get_In in E.
  destruct (He _ n E (name_starts (S j)))
    as [(j0 & [<-|I0] & Ej)|(i & Ei & _ & _ & _ & B)].
  - apply name_inj in Ej. lia.
  - apply name_inj in Ej. specialize (Hlt j0 I0). lia.
  - apply name_inj in Ei. specialize (B j (or_introl eq_refl)). lia.
Qed.

Lemma loop_inv_rename (T : Z) (es0 es c : entries) (j : nat) (js : list nat) :
  NoDup (map fst es0) ->
  (forall j', In j' js -> j' < j) ->
  (Z.of_nat (S j) <= T)%Z ->
  In (name j, Dir c) es -> In (name j, Dir c) es0 ->
  loop_inv T es0 (j :: js) es ->
  loop_inv T es0 js (dict_remove es (name j) ++ [(name (S j), Dir c)]).
Proof.
  intros Hnd0 Hlt HT I1 I0 H.
  pose proof (loop_inv_target_free T es0 es j js Hlt H) as Hfree.
  destruct H as [Hnd Hp He Hm Hd]. split.
  - rewrite map_app. apply NoDup_snoc; [now apply dict_remove_NoDup|].
    rewrite dict_remove_keys, filter_In. intros [I _].
    now apply (dict_get_absent es (name (S j)) Hfree).
  - intros j' I. destruct (Hp j' (or_intror I)) as (c' & I1' & I0').
    exists c'. split; [|exact I0']. apply in_or_app. left.
    apply dict_remove_In. split; [exact I1'|].
    intros E. apply name_inj in E. specialize (Hlt j' I). lia.
  - intros k n I S. apply in_app_or in I as [I|[[= <- <-]|[]]].
    + apply dict_remove_In in I as [I N].
      destruct (He k n I S) as [(j0 & [<-|I0'] & ->)|(i & -> & I0' & D & L & B)].
      * now elim N.
      * left. now exists j0.
      * right. exists i. repeat split; auto. intros j' I'. apply B. now right.
    + right. exists j. repeat split; auto.
  - intros i n Ii D L N. apply in_or_app.
    destruct (Nat.eq_dec i j) as [->|Nij].
    + right. left. f_equal.
      pose proof (In_dict_get es0 _ _ Hnd0 Ii) as E1.
      pose proof (In_dict_get es0 _ _ Hnd0 I0) as E2. congruence.
    + left. assert (N' : ~ In i (j :: js)) by (intros [E|I]; [congruence | tauto]).
      apply dict_remove_In. split; [now apply Hm|].
      intros E. apply name_inj in E.
      specialize (Hd i n Ii D N' j (or_introl eq_refl)). lia.
  - intros i n Ii D N j' I'.
    destruct (Nat.eq_dec i j) as [->|Nij]; [now apply Hlt|].
    apply (Hd i n Ii D); [|now right]. intros [E|I]; [congruence | tauto].
Qed.

Lemma rotate_loop (T : Z) (es0 : entries) :
  NoDup (map fst es0) ->
  forall js s es,
    StronglySorted gt js ->
    get wip_path s = Some (Dir es) ->
    loop_inv T es0 js es ->
    exists s' es',
      for_each (map name js) (rotate_folder T) s = (Some tt, s')
      /\ get wip_path s' = Some (Dir es')
      /\ loop_inv T es0 [] es'.
Proof.
  intros Hnd0. induction js as [|j js IH]; intros s es Hs G H.
  - exists s, es. split; [reflexivity | split; assumption].
  - apply StronglySorted_inv in Hs as [Hs Hj].
    assert (Hlt : forall j', In j' js -> j' < j).
    { intros j' I. rewrite Forall_forall in Hj. specialize (Hj j' I). lia. }
    destruct (li_pending _ _ _ _ H j (or_introl eq_refl)) as (c & I1 & I0).
    pose proof (In_dict_get es _ _ (li_nodup _ _ _ _ H) I1) as Ej.
    cbn [map for_each]. unfold mbind at 1. rewrite rotate_folder_name.
    destruct (T <? Z.of_nat j + 1)%Z eqn:C.
    + apply Z.ltb_lt in C.
      destruct (remove_directory_child wip_path (name j) s es c G Ej)
        as (s1 & -> & G1).
      apply (IH s1 _ Hs G1). now apply loop_inv_remove.
    + apply Z.ltb_ge in C.
      destruct (rename_child wip_path (name j) (name (S j)) s es (Dir c) G Ej
                  (loop_inv_target_free T es0 es j js Hlt H))
        as (s1 & -> & G1).
      apply (IH s1 _ Hs G1). apply loop_inv_rename; auto. lia.
Qed.

(** *** The order the folders are taken in *)

(** [sort_by_key] on numbers alone. *)
Fixpoint insert_num (x : nat) (l : list nat) : list nat :=
  match l with
  | [] => [x]
  | y :: l' => if Nat.leb x y then x :: l else y :: insert_num x l'
  end.

Definition sort_num (l : list nat) : list nat := fold_right insert_num [] l.

Definition with_key (i : nat) : Z * string := (Z.of_nat i, name i).

Lemma keyed_names (l : list nat) : keyed (map name l) = Some (map with_key l).
Proof.
  induction l as [|i l IH]; cbn [map keyed]; [reflexivity|].
  now rewrite folder_number_name, IH.
Qed.

Lemma insert_by_key_names (x : nat) (l : list nat) :
  insert_by_key (with_key x) (map with_key l) = map with_key (insert_num x l).
Proof.
  induction l as [|y l IH]; cbn [map insert_by_key insert_num fst with_key];
    [reflexivity|].
  destruct (Nat.leb_spec x y) as [L|L].
  - destruct (Z.leb_spec (Z.of_nat x) (Z.of_nat y)); [reflexivity | lia].
  - destruct (Z.leb_spec (Z.of_nat x) (Z.of_nat y)); [lia|].
    cbn [map]. f_equal. exact IH.
Qed.

Lemma sort_by_key_names (l : list nat) :
  sort_by_key (map with_key l) = map with_key (sort_num l).
Proof.
  unfold sort_by_key, sort_num. induction l as [|x l IH]; cbn [map fold_right];
    [reflexivity|].
  now rewrite IH, insert_by_key_names.
Qed.

Lemma insert_num_perm (x : nat) (l : list nat) : Permutation (insert_num x l) (x :: l).
Proof.
  induction l as [|y l IH]; simpl; [reflexivity|].
  destruct (Nat.leb x y); [reflexivity|].
  rewrite IH. apply perm_swap.
Qed.

Lemma sort_num_perm (l : list nat) : Permutation (sort_num l) l.
Proof.
  unfold sort_num. induction l as [|x l IH]; simpl; [reflexivity|].
  now rewrite insert_num_perm, IH.
Qed.

Lemma insert_num_sorted (x : nat) (l : list nat) :
  StronglySorted le l -> StronglySorted le (insert_num x l).
Proof.
  induction 1 as [|y l Hs IH Hy]; simpl.
  - constructor; constructor.
  - destruct (Nat.leb_spec x y) as [L|L].
    + constructor; [now constructor|]. constructor; [exact L|].
      eapply Forall_impl; [|exact Hy]. cbn. lia.
    + constructor; [exact IH|].
      apply (Permutation_Forall (Permutation_sym (insert_num_perm x l))).
      constructor; [lia | exact Hy].
Qed.

Lemma sort_num_sorted (l : list nat) : StronglySorted le (sort_num l).
Proof.
  unfold sort_num. induction l as [|x l IH]; simpl; [constructor|].
  now apply insert_num_sorted.
Qed.

Lemma sorted_strict (l : list nat) :
  StronglySorted le l -> NoDup l -> StronglySorted lt l.
Proof.
  induction 1 as [|x l Hs IH Hx]; intros D; [constructor|].
  inversion D as [|? ? N D']; subst. constructor; [now apply IH|].
  rewrite Forall_forall in *. intros y I. specialize (Hx y I).
  assert (x <> y) by congruence. lia.
Qed.

Lemma sorted_snoc {A : Type} (R : A -> A -> Prop) (l : list A) (x : A) :
  StronglySorted R l -> Forall (fun y => R y x) l -> StronglySorted R (l ++ [x]).
Proof.
  induction 1 as [|y l Hs IH Hy]; intros F; simpl.
  - constructor; constructor.
  - inversion F as [|? ? Ryx F']; subst. constructor; [now apply IH|].
    apply Forall_app. split; [exact Hy | now constructor].
Qed.

Lemma sorted_rev (l : list nat) : StronglySorted lt l -> StronglySorted gt (List.rev l).
Proof.
  induction 1 as [|x l Hs IH Hx]; simpl; [constructor|].
  apply sorted_snoc; [exact IH|]. apply Forall_rev.
  eapply Forall_impl; [|exact Hx]. cbn. lia.
Qed.

(** *** Well-formed listings *)

(** Every entry named [execution_...] is a directory whose name is that
    of a numbered execution folder, with a number [bound] allows. *)
Definition numbered (bound : nat -> Prop) (es : entries) : Prop :=
  forall k n, In (k, n) es -> PyStr.startswith k "execution_" = true ->
    is_dir n = true /\ exists i, k = name i /\ bound i.

Lemma execution_dirs_numbers (bound : nat -> Prop) (es : entries) :
  numbered bound es ->
  exists l, map fst (filter is_execution_dir es) = map name l.
Proof.
  induction es as [|[k n] es IH]; intros H; [now exists []|].
  destruct IH as (l & E).
  { intros k' n' I. apply H. now right. }
  cbn [filter]. destruct (is_execution_dir (k, n)) eqn:X; [|now exists l].
  apply andb_prop in X as [S _]. cbn [fst] in S.
  destruct (H k n (or_introl eq_refl) S) as (_ & i & -> & _).
  exists (i :: l). cbn [map fst]. now rewrite E.
Qed.

Lemma numbers_of_execution_dirs (es : entries) (l : list nat) (i : nat) :
  map fst (filter is_execution_dir es) = map name l ->
  In i l <-> exists c, In (name i, Dir c) es.
Proof.
  intros E. split.
  - intros I. apply (in_map name) in I. rewrite <- E in I.
    apply in_map_iff in I as ([k n] & Ek & I). cbn [fst] in Ek. subst k.
    apply filter_In in I as [I X]. apply andb_prop in X as [_ D].
    cbn [snd] in D. destruct n as [| | |c]; try discriminate. now exists c.
  - intros (c & I).
    assert (I' : In (name i) (map fst (filter is_execution_dir es))).
    { apply (in_map fst _ (name i, Dir c)). apply filter_In. split; [exact I|].
      unfold is_execution_dir. cbn [fst snd is_dir]. now rewrite name_starts. }
    rewrite E in I'. apply in_map_iff in I' as (i' & Ei & I').
    apply name_inj in Ei. now subst.
Qed.

Lemma filter_keys_NoDup {A : Type} (f : string * A -> bool) (es : list (string * A)) :
  NoDup (map fst es) -> NoDup (map fst (filter f es)).
Proof.
  induction es as [|[k n] es IH]; intros D; [constructor|].
  inversion D as [|? ? N D']; subst. cbn [filter].
  destruct (f (k, n)); [|now apply IH]. cbn [map fst]. constructor; [|now apply IH].
  intros I. apply N. apply in_map_iff in I as (kv & E & I).
  apply filter_In in I as [I _]. apply in_map_iff. now exists kv.
Qed.

Lemma rotate_execution_dirs_spec (T : Z) (s : node) (es : entries) :
  get wip_path s = Some (Dir es) ->
  NoDup (map fst es) ->
  numbered (fun _ => True) es ->
  exists s' es',
    rotate_execution_dirs T s = (Some tt, s')
    /\ get wip_path s' = Some (Dir es')
    /\ loop_inv T es [] es'.
Proof.
  intros G D H.
  destruct (execution_dirs_numbers _ es H) as (l & E).
  assert (Dl : NoDup l).
  { apply (NoDup_map_inv name). rewrite <- E. now apply filter_keys_NoDup. }
  set (js := List.rev (sort_num l)).
  assert (Pjs : forall i, In i js <-> exists c, In (name i, Dir c) es).
  { intros i. rewrite <- (numbers_of_execution_dirs es l i E). unfold js.
    rewrite <- in_rev. split; apply Permutation_in;
      [apply sort_num_perm | apply Permutation_sym, sort_num_perm]. }
  assert (Sjs : StronglySorted gt js).
  { apply sorted_rev, sorted_strict; [apply sort_num_sorted|].
    apply (Permutation_NoDup (Permutation_sym (sort_num_perm l)) Dl). }
  unfold rotate_execution_dirs, mbind at 1, list_execution_dirs. rewrite G, E.
  unfold mbind at 1, lift. rewrite keyed_names. cbn [option_map].
  rewrite sort_by_key_names, map_map. cbn [with_key snd].
  rewrite <- map_rev. fold js.
  apply (rotate_loop T es D js s es Sjs G). split.
  - exact D.
  - intros j I. apply Pjs in I as (c & I). now exists c.
  - intros k n I S. left. destruct (H k n I S) as (Dn & i & -> & _).
    exists i. split; [|reflexivity]. apply Pjs.
    destruct n as [| | |c]; try discriminate. now exists c.
  - intros i n I Dn _ N. elim N. apply Pjs.
    destruct n as [| | |c]; try discriminate. now exists c.
  - intros i n I Dn N. elim N. apply Pjs.
    destruct n as [| | |c]; try discriminate. now exists c.
Qed.

(** *** The shape of a listing: names and kinds *)

Definition shape (es : entries) : list (string * bool) :=
  map (fun kv => (fst kv, is_dir (snd kv))) es.

Definition shape_at (p : path) (s : node) : option (list (string * bool)) :=
  match get p s with
  | Some (Dir es) => Some (shape es)
  | _ => None
  end.

Lemma shape_set (es : entries) (k : string) (c c' : node) :
  dict_get es k = Some c -> is_dir c' = is_dir c ->
  shape (dict_set es k c') = shape es.
Proof.
  intros G D. induction es as [|[x w] es IH]; [discriminate|].
  cbn [dict_get] in G. cbn [dict_set].
  destruct (String.eqb k x); cbn [shape map fst snd].
  - injection G as ->. now rewrite D.
  - f_equal. now apply IH.
Qed.

Lemma dict_get_shape (es : entries) (k : string) :
  dict_get (shape es) k = option_map is_dir (dict_get es k).
Proof.
  induction es as [|[x w] es IH]; [reflexivity|].
  cbn [shape map dict_get fst snd]. now destruct (String.eqb k x).
Qed.

Lemma shape_keys (es : entries) : map fst (shape es) = map fst es.
Proof. unfold shape. rewrite map_map. reflexivity. Qed.

Lemma shape_app (es es' : entries) : shape (es ++ es') = shape es ++ shape es'.
Proof. apply map_app. Qed.

Lemma put_deeper_dir (x : string) (r : path) (v c c' : node) :
  put (x :: r) v c = Some c' -> is_dir c = true /\ is_dir c' = true.
Proof.
  destruct c as [| | |es]; try discriminate. cbn [put].
  destruct r as [|y r].
  - now intros [= <-].
  - destruct (dict_get es x) as [d|]; [|discriminate].
    destruct (put (y :: r) v d); [|discriminate]. now intros [= <-].
Qed.

Lemma del_is_dir (p : path) (c : node) : is_dir (del p c) = is_dir c.
Proof.
  destruct p as [|x r]; [reflexivity|].
  destruct c as [| | |es]; try reflexivity. cbn [del].
  destruct r; [reflexivity|]. now destruct (dict_get es x).
Qed.

Lemma mkdirs_dir (p : path) (c c' : node) :
  mkdirs p c = Some c' -> is_dir c = true /\ is_dir c' = true.
Proof.
  destruct c as [| | |es]; try (destruct p; discriminate).
  destruct p as [|x r]; cbn [mkdirs].
  - now intros [= <-].
  - destruct (mkdirs r _); [|discriminate]. now intros [= <-].
Qed.

Lemma put_cons (k y : string) (q : path) (v : node) (top : entries) :
  put (k :: y :: q) v (Dir top)
  = match dict_get top k with
    | Some c =>
        match put (y :: q) v c with
        | Some c' => Some (Dir (dict_set top k c'))
        | None => None
        end
    | None => None
    end.
Proof. reflexivity. Qed.

Lemma del_cons (k y : string) (q : path) (top : entries) :
  del (k :: y :: q) (Dir top)
  = match dict_get top k with
    | Some c => Dir (dict_set top k (del (y :: q) c))
    | None => Dir top
    end.
Proof. reflexivity. Qed.

Lemma mkdirs_cons (k : string) (q : path) (top : entries) :
  mkdirs (k :: q) (Dir top)
  = match mkdirs q (match dict_get top k with
                    | Some c => c
                    | None => Dir []
                    end) with
    | Some c' => Some (Dir (dict_set top k c'))
    | None => None
    end.
Proof. reflexivity. Qed.

Lemma get_cons (k : string) (q : path) (top : entries) :
  get (k :: q) (Dir top)
  = match dict_get top k with Some c => get q c | None => None end.
Proof. reflexivity. Qed.

Lemma shape_put_below (p : path) (k x : string) (r : path) : forall v s s',
  put (p ++ k :: x :: r) v s = Some s' -> shape_at p s' = shape_at p s.
Proof.
  induction p as [|a p IH]; intros v s s';
    (destruct s as [| | |top]; [cbn; discriminate..|]).
  - rewrite app_nil_l, put_cons.
    destruct (dict_get top k) as [c|] eqn:E; [|discriminate].
    destruct (put (x :: r) v c) as [c'|] eqn:P; [|discriminate].
    intros [= <-]. unfold shape_at. cbn [get]. f_equal.
    apply (shape_set top k c c' E).
    destruct (put_deeper_dir x r v c c' P). congruence.
  - rewrite <- app_comm_cons.
    destruct (p ++ k :: x :: r) as [|y q] eqn:Q; [now destruct p|].
    rewrite put_cons.
    destruct (dict_get top a) as [c|] eqn:E; [|discriminate].
    destruct (put (y :: q) v c) as [c'|] eqn:P; [|discriminate].
    intros [= <-]. unfold shape_at. rewrite !get_cons, dict_get_set_eq, E.
    exact (IH v c c' P).
Qed.

Lemma shape_del_below (p : path) (k x : string) (r : path) : forall s,
  shape_at p (del (p ++ k :: x :: r) s) = shape_at p s.
Proof.
  induction p as [|a p IH]; intros s;
    (destruct s as [| | |top]; [reflexivity..|]).
  - rewrite app_nil_l, del_cons.
    destruct (dict_get top k) as [c|] eqn:E; [|reflexivity].
    unfold shape_at. cbn [get]. f_equal.
    apply (shape_set top k c _ E). apply del_is_dir.
  - rewrite <- app_comm_cons.
    destruct (p ++ k :: x :: r) as [|y q] eqn:Q; [now destruct p|].
    rewrite del_cons.
    destruct (dict_get top a) as [c|] eqn:E; [|reflexivity].
    unfold shape_at. rewrite !get_cons, dict_get_set_eq, E.
    exact (IH c).
Qed.

Lemma shape_mkdirs_below (p : path) (k x : string) (r : path) : forall s s',
  get (p ++ [k]) s <> None ->
  mkdirs (p ++ k :: x :: r) s = Some s' -> shape_at p s' = shape_at p s.
Proof.
  induction p as [|a p IH]; intros s s';
    (destruct s as [| | |top]; [intros _; cbn; discriminate..|]).
  - rewrite !app_nil_l, mkdirs_cons, get_cons.
    destruct (dict_get top k) as [c|] eqn:E; [|easy].
    intros _. destruct (mkdirs (x :: r) c) as [c'|] eqn:M; [|discriminate].
    intros [= <-]. unfold shape_at. cbn [get]. f_equal.
    apply (shape_set top k c c' E).
    destruct (mkdirs_dir _ c c' M). congruence.
  - rewrite <- !app_comm_cons. rewrite mkdirs_cons, get_cons.
    destruct (dict_get top a) as [c|] eqn:E; [|easy]. intros G.
    destruct (mkdirs (p ++ k :: x :: r) c) as [c'|] eqn:M; [|discriminate].
    intros [= <-]. unfold shape_at. rewrite !get_cons, dict_get_set_eq, E.
    exact (IH c c' G M).
Qed.

(** *** Operations strictly below a folder *)

(** [P] survives whatever is done strictly below [p], and implies that
    [p] exists. *)
Record sheltered (P : node -> Prop) (p : path) : Prop := {
  sheltered_put : forall x r v s s',
    P s -> put (p ++ x :: r) v s = Some s' -> P s';
  sheltered_del : forall x r s, P s -> P (del (p ++ x :: r) s);
  sheltered_mkdirs : forall x r s s',
    P s -> mkdirs (p ++ x :: r) s = Some s' -> P s';
  sheltered_exists : forall s, P s -> get p s <> None
}.

Definition below (p p' : path) : Prop := exists x r, p' = p ++ x :: r.

Lemma below_app (p p' r : path) : below p p' -> below p (p' ++ r).
Proof.
  intros (x & q & ->). exists x, (q ++ r). now rewrite <- app_assoc.
Qed.

Section Sheltered.

Variables (P : node -> Prop) (p : path).
Hypothesis Hp : sheltered P p.

Lemma preserves_makedirs_at (exist_ok : bool) : preserves P (makedirs p exist_ok).
Proof.
  intros s H. unfold makedirs. pose proof (sheltered_exists P p Hp s H) as E.
  destruct (get p s) as [[| | |es]|]; try exact H; [|easy].
  now destruct exist_ok.
Qed.

Lemma preserves_makedirs (p' : path) (exist_ok : bool) :
  below p p' -> preserves P (makedirs p' exist_ok).
Proof.
  intros (x & r & ->) s H. unfold makedirs, update.
  destruct (get (p ++ x :: r) s) as [[| | |es]|]; try exact H.
  - now destruct exist_ok.
  - destruct (mkdirs (p ++ x :: r) s) as [s'|] eqn:M; [|exact H].
    exact (sheltered_mkdirs P p Hp x r s s' H M).
Qed.

Lemma preserves_write (p' : path) (v : node) :
  below p p' -> preserves P (write p' v).
Proof.
  intros (x & r & ->) s H. unfold write, update.
  assert (G : P (snd match put (p ++ x :: r) v s with
                     | Some s' => (Some tt, s')
                     | None => (None, s)
                     end)).
  { destruct (put (p ++ x :: r) v s) as [s'|] eqn:M; [|exact H].
    exact (sheltered_put P p Hp x r v s s' H M). }
  destruct (get (p ++ x :: r) s) as [[| | |es]|]; try exact G. exact H.
Qed.

Lemma preserves_copy2 (src dst : path) :
  below p dst -> preserves P (copy2 src dst).
Proof.
  intros B s H. unfold copy2.
  destruct (get src s) as [[| | |es]|]; try exact H;
    destruct (get dst s) as [[| | |es']|];
    first [ exact (preserves_write dst _ B s H)
          | exact (preserves_write _ _ (below_app p dst _ B) s H) ].
Qed.

Lemma preserves_copy_file (src dst : path) :
  below p (dirname dst) -> below p dst -> preserves P (copy_file src dst).
Proof.
  intros Bd B. apply preserves_catch, preserves_bind;
    [now apply preserves_read | intros b].
  apply preserves_when, preserves_bind; [now apply preserves_read | intros d].
  apply preserves_bind.
  - now apply preserves_when, preserves_makedirs.
  - intros _. now apply preserves_copy2.
Qed.

Lemma preserves_create_tgz_from_dir (folder out : path) :
  below p out -> preserves P (create_tgz_from_dir folder out).
Proof.
  intros B s H. unfold create_tgz_from_dir, catch. cbn [snd].
  destruct (get folder s) as [n|].
  - now apply preserves_write.
  - apply (preserves_bind P (write out (File "")) (fun _ => raise)); auto.
    + now apply preserves_write.
    + intros _ t Ht. exact Ht.
Qed.

End Sheltered.

(** *** What the steps of the initial stage leave alone *)

Lemma untouched_under {X : Type} (obs : node -> X) (p p' : path) :
  untouched obs p -> under p p' -> untouched obs p'.
Proof.
  intros [P D K] (q & ->). split; intros r; rewrite <- app_assoc.
  - apply P.
  - apply D.
  - apply K.
Qed.

Section StableStage.

Context {X : Type} (obs : node -> X).

Lemma stable_handle_execution_data_file_create (sc : scope) (now : clock)
  (d : list (string * string)) :
  untouched obs wip_execution_0_path ->
  stable obs (handle_execution_data_file_create sc now d).
Proof.
  intros U. apply stable_catch, stable_bind; [apply stable_exists | intros b].
  apply stable_bind.
  - apply stable_when, (stable_makedirs obs _ U). exists []. now rewrite app_nil_r.
  - intros _. apply (stable_write obs _ U). eexists. reflexivity.
Qed.

Lemma stable_fill_execution_0 (sc : scope) (now : clock) :
  untouched obs wip_execution_0_path -> stable obs (fill_execution_0 sc now).
Proof.
  intros U. unfold fill_execution_0.
  apply stable_bind; [now apply stable_handle_execution_data_file_create | intros _].
  repeat (apply stable_bind;
          [apply (stable_makedirs obs _ U); eexists; reflexivity | intros _]).
  apply (stable_makedirs obs _ U). eexists. reflexivity.
Qed.

Lemma stable_create_execution_0 (sc : scope) (now : clock) :
  untouched obs wip_execution_0_path -> stable obs (create_execution_0 sc now).
Proof.
  intros U. apply stable_bind; [apply stable_exists | intros b].
  apply stable_when, stable_bind.
  - apply (stable_makedirs obs _ U). exists []. now rewrite app_nil_r.
  - intros _. now apply stable_fill_execution_0.
Qed.

Lemma stable_snapshot_input :
  untouched obs wip_execution_0_path -> stable obs snapshot_input.
Proof.
  intros U. apply stable_bind; [apply stable_exists | intros bi].
  apply stable_bind; [apply stable_exists | intros by_].
  apply stable_when, (stable_create_tgz_from_dir obs _ U). eexists. reflexivity.
Qed.

Lemma stable_carry_over (sc : scope) :
  untouched obs wip_execution_0_path ->
  untouched obs input_tgz_reverted_path ->
  stable obs (carry_over sc).
Proof.
  intros U V. apply stable_bind; [apply stable_exists | intros b1].
  apply stable_when, stable_bind; [apply stable_exists | intros bt].
  apply stable_bind.
  { apply stable_when, (stable_copy2 obs _ U). eexists. reflexivity. }
  intros _. apply stable_bind; [apply stable_exists | intros bz].
  apply stable_bind.
  { apply stable_when, (stable_copy2 obs _ U). eexists. reflexivity. }
  intros _. apply stable_when, stable_bind; [apply stable_exists | intros br].
  apply stable_when, stable_bind.
  - apply (stable_copy_file obs _ U); [eexists; reflexivity | discriminate].
  - intros _. apply (stable_remove_directory obs _ V). exists [].
    now rewrite app_nil_r.
Qed.

Lemma stable_rotate_folder (T : Z) (folder : string) :
  untouched obs wip_path -> stable obs (rotate_folder T folder).
Proof.
  intros U. apply stable_bind; [apply stable_lift | intros n]. cbv zeta.
  destruct (T <? n + 1)%Z.
  - apply (stable_remove_directory obs _ U). eexists. reflexivity.
  - apply (stable_rename obs _ U); eexists; reflexivity.
Qed.

Lemma stable_rotate_execution_dirs (T : Z) :
  untouched obs wip_path -> stable obs (rotate_execution_dirs T).
Proof.
  intros U. apply stable_bind; [now apply stable_read | intros l].
  apply stable_bind; [apply stable_lift | intros sorted].
  apply stable_for_each. intros folder. now apply stable_rotate_folder.
Qed.

Lemma stable_initial_stage (sc : scope) (now : clock) (T : Z) :
  untouched obs output_path -> stable obs (initial_stage sc now T).
Proof.
  intros U.
  assert (Uw : untouched obs wip_path)
    by (apply (untouched_under obs _ _ U); eexists; reflexivity).
  assert (U0 : untouched obs wip_execution_0_path)
    by (apply (untouched_under obs _ _ U); eexists; reflexivity).
  assert (Ur : untouched obs input_tgz_reverted_path)
    by (apply (untouched_under obs _ _ U); eexists; reflexivity).
  apply stable_bind; [apply stable_exists | intros br].
  apply stable_bind.
  { apply stable_when, (stable_makedirs obs _ Ur). exists []. now rewrite app_nil_r. }
  intros _. apply stable_bind; [apply stable_exists | intros bw].
  apply stable_bind.
  { apply stable_when, (stable_makedirs obs _ Uw). exists []. now rewrite app_nil_r. }
  intros _. apply stable_bind; [now apply stable_rotate_execution_dirs | intros _].
  apply stable_bind; [now apply stable_create_execution_0 | intros _].
  apply stable_bind; [now apply stable_snapshot_input | intros _].
  now apply stable_carry_over.
Qed.

End StableStage.

Lemma initial_stage_keeps_input (sc : scope) (now : clock) (T : Z) (s : node) :
  get input_path (snd (manage_execution_dirs sc now "initial_stage" T s))
  = get input_path s.
Proof.
  unfold manage_execution_dirs, catch. cbn [String.eqb Ascii.eqb Bool.eqb snd].
  apply stable_initial_stage. now apply untouched_get.
Qed.

(** *** The listing of the [wip] folder once [execution_0] is there *)

Lemma wip_shape_sheltered (sh : list (string * bool)) (k : string) :
  dict_get sh k <> None ->
  sheltered (fun s => shape_at wip_path s = Some sh) (wip_path ++ [k]).
Proof.
  intros N.
  assert (E : forall s, shape_at wip_path s = Some sh ->
                        get (wip_path ++ [k]) s <> None).
  { intros s H. unfold shape_at in H.
    destruct (get wip_path s) as [[| | |es]|] eqn:G; try discriminate.
    injection H as <-. rewrite (get_child _ k s es G).
    rewrite dict_get_shape in N. now destruct (dict_get es k). }
  split.
  - intros x r v s s' H M. rewrite <- app_assoc in M.
    now rewrite (shape_put_below _ _ _ _ _ _ _ M).
  - intros x r s H. rewrite <- app_assoc. cbn [List.app].
    now rewrite shape_del_below.
  - intros x r s s' H M. rewrite <- app_assoc in M.
    now rewrite (shape_mkdirs_below _ _ _ _ _ _ (E s H) M).
  - exact E.
Qed.

Section ShelteredStage.

Variable P : node -> Prop.
Hypothesis HP : sheltered P wip_execution_0_path.

Ltac inside := eexists; eexists; reflexivity.

Lemma preserves_fill_execution_0 (sc : scope) (now : clock) :
  preserves P (fill_execution_0 sc now).
Proof.
  unfold fill_execution_0. apply preserves_bind; [|intros _].
  { apply preserves_catch, preserves_bind; [now apply preserves_read | intros b].
    apply preserves_bind.
    - apply preserves_when, (preserves_makedirs_at P _ HP).
    - intros _. apply (preserves_write P _ HP). inside. }
  repeat (apply preserves_bind;
          [apply (preserves_makedirs P _ HP); inside | intros _]).
  apply (preserves_makedirs P _ HP). inside.
Qed.

Lemma preserves_snapshot_input : preserves P snapshot_input.
Proof.
  apply preserves_bind; [now apply preserves_read | intros bi].
  apply preserves_bind; [now apply preserves_read | intros by_].
  apply preserves_when, (preserves_create_tgz_from_dir P _ HP). inside.
Qed.

Lemma preserves_carry_over (sc : scope) :
  preserves P (remove_directory input_tgz_reverted_path) ->
  preserves P (carry_over sc).
Proof.
  intros V. apply preserves_bind; [now apply preserves_read | intros b1].
  apply preserves_when, preserves_bind; [now apply preserves_read | intros bt].
  apply preserves_bind.
  { apply preserves_when, (preserves_copy2 P _ HP). inside. }
  intros _. apply preserves_bind; [now apply preserves_read | intros bz].
  apply preserves_bind.
  { apply preserves_when, (preserves_copy2 P _ HP). inside. }
  intros _. apply preserves_when, preserves_bind;
    [now apply preserves_read | intros br].
  apply preserves_when, preserves_bind; [|intros _; exact V].
  apply (preserves_copy_file P _ HP); inside.
Qed.

End ShelteredStage.

(** [carry_over] writes next to the snapshot of the input folder, not
    over it. *)
Lemma copy_file_keeps_sibling (src d : path) (k k' : string) :
  k <> k' -> stable (get (d ++ [k'])) (copy_file src (d ++ [k])).
Proof.
  intros N.
  assert (U : untouched (get (d ++ [k'])) (d ++ [k]))
    by now apply untouched_get, diverge_siblings.
  apply stable_catch, stable_bind; [apply stable_isfile | intros b].
  apply stable_when, stable_bind; [apply stable_isdir | intros t].
  apply stable_bind.
  - apply stable_when. unfold dirname. rewrite removelast_last.
    intros s. unfold makedirs.
    destruct (get d s) as [[| | |es]|]; try reflexivity.
    apply stable_update. intros s1 s2. apply get_mkdirs_below.
  - intros _. apply (stable_copy2 _ _ U). exists []. now rewrite app_nil_r.
Qed.

Lemma carry_over_keeps_snapshot (sc : scope) :
  stable (get wip_execution_0_input_tgz_file) (carry_over sc).
Proof.
  apply stable_bind; [apply stable_exists | intros b1].
  apply stable_when, stable_bind; [apply stable_exists | intros bt].
  apply stable_bind.
  { apply stable_when, (stable_copy2 _ wip_execution_0_tfstate_path).
    - now apply untouched_get.
    - exists []. now rewrite app_nil_r. }
  intros _. apply stable_bind; [apply stable_exists | intros bz].
  apply stable_bind.
  { apply stable_when, (stable_copy2 _ wip_execution_0_input_tgz_rollback_file).
    - apply untouched_get, diverge_siblings. discriminate.
    - exists []. now rewrite app_nil_r. }
  intros _. apply stable_when, stable_bind; [apply stable_exists | intros br].
  apply stable_when, stable_bind.
  - apply copy_file_keeps_sibling. discriminate.
  - intros _. apply (stable_remove_directory _ input_tgz_reverted_path).
    + now apply untouched_get.
    + exists []. now rewrite app_nil_r.
Qed.

(** *** The new [execution_0] and the snapshot of the input folder *)

Lemma handle_execution_data_file_create_spec (sc : scope) (now : clock)
  (d : list (string * string)) (s : node) :
  get wip_execution_0_path s = Some (Dir []) ->
  exists s1 v,
    handle_execution_data_file_create sc now d s = (Some tt, s1)
    /\ get wip_execution_0_path s1 = Some (Dir [(execution_data_filename, v)]).
Proof.
  intros G. unfold handle_execution_data_file_create, catch, mbind, exists_.
  change wip_execution_data_path with wip_execution_0_path. rewrite G.
  cbn [negb when ret fst snd].
  match goal with
  | |- context [write ?f ?v s] =>
      destruct (write_child wip_execution_0_path execution_data_filename v s []
                  G I) as (s1 & W & G1);
      exists s1, v
  end.
  unfold execution_data_file.
  change wip_execution_data_path with wip_execution_0_path. rewrite W.
  split; [reflexivity | exact G1].
Qed.

Lemma fill_execution_0_spec (sc : scope) (now : clock) (s : node) :
  get wip_execution_0_path s = Some (Dir []) ->
  exists s',
    fill_execution_0 sc now s = (Some tt, s')
    /\ get wip_execution_0_yaml_path s' = Some (Dir []).
Proof.
  intros G.
  destruct (handle_execution_data_file_create_spec sc now (scope_data sc) s G)
    as (s1 & v & E1 & G1).
  destruct (makedirs_child wip_execution_0_path "tfstate" s1 _ G1 eq_refl)
    as (s2 & E2 & G2).
  destruct (makedirs_child wip_execution_0_path "yaml" s2 _ G2 eq_refl)
    as (s3 & E3 & G3).
  destruct (makedirs_child wip_execution_0_path "log" s3 _ G3 eq_refl)
    as (s4 & E4 & G4).
  destruct (makedirs_child wip_execution_0_path "tfplan" s4 _ G4 eq_refl)
    as (s5 & E5 & G5).
  destruct (makedirs_child wip_execution_0_path snapshot_dir_name s5 _ G5 eq_refl)
    as (s6 & E6 & G6).
  exists s6. split.
  - unfold fill_execution_0.
    rewrite (mbind_ok _ _ _ _ _ E1), (mbind_ok _ _ _ _ _ E2),
      (mbind_ok _ _ _ _ _ E3), (mbind_ok _ _ _ _ _ E4), (mbind_ok _ _ _ _ _ E5).
    exact E6.
  - unfold wip_execution_0_yaml_path.
    now rewrite (get_child wip_execution_0_path "yaml" s6 _ G6).
Qed.

Lemma create_execution_0_spec (sc : scope) (now : clock) (s : node) (es : entries) :
  get wip_path s = Some (Dir es) ->
  dict_get es "execution_0" = None ->
  exists s',
    create_execution_0 sc now s = (Some tt, s')
    /\ get wip_execution_0_yaml_path s' = Some (Dir [])
    /\ shape_at wip_path s' = Some (shape es ++ [("execution_0", true)]).
Proof.
  intros G N.
  destruct (makedirs_child wip_path "execution_0" s es G N) as (s1 & E1 & G1).
  assert (G0 : get wip_execution_0_path s1 = Some (Dir [])).
  { unfold wip_execution_0_path. rewrite (get_child _ "execution_0" s1 _ G1).
    rewrite <- (dict_set_absent es "execution_0" (Dir []) N).
    apply dict_get_set_eq. }
  destruct (fill_execution_0_spec sc now s1 G0) as (s2 & E2 & Gy).
  exists s2. split; [|split; [exact Gy|]].
  - unfold create_execution_0, mbind at 1, exists_.
    unfold wip_execution_0_path at 1.
    rewrite (get_child _ "execution_0" s es G), N. cbn [negb when].
    now rewrite (mbind_ok _ _ _ _ _ E1).
  - set (sh := shape es ++ [("execution_0", true)]).
    assert (H1 : shape_at wip_path s1 = Some sh).
    { unfold shape_at. rewrite G1. now rewrite shape_app. }
    assert (Hk : dict_get sh "execution_0" <> None).
    { unfold sh. rewrite dict_get_snoc; [discriminate|].
      now rewrite dict_get_shape, N. }
    pose proof (preserves_fill_execution_0 _
                  (wip_shape_sheltered sh "execution_0" Hk) sc now s1 H1) as H2.
    now rewrite E2 in H2.
Qed.

Lemma snapshot_input_spec (s : node) (inp : node) :
  get input_path s = Some inp ->
  get wip_execution_0_yaml_path s = Some (Dir []) ->
  exists s',
    snapshot_input s = (Some tt, s')
    /\ get wip_execution_0_input_tgz_file s' = Some (Tgz "input" inp).
Proof.
  intros Gi Gy.
  destruct (write_child wip_execution_0_yaml_path "input.tgz"
              (Tgz (basename input_path) inp) s [] Gy I) as (s1 & W & G1).
  exists s1. split.
  - unfold snapshot_input, mbind, exists_. rewrite Gi, Gy. cbn [andb when].
    unfold create_tgz_from_dir, catch. rewrite Gi.
    unfold wip_execution_0_input_tgz_file. now rewrite W.
  - unfold wip_execution_0_input_tgz_file.
    now rewrite (get_child _ "input.tgz" s1 _ G1).
Qed.

(** *** One call of the initial stage *)

Lemma rotated_frees_execution_0 (T : Z) (es es1 : entries) :
  loop_inv T es [] es1 -> dict_get es1 "execution_0" = None.
Proof.
  intros L. destruct (dict_get es1 "execution_0") as [n|] eqn:E; [|reflexivity].
  exfalso. apply dict_get_In in E.
  destruct (li_entries _ _ _ _ L _ n E eq_refl) as [(j & [] & _)|(i & Ei & _)].
  apply (name_inj 0 (S i)) in Ei. discriminate.
Qed.

Lemma exists_run (p : path) (s : node) :
  exists_ p s = (Some match get p s with Some _ => true | None => false end, s).
Proof. reflexivity. Qed.

Lemma ensure_reverted_folder (s : node) (es : entries) :
  get wip_path s = Some (Dir es) ->
  exists s0,
    when (negb match get input_tgz_reverted_path s with
               | Some _ => true
               | None => false
               end)
      (makedirs input_tgz_reverted_path false) s = (Some tt, s0)
    /\ get wip_path s0 = Some (Dir es)
    /\ get input_path s0 = get input_path s.
Proof.
  intros G.
  destruct (get input_tgz_reverted_path s) as [n|] eqn:R; cbn [negb when].
  - exists s. now repeat split.
  - destruct (get_parent executions_dir "__wip__" s _ G) as (ee & Ge).
    destruct (get_parent output_path "executions" s _ Ge) as (eo & Go).
    assert (N : dict_get eo "input_tgz_reverted" = None).
    { rewrite <- (get_child output_path _ s eo Go). exact R. }
    destruct (makedirs_child output_path "input_tgz_reverted" s eo Go N)
      as (s0 & E & _).
    assert (U : under input_tgz_reverted_path input_tgz_reverted_path)
      by (exists []; now rewrite app_nil_r).
    exists s0. split; [exact E|]. split.
    + rewrite <- G.
      pose proof (stable_makedirs (get wip_path) input_tgz_reverted_path
                    (untouched_get input_tgz_reverted_path wip_path eq_refl)
                    _ false U s) as K.
      unfold input_tgz_reverted_path at 1 in K. now rewrite E in K.
    + pose proof (stable_makedirs (get input_path) input_tgz_reverted_path
                    (untouched_get input_tgz_reverted_path input_path eq_refl)
                    _ false U s) as K.
      unfold input_tgz_reverted_path at 1 in K. now rewrite E in K.
Qed.

Lemma initial_stage_spec (sc : scope) (now : clock) (T : Z) (s : node)
  (es : entries) (inp : node) :
  get wip_path s = Some (Dir es) ->
  NoDup (map fst es) ->
  numbered (fun _ => True) es ->
  get input_path s = Some inp ->
  exists es1 es',
    loop_inv T es [] es1
    /\ get wip_path (snd (initial_stage sc now T s)) = Some (Dir es')
    /\ shape es' = shape es1 ++ [("execution_0", true)]
    /\ (forall k, k <> "execution_0" -> dict_get es' k = dict_get es1 k)
    /\ get wip_execution_0_input_tgz_file (snd (initial_stage sc now T s))
       = Some (Tgz "input" inp)
    /\ get input_path (snd (initial_stage sc now T s)) = Some inp.
Proof.
  intros G D H Gi.
  destruct (ensure_reverted_folder s es G) as (s0 & E0 & G0 & Gi0).
  destruct (rotate_execution_dirs_spec T s0 es G0 D H) as (s1 & es1 & E1 & G1 & L).
  pose proof (rotated_frees_execution_0 T es es1 L) as N0.
  destruct (create_execution_0_spec sc now s1 es1 G1 N0) as (s2 & E2 & Gy2 & Sh2).
  assert (K1 : forall q, diverge wip_path q = true -> get q s1 = get q s0).
  { intros q Hq.
    pose proof (stable_rotate_execution_dirs (get q) T (untouched_get _ _ Hq) s0) as K.
    now rewrite E1 in K. }
  assert (K2 : forall q, diverge wip_execution_0_path q = true ->
                         get q s2 = get q s1).
  { intros q Hq.
    pose proof (stable_create_execution_0 (get q) sc now (untouched_get _ _ Hq) s1)
      as K.
    now rewrite E2 in K. }
  assert (Gi2 : get input_path s2 = Some inp).
  { rewrite (K2 input_path eq_refl), (K1 input_path eq_refl). congruence. }
  destruct (snapshot_input_spec s2 inp Gi2 Gy2) as (s3 & E3 & Gz3).
  assert (K3 : forall q, diverge wip_execution_0_path q = true ->
                         get q s3 = get q s2).
  { intros q Hq.
    pose proof (stable_snapshot_input (get q) (untouched_get _ _ Hq) s2) as K.
    now rewrite E3 in K. }
  set (s4 := snd (carry_over sc s3)).
  assert (K4 : forall q, diverge wip_execution_0_path q = true ->
                         diverge input_tgz_reverted_path q = true ->
                         get q s4 = get q s3).
  { intros q Hq Hr.
    exact (stable_carry_over (get q) sc (untouched_get _ _ Hq)
             (untouched_get _ _ Hr) s3). }
  assert (Es : snd (initial_stage sc now T s) = s4).
  { unfold initial_stage.
    rewrite (mbind_ok _ _ _ _ _ (exists_run _ s)). cbv beta.
    rewrite (mbind_ok _ _ _ _ _ E0).
    rewrite (mbind_ok _ _ _ _ _ (exists_run _ s0)). cbv beta.
    rewrite G0. cbn [negb when]. unfold mbind at 1, ret at 1.
    rewrite (mbind_ok _ _ _ _ _ E1), (mbind_ok _ _ _ _ _ E2),
      (mbind_ok _ _ _ _ _ E3).
    reflexivity. }
  rewrite Es.
  set (sh := shape es1 ++ [("execution_0", true)]) in *.
  assert (Hk : dict_get sh "execution_0" <> None).
  { unfold sh. rewrite dict_get_snoc; [discriminate|].
    now rewrite dict_get_shape, N0. }
  pose proof (wip_shape_sheltered sh "execution_0" Hk) as HP.
  assert (Sh3 : shape_at wip_path s3 = Some sh).
  { pose proof (preserves_snapshot_input _ HP s2 Sh2) as K. now rewrite E3 in K. }
  assert (Sh4 : shape_at wip_path s4 = Some sh).
  { apply (preserves_carry_over _ HP sc); [|exact Sh3].
    apply preserves_stable.
    apply (stable_remove_directory _ input_tgz_reverted_path).
    - exact (untouched_map (get wip_path)
               (fun o => match o with
                         | Some (Dir es) => Some (shape es)
                         | _ => None
                         end)
               _ (untouched_get input_tgz_reverted_path wip_path eq_refl)).
    - exists []. now rewrite app_nil_r. }
  unfold shape_at in Sh4.
  destruct (get wip_path s4) as [[| | |es']|] eqn:G4; try discriminate.
  injection Sh4 as Sh4.
  exists es1, es'. split; [exact L|]. split; [reflexivity|].
  split; [exact Sh4|]. split; [|split].
  - intros k Nk.
    assert (Hq : diverge wip_execution_0_path (wip_path ++ [k]) = true)
      by (apply diverge_siblings; congruence).
    rewrite <- (get_child wip_path k s4 es' G4), <- (get_child wip_path k s1 es1 G1).
    rewrite (K4 _ Hq eq_refl), (K3 _ Hq). now apply K2.
  - rewrite <- Gz3. apply carry_over_keeps_snapshot.
  - rewrite (K4 input_path eq_refl eq_refl), (K3 input_path eq_refl). exact Gi2.
Qed.

(** *** Sequences of calls *)

(** The execution folders of the [wip] folder, as [manage_execution_dirs]
    lists them. *)
Definition execution_dirs (s : node) : list string :=
  match fst (list_execution_dirs wip_path s) with
  | Some l => l
  | None => []
  end.

(** The [wip] folder exists, and each of its entries named
    [execution_...] is a directory with the name of a numbered execution
    folder. *)
Definition well_formed (s : node) : Prop :=
  exists es, get wip_path s = Some (Dir es)
             /\ NoDup (map fst es)
             /\ numbered (fun _ => True) es.

(** A call of [manage_execution_dirs("initial_stage", T)], made with
    [inp] as the project's input folder. *)
Definition begin_execution (T : Z) (s : node) (call : scope * clock * node)
  : node :=
  let '(sc, now, inp) := call in
  snd (manage_execution_dirs sc now "initial_stage" T
         match put input_path inp s with
         | Some s' => s'
         | None => s
         end).

Definition begin_executions (T : Z) (calls : list (scope * clock * node))
  (s : node) : node :=
  fold_left (begin_execution T) calls s.

Lemma execution_dirs_listing (s : node) (es : entries) :
  get wip_path s = Some (Dir es) ->
  execution_dirs s = map fst (filter is_execution_dir es).
Proof. intros G. unfold execution_dirs, list_execution_dirs. now rewrite G. Qed.

Lemma count_bound (T : Z) (es : entries) :
  (0 <= T)%Z ->
  NoDup (map fst es) ->
  numbered (fun i => (Z.of_nat i <= T)%Z) es ->
  (Z.of_nat (List.length (map fst (filter is_execution_dir es))) <= T + 1)%Z.
Proof.
  intros HT D H.
  assert (I : incl (map fst (filter is_execution_dir es))
                (map name (seq 0 (S (Z.to_nat T))))).
  { intros k Ik. apply in_map_iff in Ik as ([k' n] & <- & Ik).
    apply filter_In in Ik as [Ik X]. apply andb_prop in X as [S _].
    destruct (H k' n Ik S) as (_ & i & -> & B). cbn [fst].
    apply in_map, in_seq. lia. }
  apply NoDup_incl_length in I; [|now apply filter_keys_NoDup].
  rewrite (length_map name), length_seq in I. lia.
Qed.

Lemma set_input (inp : node) (s : node) (es : entries) :
  get wip_path s = Some (Dir es) ->
  exists s', put input_path inp s = Some s'
             /\ get wip_path s' = Some (Dir es)
             /\ get input_path s' = Some inp.
Proof.
  intros G. destruct s as [| | |top]; try discriminate.
  exists (Dir (dict_set top "input" inp)). split; [reflexivity|]. split.
  - rewrite <- G. apply (get_put_diverge input_path wip_path inp (Dir top));
      reflexivity.
  - cbn [input_path get]. now rewrite dict_get_set_eq.
Qed.

Lemma begin_execution_spec (T : Z) (s : node) (sc : scope) (now : clock)
  (inp : node) :
  (0 <= T)%Z ->
  well_formed s ->
  well_formed (begin_execution T s (sc, now, inp))
  /\ (Z.of_nat (List.length (execution_dirs (begin_execution T s (sc, now, inp))))
      <= T + 1)%Z
  /\ In "execution_0" (execution_dirs (begin_execution T s (sc, now, inp)))
  /\ get wip_execution_0_input_tgz_file (begin_execution T s (sc, now, inp))
     = Some (Tgz "input" inp)
  /\ (forall i, In (name i) (execution_dirs (begin_execution T s (sc, now, inp))) ->
                (Z.of_nat i <= T)%Z)
  /\ (forall i n,
        get (wip_path ++ [name i]) s = Some n -> is_dir n = true ->
        (Z.of_nat (S i) <= T)%Z ->
        get (wip_path ++ [name (S i)]) (begin_execution T s (sc, now, inp))
        = Some n).
Proof.
  intros HT (es & G & D & H).
  destruct (set_input inp s es G) as (s_in & P & G_in & Gi).
  unfold begin_execution. rewrite P.
  unfold manage_execution_dirs, catch.
  cbn [String.eqb Ascii.eqb Bool.eqb snd].
  destruct (initial_stage_spec sc now T s_in es inp G_in D H Gi)
    as (es1 & es' & L & G' & Sh & Lk & Gz & _).
  set (s' := snd (initial_stage sc now T s_in)) in *.
  pose proof (rotated_frees_execution_0 T es es1 L) as N0.
  assert (D' : NoDup (map fst es')).
  { rewrite <- shape_keys, Sh, map_app, shape_keys.
    apply NoDup_snoc; [exact (li_nodup _ _ _ _ L) | now apply dict_get_absent]. }
  assert (H' : numbered (fun i => (Z.of_nat i <= T)%Z) es').
  { intros k n I St.
    assert (I' : In (k, is_dir n) (shape es'))
      by exact (in_map (fun kv => (fst kv, is_dir (snd kv))) es' (k, n) I).
    rewrite Sh in I'. apply in_app_or in I' as [I'|[[= <- <-]|[]]].
    - apply in_map_iff in I' as ([k1 n1] & [= -> E] & I1).
      destruct (li_entries _ _ _ _ L k n1 I1 St)
        as [(j & [] & _)|(i & -> & _ & Dn & B & _)].
      split; [congruence|]. now exists (S i).
    - split; [reflexivity|]. exists 0. split; [reflexivity | lia]. }
  assert (X : execution_dirs s' = map fst (filter is_execution_dir es'))
    by now apply execution_dirs_listing.
  split; [|split; [|split; [|split; [|split]]]].
  - exists es'. split; [exact G'|]. split; [exact D'|].
    intros k n I St. destruct (H' k n I St) as (Dn & i & -> & _).
    split; [exact Dn | now exists i].
  - rewrite X. now apply count_bound.
  - rewrite X.
    assert (I : In ("execution_0", true) (shape es'))
      by (rewrite Sh; apply in_or_app; right; now left).
    apply in_map_iff in I as ([k n] & [= -> Dn] & I).
    apply (in_map fst _ ("execution_0", n)). apply filter_In. split; [exact I|].
    unfold is_execution_dir. cbn [fst snd]. now rewrite Dn.
  - exact Gz.
  - intros i I. rewrite X in I. apply in_map_iff in I as ([k n] & Ek & I).
    cbn [fst] in Ek. subst k. apply filter_In in I as [I _].
    destruct (H' _ n I (name_starts i)) as (_ & i' & Ei & B).
    apply name_inj in Ei. now subst.
  - intros i n Gn Dn B.
    rewrite (get_child wip_path (name i) s es G) in Gn.
    apply dict_get_In in Gn.
    pose proof (li_moved _ _ _ _ L i n Gn Dn B (fun f => f)) as I1.
    rewrite (get_child wip_path (name (S i)) s' es' G'), Lk.
    + apply In_dict_get; [exact (li_nodup _ _ _ _ L) | exact I1].
    + intros E. apply (name_inj (S i) 0) in E. discriminate.
Qed.

Lemma begin_executions_well_formed (T : Z) (calls : list (scope * clock * node)) :
  (0 <= T)%Z ->
  forall s, well_formed s -> well_formed (begin_executions T calls s).
Proof.
  intros HT. unfold begin_executions.
  induction calls as [|[[sc now] inp] calls IH]; intros s W; [exact W|].
  cbn [fold_left]. apply IH. now apply begin_execution_spec.
Qed.

(** A project whose [wip] folder is still empty, and three runs on
    three versions of the input folder. *)
Definition empty_project : node :=
  Dir [("output", Dir [("executions", Dir [("__wip__", Dir [])])])].

Definition run_scope : scope := {|
  aos_target := "lab";
  customer := "acme";
  domain := "dc1";
  project := "fabric";
  pre_commit_action := "manual";
  pre_commit_comment := "none";
  post_commit_action := "keep";
  post_commit_comment := "none";
  post_rollback := false;
  interactive := true;
  first_execution_reverted := false;
  terraform_command := "apply";
  exit_code := ""
|}.

Definition run_clock (n : Z) : clock := {|
  local_date := "01/05/2024";
  local_time := "12:00:00";
  utc_date := "01/05/2024";
  utc_time := "10:00:00";
  utc_seconds := 1714557600 + n;
  file_stamp := "2024-05-01_12-00-00"
|}.

Definition input_version (text : string) : node :=
  Dir [("fabric.yml", File text)].

Definition three_runs : list (scope * clock * node) :=
  [(run_scope, run_clock 1, input_version "spines: 2");
   (run_scope, run_clock 2, input_version "spines: 4");
   (run_scope, run_clock 3, input_version "spines: 6")].

(** C2.  Starting from a [wip] folder whose [execution_...] entries are
    numbered execution folders, after every sequence of calls of
    [manage_execution_dirs("initial_stage", T)] with [0 <= T]: at most
    [T + 1] execution folders are listed, all numbered from 0 to [T];
    [execution_0] is one of them and holds the archive of the input
    folder of the last call; and every execution folder [k] that was
    there before the last call with [k + 1 <= T] is now folder [k + 1],
    with what it contained. *)
Theorem rotation_keeps_bound (T : Z) (calls : list (scope * clock * node))
  (sc : scope) (now : clock) (inp : node) (s : node) :
  (0 <= T)%Z ->
  well_formed s ->
  (Z.of_nat (List.length
               (execution_dirs (begin_executions T (calls ++ [(sc, now, inp)]) s)))
   <= T + 1)%Z
  /\ In "execution_0"
       (execution_dirs (begin_executions T (calls ++ [(sc, now, inp)]) s))
  /\ get wip_execution_0_input_tgz_file
       (begin_executions T (calls ++ [(sc, now, inp)]) s)
     = Some (Tgz "input" inp)
  /\ (forall i,
        In (execution_name (Z.of_nat i))
          (execution_dirs (begin_executions T (calls ++ [(sc, now, inp)]) s)) ->
        (Z.of_nat i <= T)%Z)
  /\ (forall i n,
        get (wip_path ++ [execution_name (Z.of_nat i)])
          (begin_executions T calls s) = Some n ->
        is_dir n = true ->
        (Z.of_nat i + 1 <= T)%Z ->
        get (wip_path ++ [execution_name (Z.of_nat i + 1)])
          (begin_executions T (calls ++ [(sc, now, inp)]) s) = Some n).
Proof.
  intros HT W. unfold begin_executions. rewrite fold_left_app. cbn [fold_left].
  pose proof (begin_executions_well_formed T calls HT s W) as Wb.
  unfold begin_executions in Wb.
  destruct (begin_execution_spec T _ sc now inp HT Wb)
    as (_ & Hc & H0 & Hz & Hn & Hr).
  repeat split; auto.
  intros i n G D B. rewrite name_next. apply Hr; auto. lia.
Qed.

Lemma rotation_keeps_bound_witness :
  (Z.of_nat (List.length (execution_dirs (begin_executions 1 three_runs empty_project)))
   <= 1 + 1)%Z
  /\ In "execution_0" (execution_dirs (begin_executions 1 three_runs empty_project))
  /\ get wip_execution_0_input_tgz_file (begin_executions 1 three_runs empty_project)
     = Some (Tgz "input" (input_version "spines: 6")).
Proof.
  assert (W : well_formed empty_project).
  { exists []. split; [reflexivity|]. split; [constructor|]. intros k n []. }
  destruct (rotation_keeps_bound 1
              [(run_scope, run_clock 1, input_version "spines: 2");
               (run_scope, run_clock 2, input_version "spines: 4")]
              run_scope (run_clock 3) (input_version "spines: 6") empty_project
              ltac:(lia) W) as (Hc & H0 & Hz & _).
  exact (conj Hc (conj H0 Hz)).
Defined.

(** The three runs with threshold 1: the folder of the first run is
    gone, that of the second run is [execution_1] and keeps the archive
    of its input folder, which [execution_0] holds as its rollback
    copy. *)
Example three_runs_threshold_one :
  execution_dirs (begin_executions 1 three_runs empty_project)
  = ["execution_1"; "execution_0"]
  /\ get (wip_execution_1_path ++ ["yaml"; "input.tgz"])
       (begin_executions 1 three_runs empty_project)
     = Some (Tgz "input" (input_version "spines: 4"))
  /\ get wip_execution_0_input_tgz_rollback_file
       (begin_executions 1 three_runs empty_project)
     = Some (Tgz "input" (input_version "spines: 4")).
Proof. repeat split; reflexivity. Qed.

End RotationFacts.

(* ------------------------------------------------------------------ *)
(** ** What stays outside the reach of the execution folders' code *)
(* ------------------------------------------------------------------ *)

Module OutputFolder.
Import Py Fs Os Scope FsFacts ExitFacts RotationFacts.
Local Open Scope fs_scope.

Ltac here := exists []; now rewrite app_nil_r.
Ltac inside := eexists; reflexivity.

Section Confined.

Context {X : Type} (obs : node -> X).
Hypothesis U : untouched obs output_path.

Lemma stable_destroy_final_stage (now : clock) :
  stable obs (destroy_final_stage now).
Proof.
  apply stable_bind; [apply stable_exists | intros ba].
  apply stable_bind; [apply stable_when, (stable_makedirs obs _ U); inside|].
  intros _. apply stable_bind; [apply stable_exists | intros be].
  apply stable_when, stable_bind.
  { apply (stable_create_tgz_from_dir obs _ U). inside. }
  intros _. apply stable_bind;
    [apply (stable_remove_directory obs _ U); inside | intros _].
  apply (stable_remove_directory obs _ U). inside.
Qed.

Lemma stable_manage_execution_dirs (sc : scope) (now : clock) (stage : string)
  (T : Z) :
  stable obs (manage_execution_dirs sc now stage T).
Proof.
  apply stable_catch.
  destruct (String.eqb stage "initial_stage"); [now apply stable_initial_stage|].
  destruct (String.eqb stage "destroy_final_stage");
    [apply stable_destroy_final_stage | apply stable_ret].
Qed.

Lemma stable_move_execution_files : stable obs move_execution_files.
Proof.
  apply stable_bind; [apply stable_isdir | intros b].
  apply stable_when, stable_bind; [apply stable_listdir | intros names].
  apply stable_for_each. intros file_name.
  apply stable_bind; [now apply stable_read | intros f].
  apply stable_when, (stable_move obs _ U); inside.
Qed.

Lemma stable_clean_around_wip : stable obs clean_around_wip.
Proof.
  intros s. unfold clean_around_wip.
  destruct (get (dirname executions_dir) s) as [[| | |es]|]; try reflexivity.
  set (temp := dirname executions_dir ++ [fresh_name es]).
  assert (Ut : under output_path temp) by (exists [fresh_name es]; reflexivity).
  match goal with
  | |- obs (snd (let '(r, s') := ?m s in _)) = _ =>
      assert (K : stable obs m); [|specialize (K s); destruct (m s) as [r s']]
  end.
  - apply stable_bind; [apply (stable_makedirs obs _ U); exact Ut | intros _].
    apply stable_bind; [apply (stable_move obs _ U); [inside | exact Ut] | intros _].
    apply stable_bind; [apply (stable_clean_up_directory obs _ U); inside | intros _].
    apply (stable_move obs _ U); [now apply under_app | inside].
  - cbn [snd] in *. now rewrite (stable_rmtree obs _ U temp Ut s').
Qed.

Lemma stable_copy_item (item : string) : stable obs (copy_item item).
Proof.
  apply stable_bind; [apply stable_isdir | intros d]. destruct d.
  - apply (stable_copytree obs _ U); [inside | discriminate].
  - apply (stable_copy2 obs _ U). inside.
Qed.

Lemma stable_commit_wip_executions : stable obs commit_wip_executions.
Proof.
  apply stable_catch, stable_bind; [apply stable_move_execution_files | intros _].
  apply stable_bind; [apply stable_clean_around_wip | intros _].
  apply stable_bind; [apply stable_listdir | intros names].
  apply stable_for_each, stable_copy_item.
Qed.

Lemma stable_remove_if_empty (p : path) :
  under output_path p -> stable obs (remove_if_empty p).
Proof.
  intros Up. apply stable_bind; [apply stable_isdir | intros d].
  apply stable_when, stable_bind; [apply stable_listdir | intros names].
  now apply stable_when, (stable_remove_directory obs _ U).
Qed.

Lemma stable_own_steps (sc : scope) (now : clock) (log : option string)
  (exit_code : string) :
  stable obs (own_steps sc now log exit_code).
Proof.
  assert (Ul : untouched obs (dirname project_log_file))
    by (apply (untouched_under obs _ _ U); inside).
  unfold own_steps. destruct (Diff.mem exit_code exit_messages); [|apply stable_ret].
  apply stable_bind; [apply (stable_remove_file obs _ U); inside | intros _].
  apply stable_bind.
  { apply stable_when, stable_bind;
      [apply (stable_makedirs obs _ U); inside | intros _].
    apply (stable_copy_log obs _ U); [inside | discriminate]. }
  intros _. apply stable_bind.
  { apply stable_when, stable_bind; [apply stable_commit_wip_executions | intros _].
    apply (stable_copy_log obs _ U); [inside | discriminate]. }
  intros _. apply stable_bind; [apply (stable_remove_directory obs _ U); inside|].
  intros _. apply stable_bind.
  { apply stable_when, stable_manage_execution_dirs. }
  intros _. destruct (triggers_follow_up sc exit_code).
  - apply stable_bind; [now apply stable_handle_project_log | intros _].
    apply stable_ret.
  - apply stable_bind; [now apply stable_handle_project_log | intros _].
    apply stable_bind; [apply (stable_remove_directory obs _ U); inside | intros _].
    apply stable_bind; [apply stable_remove_if_empty; inside | intros _].
    apply stable_ret.
Qed.

Lemma stable_before_follow_up (sc : scope) (now : clock) (log : option string)
  (exit_code : string) (s : node) :
  obs (snd (own_steps sc now log exit_code (snd (record_exit_code exit_code s))))
  = obs s.
Proof.
  rewrite stable_own_steps.
  apply stable_record_exit_code. apply (untouched_under obs _ _ U). inside.
Qed.

End Confined.

(** X1.  [manage_execution_dirs], whatever the stage and the threshold,
    changes nothing outside the project's [output] folder: every path
    that leaves [output] at some component holds after the call what it
    held before. *)
Theorem manage_execution_dirs_confined (sc : scope) (now : clock)
  (stage : string) (T : Z) (q : path) (s : node) :
  diverge output_path q = true ->
  get q (snd (manage_execution_dirs sc now stage T s)) = get q s.
Proof.
  intros H. apply stable_manage_execution_dirs. now apply untouched_get.
Qed.

Lemma manage_execution_dirs_confined_witness :
  get (input_path ++ ["fabric.yml"])
    (snd (manage_execution_dirs run_scope (run_clock 1) "initial_stage" 50
            (begin_executions 50 three_runs empty_project)))
  = Some (File "spines: 6").
Proof.
  rewrite (manage_execution_dirs_confined run_scope (run_clock 1) "initial_stage"
             50 (input_path ++ ["fabric.yml"])
             (begin_executions 50 three_runs empty_project) eq_refl).
  reflexivity.
Defined.

(** Whether a call of [exit_manager] launches the follow-up
    execution. *)
Definition launches (sc : scope) (c : option string) : bool :=
  match c with
  | Some c => triggers_follow_up sc (PyStr.upper c)
  | None => false
  end.

(** X2.  The steps of [exit_manager], whatever the exit code, change
    nothing outside the project's [output] folder.  A call that launches
    no follow-up execution ends with every path that leaves [output] as
    it was, in particular the input folder; a call that launches one
    hands it such a state, and ends where the follow-up execution
    ends. *)
Theorem exit_manager_confined (run : follow_up) (sc : scope) (now : clock)
  (log : option string) (c : option string) (q : path) (s : node) :
  diverge output_path q = true ->
  (launches sc c = false ->
   get q (snd (exit_manager run sc now log c s)) = get q s)
  /\ (launches sc c = true ->
      exists s',
        snd (exit_manager run sc now log c s) = snd (run s')
        /\ get q s' = get q s).
Proof.
  intros H.
  assert (U : untouched (get q) output_path) by now apply untouched_get.
  destruct c as [c|]; [|now split].
  destruct (string_dec c "") as [->|N].
  { split; [reflexivity | intros T].
    unfold launches, triggers_follow_up in T.
    destruct (first_execution_reverted sc); discriminate T. }
  cbn [launches]. split; intros T.
  - rewrite (exit_manager_state run sc now log c s N T).
    apply (stable_before_follow_up (get q) U).
  - destruct (exit_with_follow_up run sc now log c s N T) as (_ & E).
    eexists. split; [now rewrite E|].
    apply (stable_before_follow_up (get q) U).
Qed.

Lemma exit_manager_confined_witness :
  get input_path
    (snd (exit_manager sample_run sample_scope sample_clock (Some "session log")
            (Some "USER_TF_EXEC_COMMIT") sample_tree))
  = Some (Dir [("fabric.yml", File "spines: 2")])
  /\ exists s',
       snd (exit_manager failing_run sample_scope sample_clock
              (Some "session log") (Some "USER_REVERT") sample_tree)
       = s'
       /\ get input_path s' = Some (Dir [("fabric.yml", File "spines: 2")]).
Proof.
  split.
  - rewrite (proj1 (exit_manager_confined sample_run sample_scope sample_clock
                      (Some "session log") (Some "USER_TF_EXEC_COMMIT")
                      input_path sample_tree eq_refl) eq_refl).
    reflexivity.
  - destruct (proj2 (exit_manager_confined failing_run sample_scope sample_clock
                       (Some "session log") (Some "USER_REVERT")
                       input_path sample_tree eq_refl) eq_refl) as (s' & E & G).
    exists s'. split; [exact E|]. rewrite G. reflexivity.
Defined.

Lemma upper_ascii_idempotent (a : ascii) :
  PyStr.upper_ascii (PyStr.upper_ascii a) = PyStr.upper_ascii a.
Proof. destruct a as [[] [] [] [] [] [] [] []]; reflexivity. Qed.

Lemma upper_idempotent (c : string) : PyStr.upper (PyStr.upper c) = PyStr.upper c.
Proof.
  induction c as [|a c IH]; [reflexivity|].
  cbn [PyStr.upper]. now rewrite upper_ascii_idempotent, IH.
Qed.

(** X3.  The exit code is taken without regard to letter case:
    [exit_manager] does for a code what it does for the same code in
    upper case. *)
Theorem exit_code_case_is_ignored (run : follow_up) (sc : scope) (now : clock)
  (log : option string) (c : string) (s : node) :
  exit_manager run sc now log (Some c) s
  = exit_manager run sc now log (Some (PyStr.upper c)) s.
Proof.
  destruct c as [|a c]; [reflexivity|].
  rewrite !exit_manager_nonempty by discriminate.
  now rewrite upper_idempotent.
Qed.

(** *** The final stage of a destroy *)

Lemma remove_directory_dir (p : path) (s : node) (es : entries) :
  get p s = Some (Dir es) -> remove_directory p s = (Some tt, del p s).
Proof.
  intros G. unfold remove_directory, catch, mbind, exists_, when, rmtree.
  rewrite G. cbn [fst snd]. now rewrite G.
Qed.

Lemma remove_directory_absent (p : path) (s : node) :
  get p s = None -> remove_directory p s = (Some tt, s).
Proof.
  intros G. unfold remove_directory, catch, mbind, exists_, when.
  now rewrite G.
Qed.

Lemma ensure_archive_folder (s : node) (ee : entries) (file : string) :
  get executions_dir s = Some (Dir ee) ->
  match get archive_dir s with Some (Dir _) | None => True | Some _ => False end ->
  match get (archive_dir ++ [file]) s with Some (Dir _) => False | _ => True end ->
  exists s1 ea,
    when (negb match get archive_dir s with Some _ => true | None => false end)
      (makedirs archive_dir false) s = (Some tt, s1)
    /\ get archive_dir s1 = Some (Dir ea)
    /\ match dict_get ea file with Some (Dir _) => False | _ => True end
    /\ get executions_dir s1 = Some (Dir ee).
Proof.
  intros Ge Ha Hf.
  destruct (get archive_dir s) as [[| | |ea]|] eqn:Ga; try contradiction.
  - exists s, ea. cbn [negb when]. repeat split; auto.
    now rewrite (get_child archive_dir file s ea Ga) in Hf.
  - cbn [negb when].
    destruct (get_parent output_path "executions" s _ Ge) as (eo & Go).
    assert (N : dict_get eo "archive" = None).
    { rewrite <- (get_child output_path _ s eo Go). exact Ga. }
    destruct (makedirs_child output_path "archive" s eo Go N) as (s1 & E & G1).
    exists s1, []. split; [exact E|]. split; [|split; [exact I|]].
    + unfold archive_dir. rewrite (get_child _ "archive" s1 _ G1).
      now apply dict_get_snoc.
    + rewrite <- Ge.
      pose proof (stable_makedirs (get executions_dir) archive_dir
                    (untouched_get archive_dir executions_dir eq_refl)
                    archive_dir false ltac:(here) s) as K.
      unfold archive_dir in K. now rewrite E in K.
Qed.

(** X4.  [manage_execution_dirs('destroy_final_stage')] on a project with
    an executions folder: unless something other than a directory stands
    in the place of the archive folder, or a directory in the place of
    the archive file, the archive file holds the executions folder as it
    was, under the name [executions], and the executions folder is
    gone. *)
Theorem destroy_archives_executions (sc : scope) (now : clock) (T : Z)
  (s : node) (ee : entries) :
  get executions_dir s = Some (Dir ee) ->
  match get archive_dir s with Some (Dir _) | None => True | Some _ => False end ->
  match get (archive_dir ++ [archive_name now]) s with
  | Some (Dir _) => False
  | _ => True
  end ->
  get (archive_dir ++ [archive_name now])
    (snd (manage_execution_dirs sc now "destroy_final_stage" T s))
  = Some (Tgz "executions" (Dir ee))
  /\ get executions_dir
       (snd (manage_execution_dirs sc now "destroy_final_stage" T s)) = None.
Proof.
  intros Ge Ha Hf.
  destruct (ensure_archive_folder s ee (archive_name now) Ge Ha Hf)
    as (s1 & ea & E1 & Ga1 & Hf1 & Ge1).
  destruct (write_child archive_dir (archive_name now)
              (Tgz (basename executions_dir) (Dir ee)) s1 ea Ga1 Hf1)
    as (s2 & W & Ga2).
  assert (Ge2 : get executions_dir s2 = Some (Dir ee)).
  { rewrite <- Ge1.
    pose proof (stable_write (get executions_dir) archive_dir
                  (untouched_get archive_dir executions_dir eq_refl)
                  (archive_dir ++ [archive_name now])
                  (Tgz (basename executions_dir) (Dir ee)) ltac:(inside) s1) as K.
    now rewrite W in K. }
  assert (Gf2 : get (archive_dir ++ [archive_name now]) s2
                = Some (Tgz "executions" (Dir ee))).
  { rewrite (get_child archive_dir _ s2 _ Ga2). apply dict_get_set_eq. }
  set (s3 := del executions_dir s2).
  assert (Es : snd (manage_execution_dirs sc now "destroy_final_stage" T s) = s3).
  { unfold manage_execution_dirs, catch.
    cbn [String.eqb Ascii.eqb Bool.eqb snd]. unfold destroy_final_stage.
    rewrite (mbind_ok _ _ _ _ _ (exists_run _ s)). cbv beta.
    rewrite (mbind_ok _ _ _ _ _ E1).
    rewrite (mbind_ok _ _ _ _ _ (exists_run _ s1)). cbv beta.
    rewrite Ge1. cbn [when].
    assert (C : create_tgz_from_dir executions_dir
                  (archive_dir ++ [archive_name now]) s1 = (Some tt, s2)).
    { unfold create_tgz_from_dir, catch. rewrite Ge1. now rewrite W. }
    rewrite (mbind_ok _ _ _ _ _ C).
    rewrite (mbind_ok _ _ _ _ _ (remove_directory_dir _ s2 ee Ge2)). fold s3.
    rewrite remove_directory_absent; [reflexivity|].
    change wip_execution_0_cabling_map_path
      with (executions_dir ++ ["__wip__"; "execution_0"; "cabling_maps"]).
    unfold s3. apply get_del_below. discriminate. }
  rewrite Es. unfold s3. split.
  - rewrite <- Gf2. apply get_del_diverge. reflexivity.
  - apply get_del_same. discriminate.
Qed.

Lemma destroy_archives_executions_witness :
  get (archive_dir ++ [archive_name sample_clock])
    (snd (manage_execution_dirs sample_scope sample_clock "destroy_final_stage" 50
            sample_tree))
  = Some (Tgz "executions"
            (Dir [("execution_0", first_execution);
                  ("__wip__",
                   Dir [("execution_0", second_execution);
                        ("execution_1", first_execution)])]))
  /\ get executions_dir
       (snd (manage_execution_dirs sample_scope sample_clock "destroy_final_stage"
               50 sample_tree)) = None.
Proof.
  apply (destroy_archives_executions sample_scope sample_clock 50 sample_tree).
  - reflexivity.
  - exact I.
  - exact I.
Defined.

End OutputFolder.

(* ------------------------------------------------------------------ *)
(** ** More of the file helpers *)
(* ------------------------------------------------------------------ *)

Module FileHelpers.
Import Py Fs Os Scope FsFacts ExitFacts RotationFacts OutputFolder.
Local Open Scope fs_scope.

(** [rename_file_if_exists(source_path, target_path)]: the flag it
    returns; an error of [os.remove] or [os.rename] is logged and gives
    [False]. *)
Definition rename_file_if_exists (source_path target_path : path) : M bool :=
  fun s =>
    match (b <- exists_ source_path ;;
           if b then
             t <- exists_ target_path ;;
             when t (remove target_path) ;;;
             rename source_path target_path ;;;
             ret true
           else ret false) s with
    | (Some r, s') => (Some r, s')
    | (None, s') => (Some false, s')
    end.

(** [os.path.commonpath([source, directory_a]) == directory_a]: the
    components of [directory_a] start those of [source]. *)
Fixpoint starts_with_path (a source : path) : bool :=
  match a, source with
  | [], _ => true
  | x :: a', y :: source' => String.eqb x y && starts_with_path a' source'
  | _ :: _, [] => false
  end.

(** [replace_directory_contents(directory_a, directory_b)]. *)
Definition replace_item (directory_a directory_b : path) (item : string) : M unit :=
  let source := directory_b ++ [item] in
  let destination := directory_a ++ [item] in
  if starts_with_path directory_a source then ret tt
  else
    f <- isfile source ;;
    if f then copy2 source destination
    else d <- isdir source ;; when d (copytree source destination).

Definition replace_directory_contents (directory_a directory_b : path) : M unit :=
  catch (e <- exists_ directory_a ;;
         (if negb e then makedirs directory_a false
          else clean_up_directory directory_a) ;;;
         items <- listdir directory_b ;;
         for_each items (replace_item directory_a directory_b)).

(** [blocked_executions]: [interactive] is the scope's flag and [answer]
    what [prompt_for_confirmation] returns ([None]: it did not return
    an answer); any error counts as blocked. *)
Definition prompt_unblock_executions (interactive : bool)
  (answer : option string) : bool :=
  interactive
  && match answer with
     | Some a => String.eqb a "yes"
     | None => false
     end.

Definition blocked_executions (interactive : bool) (answer : option string)
  : M bool :=
  fun s =>
    match get blocked_executions_path s with
    | None => (Some false, s)
    | Some (Dir _) =>
        if prompt_unblock_executions interactive answer
        then (Some false, snd (remove_directory blocked_executions_path s))
        else (Some true, s)
    | Some _ => (Some true, s)
    end.

(** *** [update_yaml] *)

Lemma dict_merge_lookup {A : Type} (b : list (string * A)) : forall a k,
  NoDup (map fst b) ->
  dict_get (dict_merge a b) k
  = match dict_get b k with
    | Some v => Some v
    | None => dict_get a k
    end.
Proof.
  unfold dict_merge. induction b as [|[x v] b IH]; intros a k D; [reflexivity|].
  inversion D as [|? ? N D']; subst. cbn [fold_left fst snd dict_get].
  rewrite (IH _ k D').
  destruct (String.eqb_spec k x) as [->|Nk].
  - rewrite dict_get_absent_keys by exact N. apply dict_get_set_eq.
  - destruct (dict_get b k); [reflexivity|].
    apply dict_get_set_other. congruence.
Qed.

(** X5.  After [update_yaml(file, d)] on a file that holds a YAML
    mapping, or that does not exist yet in an existing folder, the file
    holds a mapping in which every key of [d] has the value [d] gives
    it and every other key the value it had. *)
Theorem update_yaml_lookup (folder : path) (name : string)
  (d : list (string * string)) (s : node) (es : entries) :
  get folder s = Some (Dir es) ->
  NoDup (map fst d) ->
  match dict_get es name with Some (Yaml _) | None => True | Some _ => False end ->
  exists fields',
    get (folder ++ [name]) (snd (update_yaml (folder ++ [name]) d s))
    = Some (Yaml fields')
    /\ forall k,
         dict_get fields' k
         = match dict_get d k with
           | Some v => Some v
           | None =>
               match dict_get es name with
               | Some (Yaml fields) => dict_get fields k
               | _ => None
               end
           end.
Proof.
  intros G D H. unfold update_yaml, catch. cbn [snd].
  rewrite (get_child folder name s es G).
  destruct (dict_get es name) as [[| f | |]|] eqn:E; try contradiction.
  - destruct (write_child folder name (Yaml (dict_merge f d)) s es G) as (s' & W & G').
    { now rewrite E. }
    exists (dict_merge f d). rewrite W. cbn [snd]. split.
    + rewrite (get_child folder name s' _ G'). apply dict_get_set_eq.
    + intros k. now apply dict_merge_lookup.
  - destruct (write_child folder name (Yaml d) s es G) as (s' & W & G').
    { now rewrite E. }
    exists d. rewrite W. cbn [snd]. split.
    + rewrite (get_child folder name s' _ G'). apply dict_get_set_eq.
    + intros k. now destruct (dict_get d k).
Qed.

Lemma update_yaml_lookup_witness :
  exists fields',
    get execution_data_file
      (snd (update_yaml execution_data_file
              [("exit_code", "USER_REVERT"); ("changes_in_design", "true")]
              sample_tree))
    = Some (Yaml fields')
    /\ forall k,
         dict_get fields' k
         = match dict_get [("exit_code", "USER_REVERT");
                           ("changes_in_design", "true")] k with
           | Some v => Some v
           | None =>
               dict_get [("execution_id", "apaf_id_1714557600");
                         ("exit_code", "")] k
           end.
Proof.
  apply (update_yaml_lookup wip_execution_data_path execution_data_filename
           [("exit_code", "USER_REVERT"); ("changes_in_design", "true")]
           sample_tree
           [("execution_data.yml",
             Yaml [("execution_id", "apaf_id_1714557600"); ("exit_code", "")]);
            ("log", Dir []);
            ("yaml", Dir [("input.tgz.rollback", File "previous input")])]).
  - reflexivity.
  - repeat constructor; cbn; intuition discriminate.
  - exact I.
Defined.

(** *** [clean_up_directory] *)

Lemma path_snoc (p : path) : p <> [] -> p = dirname p ++ [basename p].
Proof. intros N. now apply app_removelast_last. Qed.

(** X6.  [clean_up_directory] on a directory leaves an empty directory
    in its place, whatever it contained. *)
Theorem clean_up_directory_empties (p : path) (s : node) (es : entries) :
  p <> [] ->
  get p s = Some (Dir es) ->
  get p (snd (clean_up_directory p s)) = Some (Dir []).
Proof.
  intros N G. rewrite (path_snoc p N) in G |- *.
  set (d := dirname p) in *. set (k := basename p) in *.
  destruct (get_parent d k s _ G) as (ed & Gd).
  pose proof (del_child d k s ed Gd) as Gd1.
  destruct (mkdirs_child d k (del (d ++ [k]) s) _ Gd1 (dict_get_remove_eq ed k))
    as (s2 & M & Gd2).
  unfold clean_up_directory, catch. cbn [snd].
  rewrite (mbind_ok _ _ _ _ _ (remove_directory_dir _ s es G)).
  unfold makedirs. rewrite get_del_same by now destruct d.
  unfold update. rewrite M. cbn [snd].
  rewrite (get_child d k s2 _ Gd2). apply dict_get_set_eq.
Qed.

Lemma clean_up_directory_empties_witness :
  get executions_dir (snd (clean_up_directory executions_dir sample_tree))
  = Some (Dir []).
Proof.
  apply (clean_up_directory_empties executions_dir sample_tree
           [("execution_0", first_execution);
            ("__wip__",
             Dir [("execution_0", second_execution);
                  ("execution_1", first_execution)])]).
  - discriminate.
  - reflexivity.
Defined.

(** *** [rename_file_if_exists] *)

Lemma remove_child (p : path) (k : string) (s : node) (es : entries) (n : node) :
  get p s = Some (Dir es) ->
  dict_get es k = Some n ->
  is_dir n = false ->
  remove (p ++ [k]) s = (Some tt, del (p ++ [k]) s).
Proof.
  intros G E D. unfold remove. rewrite (get_child p k s es G), E.
  now destruct n.
Qed.

(** X7.  [rename_file_if_exists] between two names of one folder, with
    a source that exists and a target that is absent or a regular file:
    it returns [True], the target holds what the source held (an
    existing target is replaced) and the source is gone. *)
Theorem rename_file_if_exists_moves (folder : path) (a b : string) (s : node)
  (es : entries) (n : node) :
  get folder s = Some (Dir es) ->
  a <> b ->
  dict_get es a = Some n ->
  match dict_get es b with Some (Dir _) => False | _ => True end ->
  fst (rename_file_if_exists (folder ++ [a]) (folder ++ [b]) s) = Some true
  /\ get (folder ++ [b])
       (snd (rename_file_if_exists (folder ++ [a]) (folder ++ [b]) s)) = Some n
  /\ get (folder ++ [a])
       (snd (rename_file_if_exists (folder ++ [a]) (folder ++ [b]) s)) = None.
Proof.
  intros G N Ea Hb.
  assert (K : exists s1 es1,
             (when match get (folder ++ [b]) s with Some _ => true | None => false end
                (remove (folder ++ [b]))) s = (Some tt, s1)
             /\ get folder s1 = Some (Dir es1)
             /\ dict_get es1 a = Some n /\ dict_get es1 b = None).
  { rewrite (get_child folder b s es G).
    destruct (dict_get es b) as [m|] eqn:Eb.
    - exists (del (folder ++ [b]) s), (dict_remove es b). cbn [when]. split.
      + apply (remove_child folder b s es m G Eb). now destruct m.
      + split; [now apply del_child|]. split.
        * rewrite dict_get_remove_other; congruence.
        * apply dict_get_remove_eq.
    - exists s, es. now repeat split. }
  destruct K as (s1 & es1 & E1 & G1 & Ea1 & Eb1).
  destruct (rename_child folder a b s1 es1 n G1 Ea1 Eb1) as (s2 & E2 & G2).
  assert (R : rename_file_if_exists (folder ++ [a]) (folder ++ [b]) s
              = (Some true, s2)).
  { unfold rename_file_if_exists.
    rewrite (mbind_ok _ _ _ _ _ (exists_run _ s)). cbv beta.
    rewrite (get_child folder a s es G), Ea.
    rewrite (mbind_ok _ _ _ _ _ (exists_run _ s)). cbv beta.
    rewrite (mbind_ok _ _ _ _ _ E1), (mbind_ok _ _ _ _ _ E2). reflexivity. }
  rewrite R. cbn [fst snd]. split; [reflexivity|]. split.
  - rewrite (get_child folder b s2 _ G2). apply dict_get_snoc.
    apply dict_get_absent_keys. intros I. apply in_map_iff in I as ([k m] & Ek & I).
    cbn [fst] in Ek. subst k. apply dict_remove_In in I as [I _].
    apply dict_get_absent in Eb1. apply Eb1. now apply (in_map fst _ (b, m)).
  - rewrite (get_child folder a s2 _ G2).
    apply dict_get_absent_keys. rewrite map_app, in_app_iff. cbn.
    intros [I|[E|[]]]; [|congruence].
    apply in_map_iff in I as ([k m] & Ek & I). cbn [fst] in Ek. subst k.
    apply dict_remove_In in I as [_ I]. now apply I.
Qed.

Lemma rename_file_if_exists_moves_witness :
  fst (rename_file_if_exists
         (wip_execution_0_yaml_path ++ ["input.tgz.rollback"])
         (wip_execution_0_yaml_path ++ ["input.tgz"]) sample_tree) = Some true
  /\ get (wip_execution_0_yaml_path ++ ["input.tgz"])
       (snd (rename_file_if_exists
               (wip_execution_0_yaml_path ++ ["input.tgz.rollback"])
               (wip_execution_0_yaml_path ++ ["input.tgz"]) sample_tree))
     = Some (File "previous input")
  /\ get (wip_execution_0_yaml_path ++ ["input.tgz.rollback"])
       (snd (rename_file_if_exists
               (wip_execution_0_yaml_path ++ ["input.tgz.rollback"])
               (wip_execution_0_yaml_path ++ ["input.tgz"]) sample_tree))
     = None.
Proof.
  apply (rename_file_if_exists_moves wip_execution_0_yaml_path
           "input.tgz.rollback" "input.tgz" sample_tree
           [("input.tgz.rollback", File "previous input")]).
  - reflexivity.
  - discriminate.
  - reflexivity.
  - exact I.
Defined.

(** X8.  [rename_file_if_exists] with the same path as source and
    target removes the file: the target "exists", so it is removed
    first, and the rename that follows fails; the function returns
    [False] and the file is gone. *)
Theorem rename_file_if_exists_same_path (p : path) (s : node) (n : node) :
  p <> [] ->
  get p s = Some n ->
  is_dir n = false ->
  fst (rename_file_if_exists p p s) = Some false
  /\ get p (snd (rename_file_if_exists p p s)) = None.
Proof.
  intros N G D.
  assert (R : rename_file_if_exists p p s = (Some false, del p s)).
  { unfold rename_file_if_exists, mbind, exists_, when, remove, rename.
    rewrite G. cbn. rewrite ?G.
    destruct n; try discriminate; cbn;
      now rewrite (get_del_same p s N). }
  rewrite R. split; [reflexivity | now apply get_del_same].
Qed.

Lemma rename_file_if_exists_same_path_witness :
  fst (rename_file_if_exists wip_execution_0_input_tgz_rollback_file
         wip_execution_0_input_tgz_rollback_file sample_tree) = Some false
  /\ get wip_execution_0_input_tgz_rollback_file
       (snd (rename_file_if_exists wip_execution_0_input_tgz_rollback_file
               wip_execution_0_input_tgz_rollback_file sample_tree)) = None.
Proof.
  apply (rename_file_if_exists_same_path wip_execution_0_input_tgz_rollback_file
           sample_tree (File "previous input")).
  - discriminate.
  - reflexivity.
  - reflexivity.
Defined.

(** *** [copy_file] *)

Lemma mkdirs_makes_dir (p : path) : forall s,
  creatable p s = true -> get p s = None ->
  exists s', mkdirs p s = Some s' /\ get p s' = Some (Dir []).
Proof.
  induction p as [|k p IH]; intros s C G; [discriminate|].
  destruct s as [| | |es]; try discriminate.
  rewrite mkdirs_cons. rewrite get_cons in G. cbn [creatable] in C.
  destruct (dict_get es k) as [c|] eqn:E.
  - destruct (IH c C G) as (c' & -> & G'). eexists. split; [reflexivity|].
    now rewrite get_cons, dict_get_set_eq.
  - destruct p as [|k' p].
    + cbn [mkdirs]. eexists. split; [reflexivity|].
      now rewrite get_cons, dict_get_set_eq.
    + destruct (IH (Dir []) (creatable_fresh _) eq_refl) as (c' & -> & G').
      eexists. split; [reflexivity|]. now rewrite get_cons, dict_get_set_eq.
Qed.

Lemma mkdirs_keeps_files (q : path) (n : node) :
  is_dir n = false ->
  forall p s s', get q s = Some n -> mkdirs p s = Some s' -> get q s' = Some n.
Proof.
  intros D. induction q as [|a q IH]; intros p s s' G M.
  - injection G as ->. destruct n; try discriminate; now destruct p.
  - destruct s as [| | |es]; try discriminate. rewrite get_cons in G.
    destruct (dict_get es a) as [c|] eqn:E; [|discriminate].
    destruct p as [|b p]; [now injection M as <-; rewrite get_cons, E|].
    rewrite mkdirs_cons in M.
    destruct (mkdirs p _) as [c'|] eqn:Mc; [|discriminate]. injection M as <-.
    rewrite get_cons. destruct (String.eqb_spec b a) as [->|Nb].
    + rewrite dict_get_set_eq. rewrite E in Mc. exact (IH p c c' G Mc).
    + rewrite dict_get_set_other by exact Nb. now rewrite E.
Qed.

Lemma diverge_snoc_cases (d : path) (k : string) : forall q,
  diverge (d ++ [k]) q = true ->
  diverge d q = true \/ exists k' r, q = d ++ k' :: r /\ k <> k'.
Proof.
  induction d as [|a d IH]; intros [|b q]; cbn; try discriminate.
  - destruct (String.eqb_spec k b) as [->|N]; [discriminate|].
    intros _. right. now exists b, q.
  - destruct (String.eqb_spec a b) as [->|N]; [|now left].
    intros H. destruct (IH q H) as [H'|(k' & r & -> & N')]; [now left|].
    right. now exists k', r.
Qed.

Lemma copy_file_frame (src d : path) (k : string) (q : path) :
  diverge (d ++ [k]) q = true -> stable (get q) (copy_file src (d ++ [k])).
Proof.
  intros H. destruct (diverge_snoc_cases d k q H) as [Hd|(k' & r & -> & N)].
  - apply (stable_copy_file (get q) d (untouched_get d q Hd));
      [eexists; reflexivity|].
    intros E. apply (f_equal (@List.length string)) in E.
    rewrite length_app in E. cbn in E. lia.
  - assert (U : untouched (get (d ++ k' :: r)) (d ++ [k]))
      by now apply untouched_get.
    apply stable_catch, stable_bind; [apply stable_isfile | intros b].
    apply stable_when, stable_bind; [apply stable_isdir | intros t].
    apply stable_bind.
    + apply stable_when. unfold dirname. rewrite removelast_last.
      intros s. unfold makedirs.
      destruct (get d s) as [[| | |es]|]; try reflexivity.
      apply stable_update. intros s1 s2. apply get_mkdirs_below.
    + intros _. apply (stable_copy2 _ _ U). exists []. now rewrite app_nil_r.
Qed.

(** X9.  [copy_file] of a regular file to a name in a folder that is
    there, or that can be created, and where no directory has that
    name: afterwards the destination holds what the source holds, and
    every path apart from the destination holds what it held. *)
Theorem copy_file_copies (src folder : path) (name : string) (s : node)
  (n : node) :
  get src s = Some n ->
  is_dir n = false ->
  match get folder s with
  | Some (Dir es) =>
      match dict_get es name with Some (Dir _) => False | _ => True end
  | Some _ => False
  | None => creatable folder s = true
  end ->
  get (folder ++ [name]) (snd (copy_file src (folder ++ [name]) s)) = Some n
  /\ forall q, diverge (folder ++ [name]) q = true ->
               get q (snd (copy_file src (folder ++ [name]) s)) = get q s.
Proof.
  intros G D H. split; [|intros q Hq; now apply copy_file_frame].
  assert (K : exists s1 es1,
             (when (negb match get folder s with
                         | Some (Dir _) => true
                         | _ => false
                         end) (makedirs folder false)) s = (Some tt, s1)
             /\ get folder s1 = Some (Dir es1)
             /\ match dict_get es1 name with Some (Dir _) => False | _ => True end
             /\ get src s1 = Some n).
  { destruct (get folder s) as [[| | |es]|] eqn:Gf; try contradiction.
    - exists s, es. now repeat split.
    - destruct (mkdirs_makes_dir folder s H Gf) as (s1 & M & G1).
      exists s1, []. cbn [negb when]. unfold makedirs, update. rewrite Gf, M.
      repeat split; auto. exact (mkdirs_keeps_files src n D folder s s1 G M). }
  destruct K as (s1 & es1 & E1 & G1 & H1 & Gs1).
  destruct (write_child folder name n s1 es1 G1 H1) as (s2 & W & G2).
  assert (C : copy_file src (folder ++ [name]) s = (Some tt, s2)).
  { unfold copy_file, catch, mbind at 1, isfile. rewrite G.
    replace (match n with Dir _ => false | _ => true end) with true
      by now destruct n.
    cbn [when fst snd]. unfold dirname. rewrite removelast_last.
    unfold mbind at 1, isdir. cbn [fst snd].
    rewrite (mbind_ok _ _ _ _ _ E1). unfold copy2. rewrite Gs1.
    rewrite (get_child folder name s1 es1 G1).
    destruct n; try discriminate;
      (destruct (dict_get es1 name) as [[| | |]|]; try contradiction;
       now rewrite W). }
  rewrite C. cbn [snd]. rewrite (get_child folder name s2 _ G2).
  apply dict_get_set_eq.
Qed.

Lemma copy_file_copies_witness :
  get (executions_dir ++ ["backup"; "00_full_execution.log"])
    (snd (copy_file execution_0_log_file
            (executions_dir ++ ["backup"; "00_full_execution.log"]) sample_tree))
  = Some (File "first run")
  /\ forall q, diverge (executions_dir ++ ["backup"; "00_full_execution.log"]) q = true ->
               get q (snd (copy_file execution_0_log_file
                             (executions_dir ++ ["backup"; "00_full_execution.log"])
                             sample_tree))
               = get q sample_tree.
Proof.
  apply (copy_file_copies execution_0_log_file (executions_dir ++ ["backup"])
           "00_full_execution.log" sample_tree (File "first run")).
  - reflexivity.
  - reflexivity.
  - reflexivity.
Defined.

(** *** [blocked_executions] *)

Lemma mkdirs_result_dir (p : path) : forall s s',
  mkdirs p s = Some s' -> exists es, get p s' = Some (Dir es).
Proof.
  induction p as [|k p IH]; intros [| | |top] s'; try discriminate.
  - intros [= <-]. now exists top.
  - rewrite mkdirs_cons. destruct (mkdirs p _) as [c'|] eqn:M; [|discriminate].
    intros [= <-]. rewrite get_cons, dict_get_set_eq. exact (IH _ c' M).
Qed.

Lemma makedirs_gives_directory (p : path) (s : node) :
  runs (makedirs p true) s -> is_directory p (snd (makedirs p true s)) = true.
Proof.
  unfold runs, makedirs, update, is_directory.
  destruct (get p s) as [[| | |es]|] eqn:G; cbn [fst snd]; try easy.
  - now rewrite G.
  - destruct (mkdirs p s) as [s'|] eqn:M; [|easy]. intros _. cbn [snd].
    now destruct (mkdirs_result_dir p s s' M) as (es & ->).
Qed.

Lemma copy_log_keeps_directory (log : option string) (p : path) :
  preserves (fun s => is_directory p s = true) (copy_log log p).
Proof.
  intros s H. unfold copy_log, catch. cbn [snd].
  destruct log as [text|]; [|exact H].
  unfold is_directory in H.
  destruct (get p s) as [[| | |es]|] eqn:G; try discriminate.
  assert (W : is_directory p (snd (write (p ++ ["full_execution.log"]) (File text) s))
              = true).
  { unfold write, update.
    destruct (put_child p "full_execution.log" (File text) s es G) as (s' & P & G').
    rewrite P. unfold is_directory.
    destruct (get (p ++ ["full_execution.log"]) s) as [[| | |]|]; cbn [snd];
      rewrite ?G', ?G; reflexivity. }
  unfold mbind at 1, isdir at 1. cbn [fst snd].
  destruct (match get (dirname p) s with Some (Dir _) => true | _ => false end)
    eqn:Dp; cbn [negb when].
  - unfold mbind at 1, ret. unfold mbind, isdir. rewrite G. exact W.
  - unfold mbind at 1, makedirs.
    destruct (get (dirname p) s) as [[| | |e']|] eqn:Gd; try discriminate;
      try (unfold is_directory; cbn [snd]; now rewrite G).
    exfalso. destruct p as [|k p] using rev_ind; [discriminate|].
    unfold dirname in Gd. rewrite removelast_last in Gd.
    destruct (get_parent p k s _ G) as (e' & Gp). congruence.
Qed.

Lemma remove_if_empty_keeps_occupied (p : path) (k : string) (s : node) :
  is_directory (p ++ [k]) s = true -> snd (remove_if_empty p s) = s.
Proof.
  unfold is_directory. intros H.
  destruct (get (p ++ [k]) s) as [[| | |ek]|] eqn:G; try discriminate.
  destruct (get_parent p k s _ G) as (es & Gp).
  rewrite (get_child p k s es Gp) in G.
  unfold remove_if_empty, mbind, isdir, listdir. rewrite Gp. cbn [fst snd when].
  rewrite Gp. destruct es as [|e es]; [discriminate | reflexivity].
Qed.

Lemma own_steps_blocked_unfold (sc : scope) (now : clock) (log : option string) :
  own_steps sc now log "BLOCKED_EXECUTIONS"
  = (remove_file wip_execution_0_input_tgz_rollback_file ;;;
     (makedirs blocked_executions_path true ;;;
      copy_log log blocked_executions_path) ;;;
     ret tt ;;;
     remove_directory wip_path ;;;
     ret tt ;;;
     handle_project_log log ;;;
     remove_directory input_tgz_reverted_path ;;;
     remove_if_empty executions_dir ;;;
     ret false).
Proof.
  unfold own_steps, triggers_follow_up.
  destruct (first_execution_reverted sc); reflexivity.
Qed.

(** X10.  An exit with [BLOCKED_EXECUTIONS] blocks the next run: when
    [exit_manager] has ended the process on that exit code, the
    sentinel folder is there, and [blocked_executions] returns [True]
    unless the user is asked (interactive mode) and answers yes. *)
Theorem blocked_exit_blocks_next_run (run : follow_up) (sc : scope)
  (now : clock)
  (log : option string) (c : string) (s : node)
  (interactive : bool) (answer : option string) :
  PyStr.upper c = "BLOCKED_EXECUTIONS" ->
  exit_status (fst (exit_manager run sc now log (Some c) s)) = Some 0%Z ->
  prompt_unblock_executions interactive answer = false ->
  blocked_executions interactive answer (snd (exit_manager run sc now log (Some c) s))
  = (Some true, snd (exit_manager run sc now log (Some c) s)).
Proof.
  intros Hc Hx Hp.
  assert (N : c <> "") by (intros ->; discriminate Hc).
  assert (T : triggers_follow_up sc (PyStr.upper c) = false)
    by (rewrite Hc; apply blocked_no_follow_up).
  apply (exit_manager_exits_iff_runs run sc now log c s N T) in Hx.
  rewrite (exit_manager_state run sc now log c s N T). clear T. rewrite Hc in *.
  set (s0 := snd (record_exit_code "BLOCKED_EXECUTIONS" s)) in *.
  assert (D : is_directory blocked_executions_path
                (snd (own_steps sc now log "BLOCKED_EXECUTIONS" s0)) = true).
  { revert Hx. rewrite own_steps_blocked_unfold. intros R.
    apply after_bind; [exact R | clear R; intros _ R].
    match type of R with
    | runs _ ?t => assert (Ra : runs (makedirs blocked_executions_path true) t)
    end.
    { unfold runs, mbind in R |- *.
      destruct (makedirs blocked_executions_path true _) as [[[]|] t1];
        [discriminate | now elim R]. }
    apply after_bind; [exact R | clear R; intros _ _].
    assert (Uw : forall p, diverge p blocked_executions_path = true ->
                 untouched (is_directory blocked_executions_path) p).
    { intros p H.
      exact (untouched_map (get blocked_executions_path)
               (fun o => match o with Some (Dir _) => true | _ => false end) p
               (untouched_get p blocked_executions_path H)). }
    match goal with
    | |- is_directory _ (snd (?m ?t)) = true =>
        cut (preserves (fun u => is_directory blocked_executions_path u = true) m);
          [intros P; apply P|]
    end.
    - 
      unfold mbind at 1.
      pose proof (makedirs_gives_directory _ _ Ra) as Dm. unfold runs in Ra.
      destruct (makedirs blocked_executions_path true _) as [[[]|] t1];
        [|now elim Ra].
      now apply copy_log_keeps_directory.
    - apply preserves_bind; [apply preserves_ret | intros _].
      apply preserves_bind.
      { apply preserves_stable, (stable_remove_directory _ wip_path).
        - apply Uw. apply (diverge_siblings executions_dir). discriminate.
        - exists []. now rewrite app_nil_r. }
      intros _. apply preserves_bind; [apply preserves_ret | intros _].
      apply preserves_bind.
      { apply preserves_stable, stable_handle_project_log. now apply Uw. }
      intros _. apply preserves_bind.
      { apply preserves_stable, (stable_remove_directory _ input_tgz_reverted_path).
        - now apply Uw.
        - exists []. now rewrite app_nil_r. }
      intros _. apply preserves_bind; [|intros _; apply preserves_ret].
      intros t Ht.
      now rewrite (remove_if_empty_keeps_occupied executions_dir "__blocked__" t Ht). }
  unfold blocked_executions. unfold is_directory in D.
  destruct (get blocked_executions_path _) as [[| | |eb]|]; try discriminate.
  now rewrite Hp.
Qed.

Lemma blocked_exit_blocks_next_run_witness :
  blocked_executions false (Some "yes")
    (snd (exit_manager sample_run sample_scope sample_clock (Some "session log")
            (Some "blocked_executions") sample_tree))
  = (Some true,
     snd (exit_manager sample_run sample_scope sample_clock (Some "session log")
            (Some "blocked_executions") sample_tree)).
Proof.
  apply (blocked_exit_blocks_next_run sample_run sample_scope sample_clock
           (Some "session log") "blocked_executions" sample_tree false (Some "yes"));
    reflexivity.
Defined.

(** X11.  Unblocking lasts: when [blocked_executions] returns [False],
    be it that there was no sentinel or that the user had it removed,
    the sentinel is gone and every later call returns [False] without
    asking. *)
Theorem unblocked_stays_unblocked (interactive interactive' : bool)
  (answer answer' : option string) (s : node) :
  fst (blocked_executions interactive answer s) = Some false ->
  blocked_executions interactive' answer'
    (snd (blocked_executions interactive answer s))
  = (Some false, snd (blocked_executions interactive answer s)).
Proof.
  unfold blocked_executions at 1 3 4.
  destruct (get blocked_executions_path s) as [[| | |eb]|] eqn:G;
    try discriminate.
  - destruct (prompt_unblock_executions interactive answer); [|discriminate].
    intros _. rewrite (remove_directory_dir _ s eb G). cbn [snd].
    unfold blocked_executions. rewrite get_del_same by discriminate. reflexivity.
  - intros _. cbn [snd]. unfold blocked_executions. now rewrite G.
Qed.

Lemma unblocked_stays_unblocked_witness :
  blocked_executions false None
    (snd (blocked_executions true (Some "yes")
            (snd (exit_manager sample_run sample_scope sample_clock (Some "session log")
                    (Some "BLOCKED_EXECUTIONS") sample_tree))))
  = (Some false,
     snd (blocked_executions true (Some "yes")
            (snd (exit_manager sample_run sample_scope sample_clock (Some "session log")
                    (Some "BLOCKED_EXECUTIONS") sample_tree)))).
Proof.
  apply (unblocked_stays_unblocked true false (Some "yes") None).
  reflexivity.
Defined.

(** *** [replace_directory_contents] *)

Lemma dict_set_unchanged {A : Type} (d : list (string * A)) (k : string) (v : A) :
  dict_get d k = Some v -> dict_set d k v = d.
Proof.
  induction d as [|[x u] d IH]; simpl; [discriminate|].
  destruct (String.eqb k x).
  - now intros [= ->].
  - intros H. now rewrite IH.
Qed.

Lemma mkdirs_existing (p : path) : forall s es,
  get p s = Some (Dir es) -> mkdirs p s = Some s.
Proof.
  induction p as [|a p IH]; intros s es.
  - cbn. now intros [= ->].
  - destruct s as [| | |top]; try discriminate. rewrite get_cons, mkdirs_cons.
    destruct (dict_get top a) as [c|] eqn:E; [|discriminate]. intros G.
    rewrite (IH c es G). now rewrite (dict_set_unchanged top a c E).
Qed.

Lemma starts_with_path_snoc (b : path) (w item : string) :
  starts_with_path (b ++ [w]) (b ++ [item]) = String.eqb w item.
Proof.
  induction b as [|a b IH]; cbn.
  - apply andb_true_r.
  - now rewrite String.eqb_refl.
Qed.

Lemma clean_up_directory_child (p : path) (k : string) (s : node)
  (es c : entries) :
  get p s = Some (Dir es) ->
  dict_get es k = Some (Dir c) ->
  get p (snd (clean_up_directory (p ++ [k]) s))
  = Some (Dir (dict_remove es k ++ [(k, Dir [])])).
Proof.
  intros G E. destruct (remove_directory_child p k s es c G E) as (s1 & R & G1).
  destruct (makedirs_child p k s1 _ G1 (dict_get_remove_eq es k)) as (s2 & M & G2).
  unfold clean_up_directory, catch. cbn [snd]. rewrite (mbind_ok _ _ _ _ _ R).
  unfold makedirs in M |- *.
  rewrite (get_child p k s1 _ G1), dict_get_remove_eq in M |- *.
  now rewrite M.
Qed.

(** One item of the listing that is not [directory_a] itself. *)
Lemma replace_item_copies (b : path) (w item : string) (s : node)
  (acc : entries) (n : node) :
  item <> w ->
  get (b ++ [w]) s = Some (Dir acc) ->
  get (b ++ [item]) s = Some n ->
  dict_get acc item = None ->
  exists s', replace_item (b ++ [w]) b item s = (Some tt, s')
             /\ put ((b ++ [w]) ++ [item]) n s = Some s'.
Proof.
  intros N Ga Gi Ha.
  destruct (put_child (b ++ [w]) item n s acc Ga) as (s' & P & _).
  exists s'. split; [|exact P].
  unfold replace_item. rewrite starts_with_path_snoc.
  destruct (String.eqb_spec w item) as [E|_]; [congruence|].
  unfold mbind, isfile, isdir. rewrite Gi.
  assert (Gd : get ((b ++ [w]) ++ [item]) s = None)
    by now rewrite (get_child (b ++ [w]) item s acc Ga).
  destruct n as [t|y|a t|es];
    try (unfold copy2, write, update; now rewrite Gi, Gd, P).
  rewrite Gi. cbn [when]. unfold copytree. rewrite Gi, Gd.
  unfold mbind, update, dirname.
  rewrite removelast_last, (mkdirs_existing _ s acc Ga). now rewrite P.
Qed.

(** The loop over the listing of [directory_b]: [acc] is what
    [directory_a] holds so far. *)
Lemma replace_loop (b : path) (w : string) (eb : entries) :
  forall (items : list string) (s : node) (acc : entries),
  NoDup items ->
  get (b ++ [w]) s = Some (Dir acc) ->
  (forall k, k <> w -> get (b ++ [k]) s = dict_get eb k) ->
  (forall k, In k items -> k <> w -> dict_get eb k <> None) ->
  (forall k, In k items -> dict_get acc k = None) ->
  exists s' acc',
    for_each items (replace_item (b ++ [w]) b) s = (Some tt, s')
    /\ get (b ++ [w]) s' = Some (Dir acc')
    /\ (forall k, k <> w -> get (b ++ [k]) s' = dict_get eb k)
    /\ (forall k, In k items -> k <> w -> dict_get acc' k = dict_get eb k)
    /\ (forall k, ~ In k items \/ k = w -> dict_get acc' k = dict_get acc k).
Proof.
  induction items as [|item items IH]; intros s acc D Ga Gb Hs Ha.
  - exists s, acc. cbn. repeat (split; [easy|]). easy.
  - inversion D as [|? ? Ni D']; subst.
    destruct (String.eqb_spec item w) as [->|N].
    + destruct (IH s acc D' Ga Gb) as (s' & acc' & F & Ga' & Gb' & In' & Out').
      { intros k I. apply Hs. now right. }
      { intros k I. apply Ha. now right. }
      exists s', acc'. split.
      { cbn [for_each]. unfold mbind at 1, replace_item.
        rewrite starts_with_path_snoc, String.eqb_refl. exact F. }
      split; [exact Ga'|]. split; [exact Gb'|]. split.
      * intros k [E|I] Nk; [congruence | now apply In'].
      * intros k H. apply Out'. destruct H as [H|H]; [left | now right].
        intros I. apply H. now right.
    + destruct (dict_get eb item) as [n|] eqn:E;
        [|now elim (Hs item (or_introl eq_refl) N)].
      assert (Gi : get (b ++ [item]) s = Some n) by now rewrite Gb.
      destruct (replace_item_copies b w item s acc n N Ga Gi
                  (Ha item (or_introl eq_refl))) as (s1 & R & P).
      assert (Ga1 : get (b ++ [w]) s1 = Some (Dir (dict_set acc item n))).
      { destruct (put_child (b ++ [w]) item n s acc Ga) as (s2 & P2 & G2).
        congruence. }
      destruct (IH s1 (dict_set acc item n) D' Ga1)
        as (s' & acc' & F & Ga' & Gb' & In' & Out').
      { intros k Nk.
        rewrite (get_put_diverge _ (b ++ [k]) n s s1
                   (diverge_app _ _ [item] (diverge_siblings b w k (not_eq_sym Nk)))
                   P).
        now apply Gb. }
      { intros k I. apply Hs. now right. }
      { intros k I. rewrite dict_get_set_other by congruence.
        apply Ha. now right. }
      exists s', acc'. split.
      { cbn [for_each]. now rewrite (mbind_ok _ _ _ _ _ R). }
      split; [exact Ga'|]. split; [exact Gb'|]. split.
      * intros k [<-|I] Nk.
        -- rewrite Out' by now left. now rewrite dict_get_set_eq.
        -- now apply In'.
      * intros k H.
        assert (Nk : k <> item).
        { destruct H as [H| ->]; [|congruence]. intros ->. apply H. now left. }
        rewrite Out'.
        -- now rewrite dict_get_set_other by congruence.
        -- destruct H as [H|H]; [left | now right]. intros I. apply H. now right.
Qed.

(** X12.  [replace_directory_contents(A, B)] for a folder [A] that is an
    entry [w] of [B] (as the staging folder is of the executions folder),
    absent or a directory: afterwards [A] holds a copy of every other
    entry of [B] and nothing else (not what it held before, and no copy
    of itself), and the other entries of [B] are as they were. *)
Theorem replace_directory_contents_copies (b : path) (w : string) (s : node)
  (eb : entries) :
  get b s = Some (Dir eb) ->
  NoDup (map fst eb) ->
  match dict_get eb w with Some (Dir _) | None => True | Some _ => False end ->
  (forall k, get (b ++ [w; k]) (snd (replace_directory_contents (b ++ [w]) b s))
             = if String.eqb k w then None else get (b ++ [k]) s)
  /\ (forall k, k <> w ->
        get (b ++ [k]) (snd (replace_directory_contents (b ++ [w]) b s))
        = get (b ++ [k]) s).
Proof.
  intros G D Hw.
  assert (I : exists s1 eb1,
             (if negb (match get (b ++ [w]) s with Some _ => true | None => false end)
              then makedirs (b ++ [w]) false
              else clean_up_directory (b ++ [w])) s = (Some tt, s1)
             /\ get b s1 = Some (Dir (eb1 ++ [(w, Dir [])]))
             /\ dict_get eb1 w = None
             /\ NoDup (map fst eb1)
             /\ (forall k, k <> w -> dict_get eb1 k = dict_get eb k)).
  { rewrite (get_child b w s eb G).
    destruct (dict_get eb w) as [[| | |c]|] eqn:E; try contradiction; cbn [negb].
    - exists (snd (clean_up_directory (b ++ [w]) s)), (dict_remove eb w).
      split; [reflexivity|]. split; [exact (clean_up_directory_child b w s eb c G E)|].
      split; [apply dict_get_remove_eq|]. split; [now apply dict_remove_NoDup|].
      intros k Nk. now apply dict_get_remove_other.
    - destruct (makedirs_child b w s eb G E) as (s1 & M & G1).
      exists s1, eb. now repeat split. }
  destruct I as (s1 & eb1 & Init & G1 & E1 & D1 & Same).
  assert (Ga : get (b ++ [w]) s1 = Some (Dir [])).
  { rewrite (get_child b w s1 _ G1). now apply dict_get_snoc. }
  assert (Gb : forall k, k <> w -> get (b ++ [k]) s1 = dict_get eb k).
  { intros k Nk. rewrite (get_child b k s1 _ G1).
    rewrite <- (dict_set_absent eb1 w (Dir []) E1).
    rewrite dict_get_set_other by congruence. now apply Same. }
  destruct (replace_loop b w eb (map fst (eb1 ++ [(w, Dir [])])) s1 [])
    as (s' & acc' & F & Ga' & Gb' & In' & Out'); try assumption.
  { rewrite map_app. apply NoDup_snoc; [exact D1|]. now apply dict_get_absent. }
  { intros k Ik Nk. rewrite <- (Same k Nk). intros A.
    rewrite map_app, in_app_iff in Ik. destruct Ik as [Ik|[Ik|[]]].
    - now apply (dict_get_absent eb1 k A).
    - cbn in Ik. congruence. }
  { reflexivity. }
  assert (R : snd (replace_directory_contents (b ++ [w]) b s) = s').
  { unfold replace_directory_contents, catch. cbn [snd].
    unfold mbind at 1, exists_.
    rewrite (mbind_ok _ _ _ _ _ Init). unfold mbind at 1, listdir. rewrite G1.
    now rewrite F. }
  rewrite R. split.
  - intros k. change (b ++ [w; k]) with (b ++ [w] ++ [k]). rewrite app_assoc.
    rewrite (get_child (b ++ [w]) k s' acc' Ga').
    destruct (String.eqb_spec k w) as [->|Nk]; [now rewrite Out' by now right|].
    rewrite (get_child b k s eb G).
    destruct (in_dec string_dec k (map fst (eb1 ++ [(w, Dir [])]))) as [Ik|Nik].
    + now apply In'.
    + rewrite Out' by now left. cbn. symmetry. rewrite <- (Same k Nk).
      apply dict_get_absent_keys. intros Ik. apply Nik.
      rewrite map_app, in_app_iff. now left.
  - intros k Nk. rewrite (Gb' k Nk). now rewrite (get_child b k s eb G).
Qed.

Lemma replace_directory_contents_copies_witness :
  (forall k,
     get (executions_dir ++ ["__wip__"; k])
       (snd (replace_directory_contents (executions_dir ++ ["__wip__"])
               executions_dir sample_tree))
     = if String.eqb k "__wip__" then None
       else get (executions_dir ++ [k]) sample_tree)
  /\ (forall k, k <> "__wip__" ->
        get (executions_dir ++ [k])
          (snd (replace_directory_contents (executions_dir ++ ["__wip__"])
                  executions_dir sample_tree))
        = get (executions_dir ++ [k]) sample_tree).
Proof.
  apply (replace_directory_contents_copies executions_dir "__wip__" sample_tree
           [("execution_0", first_execution);
            ("__wip__",
             Dir [("execution_0", second_execution);
                  ("execution_1", first_execution)])]).
  - reflexivity.
  - repeat constructor; cbn; intuition discriminate.
  - exact I.
Defined.

End FileHelpers.

(* ------------------------------------------------------------------ *)
(** ** Retry and poll: when an operation succeeds, and what it costs *)
(* ------------------------------------------------------------------ *)

Module PollFacts.
Import Poll.
Local Open Scope Z_scope.

(** A loop whose rounds go on only after reading one answer that
    satisfies [C]: when it leaves with a result, the answers read before
    the last round all satisfy [C], and there are fewer of them than
    rounds. *)
Lemma for_range_leave {R : Type} (C : Z -> bool)
  (body : responses -> step R * responses) :
  (forall rs rs', body rs = (Continue, rs') ->
                  exists s, rs = s :: rs' /\ C s = true) ->
  forall (n : nat) (rs : responses) (r : R) (rest : responses),
    for_range n body rs = (Some r, rest) ->
    exists l rs1, rs = l ++ rs1 /\ (List.length l < n)%nat
                  /\ Forall (fun s => C s = true) l
                  /\ body rs1 = (Leave r, rest).
Proof.
  intros Hc. induction n as [|n IH]; intros rs r rest; [discriminate|].
  cbn [for_range]. destruct (body rs) as [[|r'] rs'] eqn:B.
  - intros F. destruct (Hc rs rs' B) as (s & -> & Cs).
    destruct (IH rs' r rest F) as (l & rs1 & -> & L & Fl & B1).
    exists (s :: l), rs1. repeat split; [cbn; lia | now constructor | exact B1].
  - intros [= -> ->]. exists [], rs. repeat split; [cbn; lia | constructor | exact B].
Qed.

Ltac found s :=
  exists s; split; [reflexivity|];
  repeat match goal with
         | H : _ = true |- _ => rewrite H
         | H : _ = false |- _ => rewrite H
         end;
  reflexivity.

Lemma deploy_attempt_goes_on (rs rs' : responses) :
  deploy_attempt_body rs = (Continue, rs') ->
  exists s, rs = s :: rs' /\ retried Deploy s = true.
Proof.
  destruct rs as [|s rs]; [discriminate|]. unfold deploy_attempt_body, retried.
  destruct (s =? 202) eqn:E2.
  - destruct (for_range _ _ _) as [[[|]|] ?]; discriminate.
  - destruct (s =? 409) eqn:E9; [intros [= <-]; found s|].
    destruct (raises_for_status s) eqn:Er; [discriminate|].
    intros [= <-]. found s.
Qed.

Lemma deploy_poll_goes_on (rs rs' : responses) :
  deploy_poll_body rs = (Continue, rs') ->
  exists s, rs = s :: rs' /\ keeps_polling Deploy s = true.
Proof.
  destruct rs as [|s rs]; [discriminate|]. unfold deploy_poll_body, keeps_polling.
  destruct (s =? 202) eqn:E2; [discriminate|].
  destruct (s =? 409) eqn:E9; [intros [= <-]; found s|].
  destruct (raises_for_status s) eqn:Er; [discriminate|].
  intros [= <-]. found s.
Qed.

Lemma revert_attempt_goes_on (rs rs' : responses) :
  revert_attempt_body rs = (Continue, rs') ->
  exists s, rs = s :: rs' /\ retried Revert s = true.
Proof.
  destruct rs as [|s rs]; [discriminate|]. unfold revert_attempt_body, retried.
  destruct (s =? 202) eqn:E2.
  - destruct (for_range _ _ _) as [[|] ?]; discriminate.
  - destruct (s =? 409) eqn:E9; [|discriminate].
    intros [= <-]. found s.
Qed.

Lemma revert_poll_goes_on (rs rs' : responses) :
  revert_poll_body rs = (Continue, rs') ->
  exists s, rs = s :: rs' /\ keeps_polling Revert s = true.
Proof.
  destruct rs as [|s rs]; [discriminate|]. unfold revert_poll_body, keeps_polling.
  destruct (s =? 202) eqn:E2; [discriminate|].
  destruct (s =? 409) eqn:E9; [|discriminate].
  intros [= <-]. found s.
Qed.

Lemma delete_attempt_goes_on (rs rs' : responses) :
  delete_attempt_body rs = (Continue, rs') ->
  exists s, rs = s :: rs' /\ retried Delete s = true.
Proof.
  destruct rs as [|s rs]; [discriminate|]. unfold delete_attempt_body, retried.
  destruct (s =? 202) eqn:E2.
  - destruct (for_range _ _ _) as [[|] ?]; discriminate.
  - destruct ((s =? 409) || (s =? 405))%bool eqn:E9; [intros [= <-]; found s|].
    destruct (raises_for_status s) eqn:Er; [discriminate|].
    intros [= <-]. found s.
Qed.

Lemma delete_poll_goes_on (rs rs' : responses) :
  delete_poll_body rs = (Continue, rs') ->
  exists s, rs = s :: rs' /\ keeps_polling Delete s = true.
Proof.
  destruct rs as [|s rs]; [discriminate|]. unfold delete_poll_body, keeps_polling.
  destruct (s =? 404) eqn:E4; [discriminate|].
  destruct ((s =? 409) || (s =? 405))%bool eqn:E9; [intros [= <-]; found s|].
  destruct (raises_for_status s) eqn:Er; [discriminate|].
  intros [= <-]. found s.
Qed.

(** The answers that make an operation succeed: fewer than three
    retried answers, the accepted request, fewer than ten answers that
    keep the poll going, and the terminal answer [final]. *)
Definition success_trace (op : operation) (final : Z) (rs rest : responses)
  : Prop :=
  exists pre polls,
    rs = pre ++ 202 :: polls ++ final :: rest
    /\ (List.length pre < max_retries)%nat
    /\ (List.length polls < max_poll_attempts)%nat
    /\ Forall (fun s => retried op s = true) pre
    /\ Forall (fun s => keeps_polling op s = true) polls.

Lemma continue_all {R : Type} (op : Z -> bool)
  (body : responses -> step R * responses) (l : responses) :
  (forall s rs, op s = true -> body (s :: rs) = (Continue, rs)) ->
  Forall (fun s => op s = true) l ->
  forall s, In s l -> forall rs, body (s :: rs) = (Continue, rs).
Proof.
  intros H F s I rs. rewrite Forall_forall in F. now apply H, F.
Qed.

Lemma rounds_left (n : nat) (l : responses) :
  (List.length l < n)%nat -> exists k, n = (List.length l + S k)%nat.
Proof. intros H. exists (n - List.length l - 1)%nat. lia. Qed.

(** X13.  What success means for the three operations: [deploy_bp]
    reaches its post-commit block exactly when the initial request was
    answered 202 within three attempts and a poll was answered 202
    within ten; [revert_bp] returns 202 in exactly that case; and
    [delete_bp] returns [True] exactly when the initial request was
    answered 202 and a poll 404. *)
Theorem success_needs_confirmation (rs rest : responses) :
  (deploy_bp rs = (CommitCompleted, rest) <-> success_trace Deploy 202 rs rest)
  /\ (revert_bp rs = (202, rest) <-> success_trace Revert 202 rs rest)
  /\ (delete_bp rs = (ReturnedTrue, rest) <-> success_trace Delete 404 rs rest).
Proof.
  split; [|split]; split.
  - unfold deploy_bp.
    destruct (for_range max_retries deploy_attempt_body rs) as [[o|] rs'] eqn:F;
      [|discriminate].
    intros [= -> ->].
    destruct (for_range_leave (retried Deploy) _ deploy_attempt_goes_on _ _ _ _ F)
      as (pre & rs1 & -> & Lpre & Fpre & B).
    destruct rs1 as [|s rs1]; [discriminate|]. unfold deploy_attempt_body in B.
    destruct (s =? 202) eqn:E2.
    + apply Z.eqb_eq in E2. subst s.
      destruct (for_range max_poll_attempts deploy_poll_body rs1)
        as [[[|f]|] rs2] eqn:P; try discriminate.
      injection B as <-.
      destruct (for_range_leave (keeps_polling Deploy) _ deploy_poll_goes_on
                  _ _ _ _ P) as (polls & rs3 & -> & Lp & Fp & B3).
      destruct rs3 as [|t rs3]; [discriminate|]. unfold deploy_poll_body in B3.
      destruct (t =? 202) eqn:T2.
      * apply Z.eqb_eq in T2. subst t. injection B3 as <-.
        now exists pre, polls.
      * destruct (t =? 409); [discriminate|].
        destruct (raises_for_status t); discriminate.
    + destruct (s =? 409); [discriminate|].
      destruct (raises_for_status s); discriminate.
  - intros (pre & polls & -> & Lpre & Lp & Fpre & Fp).
    destruct (rounds_left _ _ Lpre) as (k & Ek).
    destruct (rounds_left _ _ Lp) as (j & Ej).
    unfold deploy_bp. rewrite Ek.
    rewrite (for_range_continue deploy_attempt_body pre
               (continue_all _ _ _ (fun s rs => deploy_attempt_continue s rs) Fpre)).
    cbn [for_range]. unfold deploy_attempt_body at 1. cbn [Z.eqb Pos.eqb].
    rewrite Ej.
    rewrite (for_range_continue deploy_poll_body polls
               (continue_all _ _ _ (fun s rs => deploy_poll_continue s rs) Fp)).
    reflexivity.
  - unfold revert_bp.
    destruct (for_range max_retries revert_attempt_body rs) as [[[z|f]|] rs'] eqn:F;
      try discriminate.
    intros [= -> ->].
    destruct (for_range_leave (retried Revert) _ revert_attempt_goes_on _ _ _ _ F)
      as (pre & rs1 & -> & Lpre & Fpre & B).
    destruct rs1 as [|s rs1]; [discriminate|]. unfold revert_attempt_body in B.
    destruct (s =? 202) eqn:E2.
    + apply Z.eqb_eq in E2. subst s.
      destruct (for_range max_poll_attempts revert_poll_body rs1)
        as [[r|] rs2] eqn:P; [|discriminate].
      injection B as -> <-.
      destruct (for_range_leave (keeps_polling Revert) _ revert_poll_goes_on
                  _ _ _ _ P) as (polls & rs3 & -> & Lp & Fp & B3).
      destruct rs3 as [|t rs3]; [discriminate|]. unfold revert_poll_body in B3.
      destruct (t =? 202) eqn:T2.
      * apply Z.eqb_eq in T2. subst t. injection B3 as <-.
        now exists pre, polls.
      * destruct (t =? 409); [discriminate|].
        injection B3 as -> <-. discriminate.
    + destruct (s =? 409); discriminate.
  - intros (pre & polls & -> & Lpre & Lp & Fpre & Fp).
    destruct (rounds_left _ _ Lpre) as (k & Ek).
    destruct (rounds_left _ _ Lp) as (j & Ej).
    unfold revert_bp. rewrite Ek.
    rewrite (for_range_continue revert_attempt_body pre
               (continue_all _ _ _ (fun s rs => revert_attempt_continue s rs) Fpre)).
    cbn [for_range]. unfold revert_attempt_body at 1. cbn [Z.eqb Pos.eqb].
    rewrite Ej.
    rewrite (for_range_continue revert_poll_body polls
               (continue_all _ _ _ (fun s rs => revert_poll_continue s rs) Fp)).
    reflexivity.
  - unfold delete_bp.
    destruct (for_range max_retries delete_attempt_body rs) as [[o|] rs'] eqn:F;
      [|discriminate].
    intros [= -> ->].
    destruct (for_range_leave (retried Delete) _ delete_attempt_goes_on _ _ _ _ F)
      as (pre & rs1 & -> & Lpre & Fpre & B).
    destruct rs1 as [|s rs1]; [discriminate|]. unfold delete_attempt_body in B.
    destruct (s =? 202) eqn:E2.
    + apply Z.eqb_eq in E2. subst s.
      destruct (for_range max_poll_attempts delete_poll_body rs1)
        as [[o|] rs2] eqn:P; [|discriminate].
      injection B as -> <-.
      destruct (for_range_leave (keeps_polling Delete) _ delete_poll_goes_on
                  _ _ _ _ P) as (polls & rs3 & -> & Lp & Fp & B3).
      destruct rs3 as [|t rs3]; [discriminate|]. unfold delete_poll_body in B3.
      destruct (t =? 404) eqn:T4.
      * apply Z.eqb_eq in T4. subst t. injection B3 as <-.
        now exists pre, polls.
      * destruct ((t =? 409) || (t =? 405))%bool; [discriminate|].
        destruct (raises_for_status t); discriminate.
    + destruct ((s =? 409) || (s =? 405))%bool; [discriminate|].
      destruct (raises_for_status s); discriminate.
  - intros (pre & polls & -> & Lpre & Lp & Fpre & Fp).
    destruct (rounds_left _ _ Lpre) as (k & Ek).
    destruct (rounds_left _ _ Lp) as (j & Ej).
    unfold delete_bp. rewrite Ek.
    rewrite (for_range_continue delete_attempt_body pre
               (continue_all _ _ _ (fun s rs => delete_attempt_continue s rs) Fpre)).
    cbn [for_range]. unfold delete_attempt_body at 1. cbn [Z.eqb Pos.eqb].
    rewrite Ej.
    rewrite (for_range_continue delete_poll_body polls
               (continue_all _ _ _ (fun s rs => delete_poll_continue s rs) Fp)).
    reflexivity.
Qed.

Lemma success_needs_confirmation_witness :
  success_trace Deploy 202 [409; 202; 409; 200; 202; 404] [404]
  /\ success_trace Delete 404 [405; 202; 409; 404] [].
Proof.
  split.
  - apply (proj1 (success_needs_confirmation [409; 202; 409; 200; 202; 404] [404])).
    reflexivity.
  - apply (proj2 (proj2 (success_needs_confirmation [405; 202; 409; 404] []))).
    reflexivity.
Defined.

(** *** The number of requests *)

(** What a loop body reads is a prefix of the answers: at most [c] of
    them when the loop goes on, at most [l] when it leaves. *)
Definition reads {R : Type} (body : responses -> step R * responses)
  (c l : nat) : Prop :=
  forall rs, exists u,
    rs = u ++ snd (body rs)
    /\ (List.length u <= match fst (body rs) with
                         | Continue => c
                         | Leave _ => l
                         end)%nat.

Lemma for_range_reads {R : Type} (body : responses -> step R * responses)
  (l : nat) :
  (1 <= l)%nat -> reads body 1 l ->
  forall (n : nat) (rs : responses), exists u,
    rs = u ++ snd (for_range n body rs)
    /\ (List.length u <= match n with O => 0 | S m => m + l end)%nat.
Proof.
  intros L H. induction n as [|n IH]; intros rs.
  - exists []. split; [reflexivity | cbn; lia].
  - cbn [for_range]. destruct (H rs) as (u & E & B).
    destruct (body rs) as [[|r] rs'] eqn:Eb; cbn [fst snd] in *.
    + destruct (IH rs') as (u' & E' & B').
      exists (u ++ u'). split.
      * now rewrite <- app_assoc, <- E'.
      * rewrite length_app. destruct n; lia.
    + exists u. split; [exact E | lia].
Qed.

Ltac one_read s rs :=
  repeat match goal with
         | |- context [if ?b then _ else _] => destruct b
         end;
  exists [s]; (split; [reflexivity | cbn; lia]).

Lemma deploy_poll_reads : reads deploy_poll_body 1 1.
Proof.
  intros [|s rs]; [exists []; split; [reflexivity | cbn; lia]|].
  unfold deploy_poll_body. one_read s rs.
Qed.

Lemma revert_poll_reads : reads revert_poll_body 1 1.
Proof.
  intros [|s rs]; [exists []; split; [reflexivity | cbn; lia]|].
  unfold revert_poll_body. one_read s rs.
Qed.

Lemma delete_poll_reads : reads delete_poll_body 1 1.
Proof.
  intros [|s rs]; [exists []; split; [reflexivity | cbn; lia]|].
  unfold delete_poll_body. one_read s rs.
Qed.

Lemma accepted_reads {R Q : Type} (body : responses -> step R * responses)
  (k : option R * responses -> step Q * responses) (s : Z) (rs : responses) :
  reads body 1 1 ->
  (forall o, snd (k o) = snd o) ->
  (forall o, exists q, fst (k o) = Leave q) ->
  exists u, s :: rs = u ++ snd (k (for_range max_poll_attempts body rs))
            /\ (List.length u
                <= match fst (k (for_range max_poll_attempts body rs)) with
                   | Continue => 1
                   | Leave _ => S max_poll_attempts
                   end)%nat.
Proof.
  intros H Ks Kl.
  destruct (for_range_reads body 1 (le_n 1) H max_poll_attempts rs) as (u & E & B).
  exists (s :: u). rewrite Ks. split; [rewrite <- app_comm_cons; now rewrite <- E|].
  destruct (Kl (for_range max_poll_attempts body rs)) as (q & ->).
  unfold max_poll_attempts in B |- *. simpl in B. cbn [List.length]. lia.
Qed.

Lemma deploy_attempt_reads : reads deploy_attempt_body 1 (S max_poll_attempts).
Proof.
  intros [|s rs]; [exists []; split; [reflexivity | cbn; lia]|].
  unfold deploy_attempt_body. destruct (s =? 202).
  - apply (accepted_reads deploy_poll_body
             (fun o => match o with
                       | (Some Completed, rs'') => (Leave CommitCompleted, rs'')
                       | (Some (Raised f), rs'') => (Leave (DeployFailed f), rs'')
                       | (None, rs'') => (Leave (DeployFailed PollingLimit), rs'')
                       end) s rs deploy_poll_reads).
    + now intros [[[|f]|] r].
    + intros [[[|f]|] r]; eexists; reflexivity.
  - one_read s rs.
Qed.

Lemma revert_attempt_reads : reads revert_attempt_body 1 (S max_poll_attempts).
Proof.
  intros [|s rs]; [exists []; split; [reflexivity | cbn; lia]|].
  unfold revert_attempt_body. destruct (s =? 202).
  - apply (accepted_reads revert_poll_body
             (fun o => match o with
                       | (Some r, rs'') => (Leave r, rs'')
                       | (None, rs'') => (Leave (inl 408), rs'')
                       end) s rs revert_poll_reads).
    + now intros [[r|] t].
    + intros [[r|] t]; eexists; reflexivity.
  - one_read s rs.
Qed.

Lemma delete_attempt_reads : reads delete_attempt_body 1 (S max_poll_attempts).
Proof.
  intros [|s rs]; [exists []; split; [reflexivity | cbn; lia]|].
  unfold delete_attempt_body. destruct (s =? 202).
  - apply (accepted_reads delete_poll_body
             (fun o => match o with
                       | (Some r, rs'') => (Leave r, rs'')
                       | (None, rs'') => (Leave (ReturnedNone PollingLimit), rs'')
                       end) s rs delete_poll_reads).
    + now intros [[r|] t].
    + intros [[r|] t]; eexists; reflexivity.
  - one_read s rs.
Qed.

(** X14.  The retry loop of [deploy_bp], [revert_bp] and [delete_bp],
    with the poll loop inside it, sends at most thirteen requests to the
    URL of the operation (two retried ones, the accepted one and ten
    polls), whatever the controller answers: of the answers to these
    requests, those left over come after a prefix of no more than 13. *)
Theorem request_budget (rs : responses) :
  (exists u, rs = u ++ snd (deploy_bp rs) /\ (List.length u <= 13)%nat)
  /\ (exists u, rs = u ++ snd (revert_bp rs) /\ (List.length u <= 13)%nat)
  /\ (exists u, rs = u ++ snd (delete_bp rs) /\ (List.length u <= 13)%nat).
Proof.
  assert (L : (1 <= S max_poll_attempts)%nat) by (cbn; lia).
  split; [|split].
  - destruct (for_range_reads _ _ L deploy_attempt_reads max_retries rs)
      as (u & E & B).
    exists u. unfold deploy_bp.
    destruct (for_range max_retries deploy_attempt_body rs) as [[o|] r];
      split; first [exact E | exact B].
  - destruct (for_range_reads _ _ L revert_attempt_reads max_retries rs)
      as (u & E & B).
    exists u. unfold revert_bp.
    destruct (for_range max_retries revert_attempt_body rs) as [[[z|f]|] r];
      split; first [exact E | exact B].
  - destruct (for_range_reads _ _ L delete_attempt_reads max_retries rs)
      as (u & E & B).
    exists u. unfold delete_bp.
    destruct (for_range max_retries delete_attempt_body rs) as [[o|] r];
      split; first [exact E | exact B].
Qed.

End PollFacts.

(* ------------------------------------------------------------------ *)
(** ** Rollback cleanup: added IPv6 pools *)
(* ------------------------------------------------------------------ *)

Module CleanupFacts.
Import Py Cleanup.

(** A run that looked up an IPv6 pool stopped right there. *)
Definition stops_at_ipv6_lookup (r : run) : Prop :=
  forall i n, nth_error (fst r) i = Some (GetId Ipv6Pool n) ->
              snd r = false /\ List.length (fst r) = S i.

Lemma and_then_stops (a b : run) :
  stops_at_ipv6_lookup a -> stops_at_ipv6_lookup b ->
  stops_at_ipv6_lookup (and_then a b).
Proof.
  intros Ha Hb. unfold and_then. destruct (snd a) eqn:Sa; [|exact Ha].
  intros i n. cbn [fst snd].
  destruct (Nat.lt_ge_cases i (List.length (fst a))) as [Li|Gi].
  - rewrite nth_error_app1 by exact Li. intros H.
    destruct (Ha i n H) as [F _]. congruence.
  - rewrite nth_error_app2 by exact Gi. intros H.
    destruct (Hb _ n H) as [F L]. split; [exact F|].
    rewrite length_app. lia.
Qed.

Lemma for_each_stops {A : Type} (body : A -> run) (l : list A) :
  (forall x, stops_at_ipv6_lookup (body x)) ->
  stops_at_ipv6_lookup (for_each body l).
Proof.
  intros H. induction l as [|x l IH]; cbn [for_each].
  - intros [|i] n; discriminate.
  - now apply and_then_stops.
Qed.

Lemma no_calls_stops (b : bool) : stops_at_ipv6_lookup ([], b).
Proof. intros [|i] n; discriminate. Qed.

Lemma delete_by_name_stops (lookup : kind -> value -> option string)
  (k : kind) (name : value) :
  k <> Ipv6Pool -> stops_at_ipv6_lookup (delete_by_name lookup k name).
Proof.
  intros N [|[|i]] n; cbn; try discriminate.
  - intros [= E _]. congruence.
  - now destruct i.
Qed.

Lemma remove_added_stops (lookup : kind -> value -> option string)
  (menu apstra_object : string) (item : value) :
  stops_at_ipv6_lookup (remove_added lookup menu apstra_object item).
Proof.
  unfold remove_added. destruct item; try apply no_calls_stops.
  repeat match goal with
         | |- context [if ?b then _ else _] => destruct b
         end;
    try apply no_calls_stops;
    try (apply delete_by_name_stops; discriminate).
  intros [|i] n; cbn; [now intros _ | now destruct i].
Qed.

Lemma remove_menu_stops (lookup : kind -> value -> option string)
  (mo : string * Diff.results) :
  stops_at_ipv6_lookup (remove_menu lookup mo).
Proof.
  apply for_each_stops. intros [ob b]. unfold remove_object.
  destruct (Diff.added b) as [|a l].
  - destruct (Diff.changed b) as [|c l']; [apply no_calls_stops|].
    destruct (String.eqb ob "configlet_contents"); [|apply no_calls_stops].
    destruct (changed_names (c :: l')); [|apply no_calls_stops].
    apply for_each_stops. intros n. apply delete_by_name_stops. discriminate.
  - apply for_each_stops. intros item. apply remove_added_stops.
Qed.

Lemma remove_added_spares_ipv6 (lookup : kind -> value -> option string)
  (menu apstra_object : string) (item : value) :
  Forall (fun c => ~ is_delete_of Ipv6Pool c)
         (fst (remove_added lookup menu apstra_object item)).
Proof.
  unfold remove_added. destruct item; try constructor.
  repeat match goal with
         | |- context [if ?b then _ else _] => destruct b
         end;
    try (apply delete_by_name_kind; discriminate);
    cbn; repeat (constructor; [intros (id & E); discriminate|]);
    constructor.
Qed.

(** X15.  The cleanup never deletes an IPv6 pool: the source calls
    [delete_ipv6_pool], which is not defined, so the lookup of an added
    IPv6 pool is the last call the cleanup issues; whatever the diff
    lists after it stays in the controller. *)
Theorem ipv6_pool_lookup_ends_cleanup
  (lookup : kind -> value -> option string) (d : input_diff) :
  Forall (fun c => ~ is_delete_of Ipv6Pool c) (remove_non_bp_added lookup d)
  /\ forall i n,
       nth_error (remove_non_bp_added lookup d) i = Some (GetId Ipv6Pool n) ->
       List.length (remove_non_bp_added lookup d) = S i.
Proof.
  unfold remove_non_bp_added.
  destruct (interface_maps_to_remove d) as [names|].
  - split.
    + unfold and_then.
      assert (F1 : Forall (fun c => ~ is_delete_of Ipv6Pool c)
                     (fst (for_each (delete_by_name lookup InterfaceMap) names))).
      { apply for_each_Forall. intros n. apply delete_by_name_kind. discriminate. }
      destruct (snd (for_each (delete_by_name lookup InterfaceMap) names));
        [|exact F1].
      cbn [fst]. apply Forall_app. split; [exact F1|].
      apply for_each_Forall. intros [menu objs]. unfold remove_menu.
      apply for_each_Forall. intros [ob b]. unfold remove_object.
      destruct (Diff.added b) as [|a l].
      * destruct (Diff.changed b) as [|c l']; [constructor|].
        destruct (String.eqb ob "configlet_contents"); [|constructor].
        destruct (changed_names (c :: l')); [|constructor].
        apply for_each_Forall. intros n. apply delete_by_name_kind. discriminate.
      * apply for_each_Forall. intros item. apply remove_added_spares_ipv6.
    + intros i n H.
      refine (proj2 (and_then_stops _ _ _ _ i n H)).
      * apply for_each_stops. intros x. apply delete_by_name_stops. discriminate.
      * apply for_each_stops. intros mo. apply remove_menu_stops.
  - split; [constructor|]. intros [|i] n; discriminate.
Qed.

(** An added IPv6 pool listed before an added VNI pool: the cleanup
    ends on the lookup and the VNI pool is not removed. *)
Definition pools_diff : input_diff :=
  [("resources",
    [("ipv6_pools",
      {| Diff.added := [PDict [("name", PStr "v6")]];
         Diff.changed := []; Diff.removed := [] |});
     ("vni_pools",
      {| Diff.added := [PDict [("name", PStr "vni")]];
         Diff.changed := []; Diff.removed := [] |})])].

Lemma ipv6_pool_lookup_ends_cleanup_witness :
  remove_non_bp_added sample_lookup pools_diff = [GetId Ipv6Pool (PStr "v6")]
  /\ List.length (remove_non_bp_added sample_lookup pools_diff) = 1.
Proof.
  split; [reflexivity|].
  apply (proj2 (ipv6_pool_lookup_ends_cleanup sample_lookup pools_diff)
           0 (PStr "v6")).
  reflexivity.
Defined.

End CleanupFacts.

(* ------------------------------------------------------------------ *)
(** ** The rollback history of a project's own history *)
(* ------------------------------------------------------------------ *)

Module HistoryFacts.
Import History.

Lemma insert_desc_front (x : execution) (l : list execution) :
  Forall (desc x) l -> insert_desc x l = x :: l.
Proof.
  destruct l as [|y l]; [reflexivity|]. intros F. inversion F as [|? ? D _]; subst.
  cbn [insert_desc]. unfold desc in D. now rewrite D.
Qed.

Lemma sorted_desc_fixed (l : list execution) :
  StronglySorted desc l -> sorted_desc l = l.
Proof.
  induction 1 as [|x l Hl IH Hx]; [reflexivity|].
  unfold sorted_desc in *. cbn [fold_right]. rewrite IH.
  now apply insert_desc_front.
Qed.

Lemma filter_sorted (f : execution -> bool) (l : list execution) :
  StronglySorted desc l -> StronglySorted desc (filter f l).
Proof.
  induction 1 as [|x l Hl IH Hx]; cbn [filter]; [constructor|].
  destruct (f x); [|exact IH]. constructor; [exact IH|].
  rewrite Forall_forall in *. intros y Hy. apply Hx.
  now apply filter_In in Hy as [Hy _].
Qed.

(** X16.  The rollback history computed from the project's execution
    history is that history with the records that are no rollback
    candidates left out: the candidates keep the order they have in the
    history (newest first, and for equal ids the order of the history),
    the second sort changes nothing. *)
Theorem rollback_history_is_filtered_history
  (loaded : list execution) (current_id : string) :
  get_project_rollback_history (get_project_execution_history loaded) current_id
  = filter (rollback_candidate current_id) (generate_execution_history loaded).
Proof.
  unfold get_project_execution_history, get_project_rollback_history.
  pose proof (sorted_desc_sorted
                (filter (fun e => Py.dict_has e "execution_id") loaded)) as S0.
  fold (generate_execution_history loaded) in S0.
  destruct (generate_execution_history loaded) as [|e h]; [reflexivity|].
  apply sorted_desc_fixed. now apply filter_sorted.
Qed.

End HistoryFacts.

(* ------------------------------------------------------------------ *)
(** ** Time Voyager: the oldest revision *)
(* ------------------------------------------------------------------ *)

Module RevisionFacts.
Import Revisions.

Lemma ltb_leb (a b : string) : String.ltb a b = true -> String.leb a b = true.
Proof. unfold String.ltb, String.leb. now destruct (String.compare a b). Qed.

Lemma not_ltb_leb (a b : string) : String.ltb a b = false -> String.leb b a = true.
Proof.
  unfold String.ltb, String.leb. rewrite (String.compare_antisym b a).
  now destruct (String.compare a b).
Qed.

Lemma leb_refl (a : string) : String.leb a a = true.
Proof. now destruct (String.leb_total a a). Qed.

Lemma min_by_age_spec (revs : list revision) : forall best,
  (min_by_age best revs = best \/ In (min_by_age best revs) revs)
  /\ String.leb (age_key (min_by_age best revs)) (age_key best) = true
  /\ forall r, In r revs ->
       String.leb (age_key (min_by_age best revs)) (age_key r) = true.
Proof.
  induction revs as [|r revs IH]; intros best; cbn [min_by_age].
  - split; [now left|]. split; [apply leb_refl | intros r []].
  - destruct (String.ltb (age_key r) (age_key best)) eqn:L.
    + destruct (IH r) as (M & B & A). split; [|split].
      * right. destruct M as [->|M]; [now left | now right].
      * apply (History.leb_trans _ (age_key r)); [exact B | now apply ltb_leb].
      * intros r' [<-|I]; [exact B | now apply A].
    + destruct (IH best) as (M & B & A). split; [|split].
      * destruct M as [M|M]; [now left | right; now right].
      * exact B.
      * intros r' [<-|I]; [|now apply A].
        apply (History.leb_trans _ (age_key best)); [exact B | now apply not_ltb_leb].
Qed.

(** X17.  The revision [get_oldest_revision] returns is one of the
    blueprint's revisions, and none of them, saved by the user or not,
    has an earlier [created_at]; a revision without [created_at] counts
    as the latest. *)
Theorem oldest_revision_is_minimal (revs : list revision) (o : revision) :
  get_oldest_revision revs = Some o ->
  In o revs
  /\ forall r, In r revs -> String.leb (age_key o) (age_key r) = true.
Proof.
  destruct revs as [|r0 revs]; [discriminate|]. cbn [get_oldest_revision].
  intros [= <-]. destruct (min_by_age_spec revs r0) as (M & B & A). split.
  - destruct M as [->|M]; [now left | now right].
  - intros r [<-|I]; [exact B | now apply A].
Qed.

Lemma oldest_revision_is_minimal_witness :
  In {| revision_id := "1"; created_at := Some "2025-01-01T10:00:00.000000Z";
        user_saved := false; description := "manual commit" |} full_quota
  /\ forall r, In r full_quota ->
       String.leb "2025-01-01T10:00:00.000000Z" (age_key r) = true.
Proof.
  apply (oldest_revision_is_minimal full_quota
           {| revision_id := "1"; created_at := Some "2025-01-01T10:00:00.000000Z";
              user_saved := false; description := "manual commit" |}).
  reflexivity.
Defined.

End RevisionFacts.

(* ------------------------------------------------------------------ *)
(** ** The inputs of earlier executions *)
(* ------------------------------------------------------------------ *)

Module RollbackInputs.
Import Py Fs Os Scope FsFacts FolderNames RotationFacts.

(** X18.  The archive of a run's input folder stays available for a
    rollback: [j] runs later it is found, unchanged, in
    [execution_j/yaml/input.tgz] of the staging folder, as long as [j]
    does not exceed the threshold. *)
Theorem inputs_are_kept (T : Z) (calls : list (scope * clock * node)) (s : node) :
  (0 <= T)%Z ->
  well_formed s ->
  forall (j : nat) (sc : scope) (now : clock) (inp : node),
    nth_error (List.rev calls) j = Some (sc, now, inp) ->
    (Z.of_nat j <= T)%Z ->
    get ((wip_path ++ [name j]) ++ ["yaml"; "input.tgz"]) (begin_executions T calls s)
    = Some (Tgz "input" inp).
Proof.
  intros HT W. induction calls as [|[[sc0 now0] inp0] calls IH] using rev_ind;
    intros j sc now inp.
  - now destruct j.
  - rewrite rev_unit. unfold begin_executions. rewrite fold_left_app.
    cbn [fold_left]. fold (begin_executions T calls s).
    pose proof (begin_executions_well_formed T calls HT s W) as Wb.
    destruct (begin_execution_spec T _ sc0 now0 inp0 HT Wb)
      as (_ & _ & _ & Hz & _ & Hr).
    destruct j as [|j]; cbn [nth_error].
    + intros [= -> -> ->] _. exact Hz.
    + intros N B. specialize (IH j sc now inp N ltac:(lia)).
      rewrite get_app in IH |- *.
      destruct (get (wip_path ++ [name j]) (begin_executions T calls s))
        as [n|] eqn:G; [|discriminate].
      assert (D : is_dir n = true) by (destruct n; try discriminate; reflexivity).
      now rewrite (Hr j n G D B).
Qed.

Lemma inputs_are_kept_witness :
  get ((wip_path ++ [name 1]) ++ ["yaml"; "input.tgz"])
    (begin_executions 1 three_runs empty_project)
  = Some (Tgz "input" (input_version "spines: 4")).
Proof.
  assert (W : well_formed empty_project).
  { exists []. split; [reflexivity|]. split; [constructor|]. intros k n []. }
  apply (inputs_are_kept 1 three_runs empty_project ltac:(lia) W 1
           run_scope (run_clock 2) (input_version "spines: 4")).
  - reflexivity.
  - lia.
Defined.

End RollbackInputs.

(* ------------------------------------------------------------------ *)
(** ** The commit of the staging folder: [commit_wip_executions] *)
(* ------------------------------------------------------------------ *)

Module CommitFacts.
Import Py Fs Os Scope FsFacts ExitFacts RotationFacts OutputFolder FileHelpers.
Local Open Scope fs_scope.

(** *** The temporary folder *)

Lemma length_append (a b : string) :
  String.length (a ++ b) = String.length a + String.length b.
Proof. induction a as [|c a IH]; cbn; [reflexivity | now rewrite IH]. Qed.

Lemma concat_covers (k : string) (l : list string) :
  In k l -> String.length k <= String.length (String.concat "" l).
Proof.
  induction l as [|x l IH]; [intros []|]. intros I. cbn [String.concat].
  destruct l as [|y l].
  - destruct I as [->|[]]. lia.
  - rewrite !length_append. cbn [String.length].
    destruct I as [->|I]; [lia|]. specialize (IH I). lia.
Qed.

Lemma fresh_name_absent (es : entries) : dict_get es (fresh_name es) = None.
Proof.
  apply dict_get_absent_keys. intros I. apply concat_covers in I.
  unfold fresh_name in I. rewrite length_append in I. cbn [String.length] in I.
  lia.
Qed.

Lemma rename_across (src dst : path) (s : node) (n : node) :
  get src s = Some n -> get dst s = None ->
  rename src dst s
  = match put dst n (del src s) with
    | Some s' => (Some tt, s')
    | None => (None, s)
    end.
Proof.
  intros Gs Gd. unfold rename. rewrite Gs, Gd. unfold path_eqb.
  destruct (list_eq_dec string_dec src dst) as [E|_]; [congruence | reflexivity].
Qed.

Lemma basename_snoc (p : path) (k : string) : basename (p ++ [k]) = k.
Proof. apply last_last. Qed.

Lemma diverge_sym (p : path) : forall q, diverge p q = diverge q p.
Proof.
  induction p as [|a p IH]; intros [|b q]; cbn; try reflexivity.
  rewrite (String.eqb_sym a b). destruct (String.eqb b a); [apply IH | reflexivity].
Qed.

Lemma diverge_app_r (p q r : path) :
  diverge p q = true -> diverge p (q ++ r) = true.
Proof. rewrite !(diverge_sym p). apply diverge_app. Qed.

Lemma dict_get_snoc_other {A : Type} (es : list (string * A)) (k k' : string)
  (v : A) :
  k' <> k -> dict_get (es ++ [(k, v)]) k' = dict_get es k'.
Proof.
  intros N. induction es as [|[x w] es IH]; cbn.
  - now destruct (String.eqb_spec k' k).
  - now rewrite IH.
Qed.

(** Steps 2 to 4 on a project whose staging folder is in place: the
    executions folder holds the staging folder and nothing else. *)
Lemma clean_around_wip_spec (s : node) (eo ee ew : entries) :
  get output_path s = Some (Dir eo) ->
  dict_get eo "executions" = Some (Dir ee) ->
  dict_get ee "__wip__" = Some (Dir ew) ->
  exists s', clean_around_wip s = (Some tt, s')
             /\ get executions_dir s' = Some (Dir [("__wip__", Dir ew)]).
Proof.
  intros G0 E Wp.
  set (f := fresh_name eo).
  assert (Nf : f <> "executions").
  { intros Ef. pose proof (fresh_name_absent eo) as A. fold f in A. congruence. }
  set (temp := output_path ++ [f]).
  assert (Dt : diverge temp executions_dir = true).
  { apply (diverge_siblings output_path f "executions" Nf). }
  assert (De : diverge executions_dir temp = true) by now rewrite diverge_sym.
  (* the temporary folder is created *)
  destruct (makedirs_child output_path f s eo G0 (fresh_name_absent eo))
    as (s1 & M1 & G1).
  assert (Ge1 : get executions_dir s1 = Some (Dir ee)).
  { unfold executions_dir. rewrite (get_child output_path "executions" s1 _ G1).
    rewrite dict_get_snoc_other by congruence. exact E. }
  assert (Gt1 : get temp s1 = Some (Dir [])).
  { unfold temp. rewrite (get_child output_path f s1 _ G1).
    apply dict_get_snoc, fresh_name_absent. }
  (* the staging folder is moved into it *)
  assert (Gw1 : get wip_path s1 = Some (Dir ew)).
  { unfold wip_path. now rewrite (get_child executions_dir "__wip__" s1 ee Ge1). }
  assert (Gt1' : get temp (del wip_path s1) = Some (Dir [])).
  { rewrite get_del_diverge; [exact Gt1|]. now apply diverge_app. }
  destruct (put_child temp "__wip__" (Dir ew) (del wip_path s1) [] Gt1')
    as (s2 & P2 & Gt2).
  assert (M2 : move wip_path temp s1 = (Some tt, s2)).
  { unfold move. rewrite Gt1.
    change (basename wip_path) with "__wip__".
    rewrite (get_child temp "__wip__" s1 [] Gt1). cbn [dict_get].
    rewrite (rename_across wip_path (temp ++ ["__wip__"]) s1 (Dir ew) Gw1).
    - now rewrite P2.
    - now rewrite (get_child temp "__wip__" s1 [] Gt1). }
  assert (Ge2 : get executions_dir s2 = Some (Dir (dict_remove ee "__wip__"))).
  { rewrite (get_put_diverge _ executions_dir _ _ s2 (diverge_app _ _ _ Dt) P2).
    apply (del_child executions_dir "__wip__" s1 ee Ge1). }
  (* the executions folder is emptied *)
  destruct (get_parent output_path "executions" s2 _ Ge2) as (eo2 & Go2).
  assert (E2 : dict_get eo2 "executions" = Some (Dir (dict_remove ee "__wip__"))).
  { now rewrite <- (get_child output_path "executions" s2 eo2 Go2). }
  pose proof (clean_up_directory_child output_path "executions" s2 eo2 _ Go2 E2)
    as Go3.
  set (s3 := snd (clean_up_directory executions_dir s2)) in *.
  assert (M3 : clean_up_directory executions_dir s2 = (Some tt, s3)) by reflexivity.
  assert (Ge3 : get executions_dir s3 = Some (Dir [])).
  { unfold executions_dir. rewrite (get_child output_path "executions" s3 _ Go3).
    apply dict_get_snoc, dict_get_remove_eq. }
  assert (Gt3 : get temp s3 = Some (Dir [("__wip__", Dir ew)])).
  { unfold temp. rewrite (get_child output_path f s3 _ Go3).
    rewrite dict_get_snoc_other by exact Nf.
    rewrite dict_get_remove_other by congruence.
    rewrite <- (get_child output_path f s2 eo2 Go2). exact Gt2. }
  (* the staging folder is moved back *)
  assert (Ge3' : get executions_dir (del (temp ++ ["__wip__"]) s3) = Some (Dir [])).
  { rewrite get_del_diverge; [exact Ge3|]. now apply diverge_app. }
  destruct (put_child executions_dir "__wip__" (Dir ew) _ [] Ge3')
    as (s4 & P4 & Ge4).
  assert (M4 : move (temp ++ ["__wip__"]) executions_dir s3 = (Some tt, s4)).
  { unfold move. rewrite Ge3, basename_snoc.
    rewrite (get_child executions_dir "__wip__" s3 [] Ge3). cbn [dict_get].
    rewrite (rename_across (temp ++ ["__wip__"]) (executions_dir ++ ["__wip__"])
               s3 (Dir ew)).
    - now rewrite P4.
    - now rewrite (get_child temp "__wip__" s3 _ Gt3).
    - now rewrite (get_child executions_dir "__wip__" s3 [] Ge3). }
  exists (snd (rmtree temp s4)). split.
  - unfold clean_around_wip.
    change (dirname executions_dir) with output_path. rewrite G0.
    fold f. fold temp. cbv zeta. change (basename wip_path) with "__wip__".
    rewrite (mbind_ok _ _ _ _ _ M1), (mbind_ok _ _ _ _ _ M2),
      (mbind_ok _ _ _ _ _ M3). now rewrite M4.
  - assert (St : stable (get executions_dir) (rmtree temp)).
    { apply (stable_rmtree (get executions_dir) temp
               (untouched_get temp executions_dir Dt)).
      exists []. now rewrite app_nil_r. }
    now rewrite St.
Qed.

(** *** Step 1 with no loose [execution_*] file in the staging folder *)

Definition no_loose_execution_file (ew : entries) : Prop :=
  forall k n, dict_get ew k = Some n ->
              PyStr.startswith k "execution_" = true -> is_dir n = true.

Lemma move_execution_files_idle (s : node) (ew : entries) :
  get wip_path s = Some (Dir ew) ->
  no_loose_execution_file ew ->
  move_execution_files s = (Some tt, s).
Proof.
  intros G H. unfold move_execution_files, mbind at 1, isdir.
  destruct (match get wip_execution_0_log_path s with
            | Some (Dir _) => true
            | _ => false
            end); [|reflexivity].
  cbn [when]. unfold mbind at 1, listdir. rewrite G.
  assert (F : forall names, incl names (map fst ew) ->
            for_each names
              (fun file_name =>
                 f <- (fun s0 => (Some (is_execution_file s0 file_name), s0)) ;;
                 when f (move (wip_path ++ [file_name])
                              (wip_execution_0_log_path ++ [file_name]))) s
            = (Some tt, s)).
  { induction names as [|k names IH]; intros I; [reflexivity|].
    cbn [for_each]. unfold mbind at 1 2.
    assert (N : is_execution_file s k = false).
    { unfold is_execution_file. rewrite (get_child wip_path k s ew G).
      destruct (PyStr.startswith k "execution_") eqn:St; [|reflexivity].
      destruct (dict_get ew k) as [n|] eqn:E; [|reflexivity].
      specialize (H k n E St). now destruct n. }
    rewrite N. cbn [when ret]. apply IH. intros x Hx. apply I. now right. }
  apply F. apply incl_refl.
Qed.

(** *** The copy of the staging folder's entries *)

Lemma copy_item_copies (k : string) (n : node) (s : node) (acc ew : entries) :
  get executions_dir s = Some (Dir acc) ->
  dict_get acc "__wip__" = Some (Dir ew) ->
  dict_get ew k = Some n ->
  dict_get acc k = None ->
  exists s', copy_item k s = (Some tt, s')
             /\ get executions_dir s' = Some (Dir (acc ++ [(k, n)])).
Proof.
  intros G Ew Ek Ak.
  assert (Gw : get wip_path s = Some (Dir ew)).
  { unfold wip_path. now rewrite (get_child executions_dir "__wip__" s acc G). }
  assert (Gs : get (wip_path ++ [k]) s = Some n)
    by now rewrite (get_child wip_path k s ew Gw).
  assert (Gd : get (executions_dir ++ [k]) s = None)
    by now rewrite (get_child executions_dir k s acc G).
  destruct (put_child executions_dir k n s acc G) as (s' & P & G').
  exists s'. rewrite (dict_set_absent acc k n Ak) in G'. split; [|exact G'].
  unfold copy_item, mbind, isdir. rewrite Gs.
  destruct n as [t|y|a t|es];
    try (unfold copy2, write, update; now rewrite Gs, Gd, P).
  unfold copytree. rewrite Gs, Gd. unfold mbind, update, dirname.
  rewrite removelast_last, (mkdirs_existing _ s acc G). now rewrite P.
Qed.

Lemma copy_loop (ew : entries) :
  NoDup (map fst ew) ->
  dict_get ew "__wip__" = None ->
  forall (todo done : entries) (s : node),
    ew = done ++ todo ->
    get executions_dir s = Some (Dir (("__wip__", Dir ew) :: done)) ->
    exists s', for_each (map fst todo) copy_item s = (Some tt, s')
               /\ get executions_dir s'
                  = Some (Dir (("__wip__", Dir ew) :: done ++ todo)).
Proof.
  intros D W. induction todo as [|[k n] todo IH]; intros done s E G.
  - exists s. rewrite app_nil_r. now split.
  - assert (Ek : dict_get ew k = Some n).
    { apply In_dict_get; [exact D|]. rewrite E. apply in_or_app. right. now left. }
    assert (Nk : k <> "__wip__") by congruence.
    assert (Ak : dict_get (("__wip__", Dir ew) :: done) k = None).
    { cbn [dict_get]. destruct (String.eqb_spec k "__wip__") as [->|_]; [congruence|].
      apply dict_get_absent_keys. intros I.
      rewrite E, map_app in D. cbn [map fst] in D.
      apply NoDup_remove_2 in D. apply D. apply in_or_app. now left. }
    destruct (copy_item_copies k n s _ ew G) as (s1 & C & G1);
      [cbn [dict_get]; now rewrite String.eqb_refl | exact Ek | exact Ak |].
    destruct (IH (done ++ [(k, n)]) s1) as (s' & F & G').
    { now rewrite <- app_assoc. }
    { exact G1. }
    exists s'. split.
    + cbn [map fst for_each]. now rewrite (mbind_ok _ _ _ _ _ C).
    + now rewrite <- app_assoc in G'.
Qed.

Lemma commit_wip_executions_spec (s : node) (ew : entries) :
  get wip_path s = Some (Dir ew) ->
  NoDup (map fst ew) ->
  dict_get ew "__wip__" = None ->
  no_loose_execution_file ew ->
  exists s', commit_wip_executions s = (Some tt, s')
             /\ get executions_dir s' = Some (Dir (("__wip__", Dir ew) :: ew)).
Proof.
  intros Gw D W L.
  destruct (get_parent executions_dir "__wip__" s _ Gw) as (ee & Ge).
  destruct (get_parent output_path "executions" s _ Ge) as (eo & Go).
  assert (E : dict_get eo "executions" = Some (Dir ee))
    by now rewrite <- (get_child output_path "executions" s eo Go).
  assert (Ew : dict_get ee "__wip__" = Some (Dir ew))
    by now rewrite <- (get_child executions_dir "__wip__" s ee Ge).
  destruct (clean_around_wip_spec s eo ee ew Go E Ew) as (s1 & C & G1).
  assert (Gw1 : get wip_path s1 = Some (Dir ew)).
  { unfold wip_path. rewrite (get_child executions_dir "__wip__" s1 _ G1).
    cbn [dict_get]. now rewrite String.eqb_refl. }
  destruct (copy_loop ew D W ew [] s1 eq_refl G1) as (s2 & F & G2).
  exists s2. split; [|exact G2].
  unfold commit_wip_executions, catch.
  rewrite (mbind_ok _ _ _ _ _ (move_execution_files_idle s ew Gw L)).
  rewrite (mbind_ok _ _ _ _ _ C). unfold mbind at 1, listdir. rewrite Gw1.
  now rewrite F.
Qed.

(** X19.  [commit_wip_executions] publishes the staging folder: when the
    staging folder has no entry of its own name and no loose
    [execution_*] file, the executions folder afterwards holds the
    staging folder and a copy of each of its entries, in their order,
    and nothing of what it held before. *)
Theorem commit_publishes_staging (s : node) (ew : entries) :
  get wip_path s = Some (Dir ew) ->
  NoDup (map fst ew) ->
  dict_get ew "__wip__" = None ->
  no_loose_execution_file ew ->
  get executions_dir (snd (commit_wip_executions s))
  = Some (Dir (("__wip__", Dir ew) :: ew)).
Proof.
  intros Gw D W L.
  destruct (commit_wip_executions_spec s ew Gw D W L) as (s' & C & G).
  now rewrite C.
Qed.

Lemma commit_publishes_staging_witness :
  get executions_dir (snd (commit_wip_executions sample_tree))
  = Some (Dir [("__wip__",
                Dir [("execution_0", second_execution);
                     ("execution_1", first_execution)]);
               ("execution_0", second_execution);
               ("execution_1", first_execution)]).
Proof.
  apply (commit_publishes_staging sample_tree
           [("execution_0", second_execution); ("execution_1", first_execution)]).
  - reflexivity.
  - repeat constructor; cbn; intuition discriminate.
  - reflexivity.
  - intros k n. cbn [dict_get].
    destruct (String.eqb k "execution_0"); [now intros [= <-]|].
    destruct (String.eqb k "execution_1"); [now intros [= <-]|].
    discriminate.
Defined.

(** *** The exit on a commit *)

Lemma stable_record_exit_code_inner {X : Type} (obs : node -> X)
  (exit_code : string) :
  untouched obs wip_execution_0_path -> stable obs (record_exit_code exit_code).
Proof.
  intros U. apply stable_bind; [apply stable_exists | intros b].
  apply stable_when, stable_catch, stable_bind; [apply stable_exists | intros d].
  apply stable_bind.
  - apply stable_when, (stable_makedirs obs wip_execution_0_path U).
    exists []. now rewrite app_nil_r.
  - intros _. apply (stable_update_yaml obs wip_execution_0_path U).
    eexists; reflexivity.
Qed.

Section ShelteredExit.

Variable P : node -> Prop.
Hypothesis HP : sheltered P wip_execution_0_path.

Lemma preserves_record_exit_code (exit_code : string) :
  preserves P (record_exit_code exit_code).
Proof.
  apply preserves_bind; [now apply preserves_read | intros b].
  apply preserves_when, preserves_catch, preserves_bind;
    [now apply preserves_read | intros d].
  apply preserves_bind.
  - apply preserves_when, (preserves_makedirs_at P _ HP).
  - intros _ s H. unfold update_yaml, catch. cbn [snd].
    assert (B : below wip_execution_0_path execution_data_file)
      by (eexists; eexists; reflexivity).
    destruct (get execution_data_file s) as [[[|c t]| | |]|]; try exact H;
      exact (preserves_write P _ HP execution_data_file _ B s H).
Qed.

Lemma preserves_remove_rollback_file :
  preserves P (remove_file wip_execution_0_input_tgz_rollback_file).
Proof.
  apply preserves_catch, preserves_bind; [now apply preserves_read | intros b].
  apply preserves_when. intros s H. unfold remove.
  destruct (get wip_execution_0_input_tgz_rollback_file s) as [[| | |]|];
    try exact H;
    exact (sheltered_del P _ HP "yaml" ["input.tgz.rollback"] s H).
Qed.

End ShelteredExit.

Lemma own_steps_commit_unfold (sc : scope) (now : clock) (log : option string)
  (code : string) :
  code = "USER_TF_EXEC_COMMIT" \/ code = "TF_PLAN_NO_CHANGES_POST_ROLLBACK" ->
  own_steps sc now log code
  = (remove_file wip_execution_0_input_tgz_rollback_file ;;;
     ret tt ;;;
     (commit_wip_executions ;;; copy_log log execution_0_log_file) ;;;
     remove_directory wip_path ;;;
     ret tt ;;;
     handle_project_log log ;;;
     remove_directory input_tgz_reverted_path ;;;
     remove_if_empty executions_dir ;;;
     ret false).
Proof.
  intros [-> | ->]; unfold own_steps, triggers_follow_up;
    destruct (first_execution_reverted sc); reflexivity.
Qed.

(** What the steps before the commit keep of the staging folder: its
    listing, and every entry other than [execution_0]. *)
Definition staged (ew : entries) (s : node) : Prop :=
  shape_at wip_path s = Some (shape ew)
  /\ forall k, k <> "execution_0" -> get (wip_path ++ [k]) s = dict_get ew k.

Lemma staged_entries (ew : entries) (s : node) :
  staged ew s ->
  exists ew1, get wip_path s = Some (Dir ew1)
              /\ shape ew1 = shape ew
              /\ forall k, k <> "execution_0" -> dict_get ew1 k = dict_get ew k.
Proof.
  intros [Sh K]. unfold shape_at in Sh.
  destruct (get wip_path s) as [[| | |ew1]|] eqn:G; try discriminate.
  exists ew1. split; [reflexivity|]. split; [congruence|].
  intros k N. now rewrite <- (K k N), (get_child wip_path k s ew1 G).
Qed.

Lemma staged_before_commit (ew : entries) (c : string) (s : node) :
  get wip_path s = Some (Dir ew) ->
  staged ew (snd (remove_file wip_execution_0_input_tgz_rollback_file
                    (snd (record_exit_code c s)))).
Proof.
  intros G.
  assert (S0 : staged ew s).
  { split; [unfold shape_at; now rewrite G|].
    intros k _. apply (get_child wip_path k s ew G). }
  destruct (dict_get ew "execution_0") as [n0|] eqn:E0.
  - split.
    + assert (HP : sheltered (fun t => shape_at wip_path t = Some (shape ew))
                     wip_execution_0_path).
      { apply wip_shape_sheltered. rewrite dict_get_shape, E0. discriminate. }
      apply (preserves_remove_rollback_file _ HP).
      apply (preserves_record_exit_code _ HP). exact (proj1 S0).
    + intros k N.
      assert (U : untouched (get (wip_path ++ [k])) wip_execution_0_path).
      { apply untouched_get, diverge_siblings. congruence. }
      rewrite (stable_remove_file _ _ U); [|eexists; reflexivity].
      rewrite (stable_record_exit_code_inner _ c U). now apply S0.
  - assert (G0 : forall r, get (wip_execution_0_path ++ r) s = None).
    { intros r. rewrite get_app. unfold wip_execution_0_path.
      now rewrite (get_child wip_path "execution_0" s ew G), E0. }
    assert (R : snd (record_exit_code c s) = s).
    { unfold record_exit_code, mbind, exists_.
      change execution_data_file
        with (wip_execution_0_path ++ [execution_data_filename]).
      now rewrite G0. }
    rewrite R.
    assert (F : snd (remove_file wip_execution_0_input_tgz_rollback_file s) = s).
    { unfold remove_file, catch, mbind, isfile.
      change wip_execution_0_input_tgz_rollback_file
        with (wip_execution_0_path ++ ["yaml"; "input.tgz.rollback"]).
      now rewrite G0. }
    now rewrite F.
Qed.

Lemma shape_no_loose (ew ew1 : entries) :
  shape ew1 = shape ew ->
  no_loose_execution_file ew -> no_loose_execution_file ew1.
Proof.
  intros Sh L k n E St.
  pose proof (dict_get_shape ew1 k) as H1. rewrite Sh, dict_get_shape, E in H1.
  destruct (dict_get ew k) as [n'|] eqn:E'; [|discriminate].
  injection H1 as H1. rewrite <- H1. exact (L k n' E' St).
Qed.

Lemma remove_if_empty_inside (p : path) (k : string) (r : path) :
  p <> [] -> stable (get (p ++ k :: r)) (remove_if_empty p).
Proof.
  intros N s. unfold remove_if_empty, mbind, isdir, listdir, remove_directory,
    catch, exists_, rmtree, when, ret.
  destruct (get p s) as [[| | |[|e es]]|] eqn:E;
    repeat (cbn; rewrite ?E); try reflexivity.
  rewrite get_del_below by exact N.
  now rewrite get_app, E.
Qed.

(** The state in which the commit finds the staging folder. *)
Definition before_commit (c : string) (s : node) : node :=
  snd (remove_file wip_execution_0_input_tgz_rollback_file
         (snd (record_exit_code (PyStr.upper c) s))).

(** What the exit on a commit leaves in the executions folder, path by
    path: what the staging folder held there when it was committed.
    The log folder of [execution_0], which receives the session log
    after the commit, is left out. *)
Lemma commit_exit_copies (run : follow_up) (sc : scope)
  (now : clock) (log : option string)
  (c k : string) (r : path) (s : node) (ew : entries) :
  PyStr.upper c = "USER_TF_EXEC_COMMIT"
  \/ PyStr.upper c = "TF_PLAN_NO_CHANGES_POST_ROLLBACK" ->
  get wip_path s = Some (Dir ew) ->
  NoDup (map fst ew) ->
  dict_get ew "__wip__" = None ->
  no_loose_execution_file ew ->
  (k = "execution_0" -> exists x r', r = x :: r' /\ x <> "log") ->
  get (executions_dir ++ k :: r) (snd (exit_manager run sc now log (Some c) s))
  = get (wip_path ++ k :: r) (before_commit c s).
Proof.
  intros Hc G D W L Hk.
  assert (N : c <> "") by (intros ->; destruct Hc; discriminate).
  assert (T : triggers_follow_up sc (PyStr.upper c) = false)
    by (apply successful_no_follow_up; destruct Hc as [-> | ->]; reflexivity).
  rewrite (exit_manager_state run sc now log c s N T).
  rewrite (own_steps_commit_unfold sc now log _ Hc).
  pose proof (staged_before_commit ew (PyStr.upper c) s G) as St.
  fold (before_commit c s) in St. unfold mbind at 1.
  assert (R : remove_file wip_execution_0_input_tgz_rollback_file
                (snd (record_exit_code (PyStr.upper c) s))
              = (Some tt, before_commit c s)) by reflexivity.
  rewrite R. set (s1 := before_commit c s) in *.
  destruct (staged_entries ew s1 St) as (ew1 & G1 & Sh & K).
  assert (D1 : NoDup (map fst ew1)) by now rewrite <- shape_keys, Sh, shape_keys.
  assert (W1 : dict_get ew1 "__wip__" = None).
  { pose proof (dict_get_shape ew1 "__wip__") as H. rewrite Sh, dict_get_shape, W in H.
    now destruct (dict_get ew1 "__wip__"). }
  pose proof (shape_no_loose ew ew1 Sh L) as L1.
  destruct (commit_wip_executions_spec s1 ew1 G1 D1 W1 L1) as (s2 & C & G2).
  unfold mbind at 1, ret. unfold mbind at 1. unfold mbind at 1. rewrite C.
  set (s3 := snd (copy_log log execution_0_log_file s2)).
  assert (C3 : copy_log log execution_0_log_file s2 = (Some tt, s3)) by reflexivity.
  rewrite C3.
  (* the session log goes below the log folder of execution_0 *)
  assert (Dl : forall x t, (x = "execution_0" -> exists y t', t = y :: t' /\ y <> "log") ->
               diverge (execution_0_path ++ ["log"]) (executions_dir ++ x :: t) = true).
  { intros x t Hx. destruct (String.eqb_spec x "execution_0") as [->|Nx].
    - destruct (Hx eq_refl) as (y & t' & -> & Ny).
      change (executions_dir ++ "execution_0" :: y :: t')
        with ((execution_0_path ++ [y]) ++ t').
      apply diverge_app_r, diverge_siblings. congruence.
    - change (executions_dir ++ x :: t) with ((executions_dir ++ [x]) ++ t).
      apply diverge_app_r. unfold execution_0_path. rewrite <- app_assoc.
      apply (diverge_app (executions_dir ++ ["execution_0"])), diverge_siblings.
      congruence. }
  assert (E3 : forall x t, (x = "execution_0" -> exists y t', t = y :: t' /\ y <> "log") ->
               get (executions_dir ++ x :: t) s3
               = match dict_get (("__wip__", Dir ew1) :: ew1) x with
                 | Some n => get t n
                 | None => None
                 end).
  { intros x t Hx. unfold s3.
    rewrite (stable_copy_log _ _ (untouched_get _ _ (Dl x t Hx)));
      [|eexists; reflexivity | discriminate].
    change (executions_dir ++ x :: t) with (executions_dir ++ [x] ++ t).
    rewrite app_assoc, get_app, (get_child executions_dir x s2 _ G2).
    reflexivity. }
  assert (Gw3 : get wip_path s3 = Some (Dir ew1)).
  { unfold wip_path. change (executions_dir ++ ["__wip__"])
      with (executions_dir ++ "__wip__" :: []).
    rewrite E3 by discriminate. cbn [dict_get]. now rewrite String.eqb_refl. }
  rewrite (mbind_ok _ _ _ _ _ (remove_directory_dir wip_path s3 ew1 Gw3)).
  unfold mbind at 1, ret.
  assert (E4 : get (executions_dir ++ k :: r) (del wip_path s3)
               = get (wip_path ++ k :: r) s1).
  { change (wip_path ++ k :: r) with (wip_path ++ [k] ++ r).
    rewrite (app_assoc wip_path), (get_app (wip_path ++ [k])),
      (get_child wip_path k s1 ew1 G1).
    destruct (String.eqb_spec k "__wip__") as [->|Nw].
    - rewrite W1. change (executions_dir ++ "__wip__" :: r) with (wip_path ++ r).
      apply get_del_below. discriminate.
    - rewrite get_del_diverge.
      + rewrite (E3 k r Hk). cbn [dict_get].
        now destruct (String.eqb_spec k "__wip__").
      + change (executions_dir ++ k :: r) with ((executions_dir ++ [k]) ++ r).
        apply diverge_app_r, (diverge_siblings executions_dir). congruence. }
  rewrite <- E4.
  assert (Ul : untouched (get (executions_dir ++ k :: r))
                 (dirname project_log_file))
    by now apply untouched_get.
  match goal with
  | |- get ?q (snd (?m ?t)) = get ?q ?t => cut (stable (get q) m);
      [intros Hs; apply Hs|]
  end.
  apply stable_bind; [now apply stable_handle_project_log | intros _].
  apply stable_bind.
  { apply (stable_remove_directory _ input_tgz_reverted_path).
    - now apply untouched_get.
    - exists []. now rewrite app_nil_r. }
  intros _. apply stable_bind; [|intros _; apply stable_ret].
  apply remove_if_empty_inside. discriminate.
Qed.

(** X20.  An exit on [USER_TF_EXEC_COMMIT] or
    [TF_PLAN_NO_CHANGES_POST_ROLLBACK] publishes the staged executions:
    every entry of the executions folder other than [execution_0] is
    afterwards what the staging folder held under that name (so what
    the executions folder held before is gone, and so is the staging
    folder itself); [execution_0] is left out of the statement because
    it receives the exit code and the session log on the way. *)
Theorem commit_exit_publishes (run : follow_up) (sc : scope)
  (now : clock) (log : option string)
  (c k : string) (s : node) (ew : entries) :
  PyStr.upper c = "USER_TF_EXEC_COMMIT"
  \/ PyStr.upper c = "TF_PLAN_NO_CHANGES_POST_ROLLBACK" ->
  get wip_path s = Some (Dir ew) ->
  NoDup (map fst ew) ->
  dict_get ew "__wip__" = None ->
  no_loose_execution_file ew ->
  k <> "execution_0" ->
  entry k (snd (exit_manager run sc now log (Some c) s)) = dict_get ew k.
Proof.
  intros Hc G D W L Nk. unfold entry.
  rewrite (commit_exit_copies run sc now log c k [] s ew Hc G D W L) by congruence.
  exact (proj2 (staged_before_commit ew (PyStr.upper c) s G) k Nk).
Qed.

Lemma commit_exit_publishes_witness :
  entry "execution_1"
    (snd (exit_manager sample_run sample_scope sample_clock (Some "session log")
            (Some "user_tf_exec_commit") sample_tree))
  = Some first_execution
  /\ entry "__wip__"
       (snd (exit_manager sample_run sample_scope sample_clock (Some "session log")
               (Some "user_tf_exec_commit") sample_tree))
     = None.
Proof.
  assert (H : forall k, k <> "execution_0" ->
            entry k (snd (exit_manager sample_run sample_scope sample_clock (Some "session log")
                            (Some "user_tf_exec_commit") sample_tree))
            = dict_get [("execution_0", second_execution);
                        ("execution_1", first_execution)] k).
  { intros k Nk.
    apply (commit_exit_publishes sample_run sample_scope sample_clock (Some "session log")
             "user_tf_exec_commit" k sample_tree
             [("execution_0", second_execution); ("execution_1", first_execution)]).
    - now left.
    - reflexivity.
    - repeat constructor; cbn; intuition discriminate.
    - reflexivity.
    - intros x n. cbn [dict_get].
      destruct (String.eqb x "execution_0"); [now intros [= <-]|].
      destruct (String.eqb x "execution_1"); [now intros [= <-]|].
      discriminate.
    - exact Nk. }
  split; [apply (H "execution_1") | apply (H "__wip__")]; discriminate.
Defined.

(** X23.  The exit on a commit leaves the record that the rollback
    history is later built from: the published
    [execution_0/execution_data.yml] holds the fields the staged file
    held, with [exit_code] set to the exit code in upper case. *)
Theorem commit_exit_records_exit_code (run : follow_up) (sc : scope)
  (now : clock)
  (log : option string) (c : string) (s : node) (ew : entries)
  (fields : list (string * string)) :
  PyStr.upper c = "USER_TF_EXEC_COMMIT"
  \/ PyStr.upper c = "TF_PLAN_NO_CHANGES_POST_ROLLBACK" ->
  get wip_path s = Some (Dir ew) ->
  NoDup (map fst ew) ->
  dict_get ew "__wip__" = None ->
  no_loose_execution_file ew ->
  get execution_data_file s = Some (Yaml fields) ->
  get (execution_0_path ++ [execution_data_filename])
    (snd (exit_manager run sc now log (Some c) s))
  = Some (Yaml (dict_set fields "exit_code" (PyStr.upper c))).
Proof.
  intros Hc G D W L F.
  change (execution_0_path ++ [execution_data_filename])
    with (executions_dir ++ "execution_0" :: [execution_data_filename]).
  rewrite (commit_exit_copies run sc now log c "execution_0" [execution_data_filename]
             s ew Hc G D W L).
  - change (wip_path ++ "execution_0" :: [execution_data_filename])
      with execution_data_file.
    unfold before_commit.
    rewrite (stable_remove_file (get execution_data_file)
               (wip_execution_0_yaml_path)).
    + now apply record_exit_code_recorded.
    + now apply untouched_get.
    + eexists; reflexivity.
  - intros _. exists execution_data_filename, []. split; [reflexivity | discriminate].
Qed.

Lemma commit_exit_records_exit_code_witness :
  get (execution_0_path ++ [execution_data_filename])
    (snd (exit_manager sample_run sample_scope sample_clock (Some "session log")
            (Some "user_tf_exec_commit") sample_tree))
  = Some (Yaml [("execution_id", "apaf_id_1714557600");
                ("exit_code", "USER_TF_EXEC_COMMIT")]).
Proof.
  apply (commit_exit_records_exit_code sample_run sample_scope sample_clock
           (Some "session log") "user_tf_exec_commit" sample_tree
           [("execution_0", second_execution); ("execution_1", first_execution)]
           [("execution_id", "apaf_id_1714557600"); ("exit_code", "")]).
  - now left.
  - reflexivity.
  - repeat constructor; cbn; intuition discriminate.
  - reflexivity.
  - intros x n. cbn [dict_get].
    destruct (String.eqb x "execution_0"); [now intros [= <-]|].
    destruct (String.eqb x "execution_1"); [now intros [= <-]|].
    discriminate.
  - reflexivity.
Defined.

End CommitFacts.

(* ------------------------------------------------------------------ *)
(** ** The exit status and the record of the exit code *)
(* ------------------------------------------------------------------ *)

Module ExitStatus.
Import Py Fs Os Scope FsFacts ExitFacts CommitFacts.
Local Open Scope fs_scope.




End ExitStatus.

(* ------------------------------------------------------------------ *)
(** ** Command-line arguments: [parse_input_args] *)
(* ------------------------------------------------------------------ *)

Module InputArgs.
Import PyStr PyStrFacts Py.
Local Open Scope string_scope.

(** One element of the generator handed to [dict]: [arg.split('=')]
    must have exactly two items, else [dict] raises [ValueError]. *)
Definition parse_step (acc : list (string * string)) (arg : string)
  : exc (list (string * string)) :=
  match split "=" arg with
  | [k; v] => Some (dict_set acc k v)
  | _ => None
  end.

(** [parse_input_args()], given [sys.argv[1:]]: [None] stands for the
    logged error followed by [sys.exit(1)]. *)
Definition parse_input_args (argv : list string) : exc (list (string * string)) :=
  Diff.foldM parse_step argv [].

(** [key=value], with no further [=] on either side. *)
Definition key_value (arg k v : string) : Prop :=
  arg = k ++ "=" ++ v /\ lacks "=" k = true /\ lacks "=" v = true.

Lemma first_occurrence (c : ascii) (a : string) :
  lacks c a = true
  \/ exists x y, a = x ++ String c y /\ lacks c x = true.
Proof.
  induction a as [|d a IH]; [now left|].
  destruct (Ascii.eqb_spec c d) as [<-|N].
  - right. exists "", a. now split.
  - destruct IH as [L|(x & y & -> & L)].
    + left. cbn [lacks]. rewrite L. now destruct (Ascii.eqb_spec c d).
    + right. exists (String d x), y. split; [reflexivity|].
      cbn [lacks]. rewrite L. now destruct (Ascii.eqb_spec c d).
Qed.

Lemma split_one (c : ascii) (y v : string) :
  split (String c "") y = [v] -> y = v /\ lacks c y = true.
Proof.
  unfold split. destruct (first_occurrence c y) as [L|(x & z & -> & L)].
  - rewrite (split_go_whole c "" y "" L). now intros [= <-].
  - change (String c z) with (String c "" ++ z).
    rewrite (split_go_at c "" x z "" L).
    destruct (split_go_head (String c "") z 0 "") as (r & l & ->). discriminate.
Qed.

Lemma split_key_value (arg k v : string) :
  split "=" arg = [k; v] <-> key_value arg k v.
Proof.
  unfold split, key_value. split.
  - destruct (first_occurrence "=" arg) as [L|(x & y & -> & L)].
    + rewrite (split_go_whole "=" "" arg "" L). discriminate.
    + change (String "=" y) with ("=" ++ y).
      rewrite (split_go_at "=" "" x y "" L). cbn [append].
      intros [= <- E]. destruct (split_one "=" y v E) as [<- Ly]. now repeat split.
  - intros (-> & Lk & Lv).
    rewrite (split_go_at "=" "" k v "" Lk), (split_go_whole "=" "" v "" Lv).
    reflexivity.
Qed.

Lemma parse_step_inv (acc d : list (string * string)) (arg : string) :
  parse_step acc arg = Some d ->
  exists k v, key_value arg k v /\ d = dict_set acc k v.
Proof.
  unfold parse_step. destruct (split "=" arg) as [|k [|v [|w l]]] eqn:E;
    try discriminate.
  intros [= <-]. exists k, v. split; [now apply split_key_value | reflexivity].
Qed.

Lemma parse_step_key_value (acc : list (string * string)) (arg k v : string) :
  key_value arg k v -> parse_step acc arg = Some (dict_set acc k v).
Proof.
  intros H. apply split_key_value in H. unfold parse_step. now rewrite H.
Qed.

(** X21.  [parse_input_args] accepts the command line exactly when
    every argument is of the form [key=value] with a single [=]: an
    argument without [=], or with a second one (as in a comment that
    contains [=]), ends the script with exit status 1. *)
Theorem parse_input_args_accepts (argv : list string) :
  (exists d, parse_input_args argv = Some d)
  <-> Forall (fun arg => exists k v, key_value arg k v) argv.
Proof.
  unfold parse_input_args. generalize (@nil (string * string)) as acc.
  induction argv as [|arg argv IH]; intros acc; cbn [Diff.foldM].
  - split; [constructor | now exists acc].
  - split.
    + intros (d & H). destruct (parse_step acc arg) as [acc'|] eqn:E;
        [|discriminate]. cbn in H.
      destruct (parse_step_inv acc acc' arg E) as (k & v & K & _).
      constructor; [now exists k, v|]. apply (IH acc'). now exists d.
    + intros F. inversion F as [|? ? (k & v & K) F']; subst.
      rewrite (parse_step_key_value acc arg k v K). cbn. now apply IH.
Qed.

Lemma parse_input_args_accepts_witness :
  (exists d, parse_input_args ["command=p"; "post_commit_comment=spines"] = Some d)
  /\ parse_input_args ["command=p"; "post_commit_comment=a=b"] = None.
Proof.
  split; [|reflexivity].
  apply (proj2 (parse_input_args_accepts ["command=p"; "post_commit_comment=spines"])).
  repeat constructor.
  - exists "command", "p". now repeat split.
  - exists "post_commit_comment", "spines". now repeat split.
Defined.

Lemma later_arguments_keep (k : string) (post : list string) :
  (forall v', ~ In (k ++ "=" ++ v') post) ->
  forall acc d, Diff.foldM parse_step post acc = Some d ->
                dict_get d k = dict_get acc k.
Proof.
  induction post as [|arg post IH]; intros N acc d; cbn [Diff.foldM].
  - now intros [= <-].
  - destruct (parse_step acc arg) as [acc'|] eqn:E; [|discriminate]. cbn.
    intros H. rewrite (IH (fun v' I => N v' (or_intror I)) acc' d H).
    destruct (parse_step_inv acc acc' arg E) as (k' & v' & (-> & _) & ->).
    apply FsFacts.dict_get_set_other. intros <-. apply (N v'). now left.
Qed.

Lemma foldM_app {A B : Type} (f : A -> B -> exc A) (l l' : list B) (a : A) :
  Diff.foldM f (l ++ l') a
  = match Diff.foldM f l a with
    | Some a' => Diff.foldM f l' a'
    | None => None
    end.
Proof.
  revert a. induction l as [|b l IH]; intros a; cbn; [reflexivity|].
  destruct (f a b); cbn; [apply IH | reflexivity].
Qed.

(** X22.  The dictionary [parse_input_args] returns maps a key to the
    value of the last argument given for that key. *)
Theorem parse_input_args_last_wins (pre post : list string) (k v : string)
  (d : list (string * string)) :
  parse_input_args (pre ++ (k ++ "=" ++ v) :: post) = Some d ->
  lacks "=" k = true ->
  lacks "=" v = true ->
  (forall v', ~ In (k ++ "=" ++ v') post) ->
  dict_get d k = Some v.
Proof.
  unfold parse_input_args. rewrite foldM_app.
  destruct (Diff.foldM parse_step pre []) as [acc|]; [|discriminate].
  cbn [Diff.foldM]. intros H Lk Lv N.
  rewrite (parse_step_key_value acc _ k v (conj eq_refl (conj Lk Lv))) in H.
  cbn in H. rewrite (later_arguments_keep k post N _ d H).
  apply FsFacts.dict_get_set_eq.
Qed.

Lemma parse_input_args_last_wins_witness :
  parse_input_args ["command=p"; "command=a"; "interactive=no"]
  = Some [("command", "a"); ("interactive", "no")]
  /\ dict_get [("command", "a"); ("interactive", "no")] "command" = Some "a".
Proof.
  split; [reflexivity|].
  apply (parse_input_args_last_wins ["command=p"] ["interactive=no"]
           "command" "a" [("command", "a"); ("interactive", "no")]).
  - reflexivity.
  - reflexivity.
  - reflexivity.
  - intros v' [E|[]]. discriminate E.
Defined.

End InputArgs.
